(** * Task lifecycle of the Legion runtime: a shallow embedding of
      [runtime/legion/legion_tasks.cc]

    The development follows the source file: the resource tracker
    (ledger) of a slice, the completion/commit flags of [TaskOp], the
    stealing flag, the slicing of a [MultiTask] into [SliceTask]s and point
    tasks, and the bookkeeping of [IndexTask] (slice fractions, point
    counters, deterministic reductions).

    Conventions.
    - Code under [#ifdef DEBUG_LEGION] is kept and guarded by a boolean
      [DEBUG_LEGION]; a failing [assert] yields [AssertFailed].
    - [REPORT_LEGION_ERROR] ends the call with [Fatal code].
    - [long long] and [size_t]/[unsigned] arithmetic wraps around. *)

From Stdlib Require Import QArith Qcanon.
From stdpp Require Import sorting numbers.
From stdpp Require Import base option list gmap sets fin_maps fin_sets.

Set Warnings "-register-all".
Open Scope Z_scope.

(** ** Results of calls that may abort *)

Inductive ErrorCode :=
  | ERROR_INVALID_MAPPER_OUTPUT
  | ERROR_PHYSICAL_TRACING_REMOTE_MAPPING
  | ERROR_REDUCTION_OPERATION_INDEX.

Inductive result (A : Type) :=
  | Ok (a : A)
  | AssertFailed
  | Fatal (code : ErrorCode).
Arguments Ok {A} a.
Arguments AssertFailed {A}.
Arguments Fatal {A} code.

#[global] Instance result_ret : MRet result := λ A a, Ok a.
#[global] Instance result_bind : MBind result := λ A B f m,
  match m with
  | Ok a => f a
  | AssertFailed => AssertFailed
  | Fatal c => Fatal c
  end.

#[global] Instance result_fmap : FMap result := λ A B f m,
  match m with
  | Ok a => Ok (f a)
  | AssertFailed => AssertFailed
  | Fatal c => Fatal c
  end.

#[global] Instance ErrorCode_eq_dec : EqDecision ErrorCode.
Proof. solve_decision. Defined.

(** [assert(b)] inside [#ifdef DEBUG_LEGION ... #endif]. *)
Definition debug_assert (DEBUG_LEGION : bool) (b : bool) : result unit :=
  if DEBUG_LEGION && negb b then AssertFailed else Ok ().

Definition is_ok {A} (r : result A) : bool :=
  match r with Ok _ => true | _ => false end.

(** Signed 64-bit ([long long]) and unsigned ([unsigned], [size_t])
    wrap-around. *)
Definition wrap_ll (z : Z) : Z := (z + 2 ^ 63) `mod` 2 ^ 64 - 2 ^ 63.
Definition wrap_u32 (z : Z) : Z := z `mod` 2 ^ 32.
Definition wrap_size_t (z : Z) : Z := z `mod` 2 ^ 64.

(** ** Handles *)

Record IndexSpace := mkIndexSpace { is_id : Z; is_type_tag : Z }.
Record LogicalRegion :=
  mkLogicalRegion { lr_tree_id : Z; lr_index_space : IndexSpace; lr_field_space : Z }.
Definition FieldSpace := Z.
Definition FieldID := Z.
Definition IndexPartition := Z.

#[global] Instance IndexSpace_eq_dec : EqDecision IndexSpace.
Proof. solve_decision. Defined.
#[global] Instance IndexSpace_countable : Countable IndexSpace.
Proof.
  refine (inj_countable' (λ i, (is_id i, is_type_tag i))
                         (λ p, mkIndexSpace p.1 p.2) _).
  by intros [].
Defined.
#[global] Instance LogicalRegion_eq_dec : EqDecision LogicalRegion.
Proof. solve_decision. Defined.
#[global] Instance LogicalRegion_countable : Countable LogicalRegion.
Proof.
  refine (inj_countable' (λ r, (lr_tree_id r, lr_index_space r, lr_field_space r))
                         (λ p, mkLogicalRegion p.1.1 p.1.2 p.2) _).
  by intros [].
Defined.

Definition NO_SPACE : IndexSpace := mkIndexSpace 0 0.
(** [IndexSpace::exists()] *)
Definition is_exists (i : IndexSpace) : bool := negb (is_id i =? 0).

(** ** Resource tracker ([ResourceTracker], and [SliceTask]'s overrides) *)

Module ResourceTracker.

(** The ten containers of [class ResourceTracker]; a created region or
    field carries its "local" flag. *)
Record t := mk {
  created_regions : gmap LogicalRegion bool;
  created_fields : gmap (FieldSpace * FieldID) bool;
  created_field_spaces : gset FieldSpace;
  created_index_spaces : gset IndexSpace;
  created_index_partitions : gset IndexPartition;
  deleted_regions : gset LogicalRegion;
  deleted_fields : gset (FieldSpace * FieldID);
  deleted_field_spaces : gset FieldSpace;
  deleted_index_spaces : gset IndexSpace;
  deleted_index_partitions : gset IndexPartition;
}.

Definition empty : t := mk ∅ ∅ ∅ ∅ ∅ ∅ ∅ ∅ ∅ ∅.

Definition set_created_regions v (l : t) : t :=
  mk v (created_fields l) (created_field_spaces l) (created_index_spaces l)
     (created_index_partitions l) (deleted_regions l) (deleted_fields l)
     (deleted_field_spaces l) (deleted_index_spaces l) (deleted_index_partitions l).
Definition set_created_fields v (l : t) : t :=
  mk (created_regions l) v (created_field_spaces l) (created_index_spaces l)
     (created_index_partitions l) (deleted_regions l) (deleted_fields l)
     (deleted_field_spaces l) (deleted_index_spaces l) (deleted_index_partitions l).
Definition set_created_field_spaces v (l : t) : t :=
  mk (created_regions l) (created_fields l) v (created_index_spaces l)
     (created_index_partitions l) (deleted_regions l) (deleted_fields l)
     (deleted_field_spaces l) (deleted_index_spaces l) (deleted_index_partitions l).
Definition set_created_index_spaces v (l : t) : t :=
  mk (created_regions l) (created_fields l) (created_field_spaces l) v
     (created_index_partitions l) (deleted_regions l) (deleted_fields l)
     (deleted_field_spaces l) (deleted_index_spaces l) (deleted_index_partitions l).
Definition set_created_index_partitions v (l : t) : t :=
  mk (created_regions l) (created_fields l) (created_field_spaces l)
     (created_index_spaces l) v (deleted_regions l) (deleted_fields l)
     (deleted_field_spaces l) (deleted_index_spaces l) (deleted_index_partitions l).
Definition set_deleted_regions v (l : t) : t :=
  mk (created_regions l) (created_fields l) (created_field_spaces l)
     (created_index_spaces l) (created_index_partitions l) v (deleted_fields l)
     (deleted_field_spaces l) (deleted_index_spaces l) (deleted_index_partitions l).
Definition set_deleted_fields v (l : t) : t :=
  mk (created_regions l) (created_fields l) (created_field_spaces l)
     (created_index_spaces l) (created_index_partitions l) (deleted_regions l) v
     (deleted_field_spaces l) (deleted_index_spaces l) (deleted_index_partitions l).
Definition set_deleted_field_spaces v (l : t) : t :=
  mk (created_regions l) (created_fields l) (created_field_spaces l)
     (created_index_spaces l) (created_index_partitions l) (deleted_regions l)
     (deleted_fields l) v (deleted_index_spaces l) (deleted_index_partitions l).
Definition set_deleted_index_spaces v (l : t) : t :=
  mk (created_regions l) (created_fields l) (created_field_spaces l)
     (created_index_spaces l) (created_index_partitions l) (deleted_regions l)
     (deleted_fields l) (deleted_field_spaces l) v (deleted_index_partitions l).
Definition set_deleted_index_partitions v (l : t) : t :=
  mk (created_regions l) (created_fields l) (created_field_spaces l)
     (created_index_spaces l) (created_index_partitions l) (deleted_regions l)
     (deleted_fields l) (deleted_field_spaces l) (deleted_index_spaces l) v.

(** *** The loops of the [register_*] functions *)

Section loops.
Context `{Countable K} {V : Type}.
Variable DEBUG_LEGION : bool.

(** [assert(created.find(it->first) == created.end());
     created[it->first] = it->second;] for every [it]. *)
Fixpoint assign_all (l : list (K * V)) (created : gmap K V) : result (gmap K V) :=
  match l with
  | [] => Ok created
  | it :: l' =>
      _ ← debug_assert DEBUG_LEGION (bool_decide (created !! it.1 = None));
      assign_all l' (<[it.1 := it.2]> created)
  end.

(** [std::map::insert(value)]: an existing entry is kept. *)
Definition std_map_insert (it : K * V) (m : gmap K V) : gmap K V :=
  match m !! it.1 with
  | Some _ => m
  | None => <[it.1 := it.2]> m
  end.

(** [assert(created.find(it->first) == created.end());
     created.insert( *it);] for every [it]. *)
Fixpoint insert_all (l : list (K * V)) (created : gmap K V) : result (gmap K V) :=
  match l with
  | [] => Ok created
  | it :: l' =>
      _ ← debug_assert DEBUG_LEGION (bool_decide (created !! it.1 = None));
      insert_all l' (std_map_insert it created)
  end.

(** [assert(created.find( *it) == created.end()); created.insert( *it);] *)
Fixpoint set_insert_all_checked (l : list K) (created : gset K) : result (gset K) :=
  match l with
  | [] => Ok created
  | x :: l' =>
      _ ← debug_assert DEBUG_LEGION (bool_decide (x ∉ created));
      set_insert_all_checked l' ({[x]} ∪ created)
  end.

(** [deleted.insert( *it);] for every [it]: no check at all. *)
Fixpoint set_insert_all (l : list K) (deleted : gset K) : gset K :=
  match l with
  | [] => deleted
  | x :: l' => set_insert_all l' ({[x]} ∪ deleted)
  end.
End loops.

(** *** [SliceTask::register_*] (legion_tasks.cc, 9307-9441) *)

Section slice_task.
Variable DEBUG_LEGION : bool.

Definition register_region_creations (regs : gmap LogicalRegion bool) (s : t) : result t :=
  cr ← assign_all DEBUG_LEGION (map_to_list regs) (created_regions s);
  mret (set_created_regions cr s).

Definition register_region_deletions (regs : gset LogicalRegion) (s : t) : result t :=
  mret (set_deleted_regions (set_insert_all (elements regs) (deleted_regions s)) s).

Definition register_field_creations (fields : gmap (FieldSpace * FieldID) bool) (s : t)
  : result t :=
  cf ← insert_all DEBUG_LEGION (map_to_list fields) (created_fields s);
  mret (set_created_fields cf s).

Definition register_field_deletions (fields : gset (FieldSpace * FieldID)) (s : t)
  : result t :=
  mret (set_deleted_fields (set_insert_all (elements fields) (deleted_fields s)) s).

Definition register_field_space_creations (spaces : gset FieldSpace) (s : t) : result t :=
  c ← set_insert_all_checked DEBUG_LEGION (elements spaces) (created_field_spaces s);
  mret (set_created_field_spaces c s).

Definition register_field_space_deletions (spaces : gset FieldSpace) (s : t) : result t :=
  mret (set_deleted_field_spaces
          (set_insert_all (elements spaces) (deleted_field_spaces s)) s).

Definition register_index_space_creations (spaces : gset IndexSpace) (s : t) : result t :=
  c ← set_insert_all_checked DEBUG_LEGION (elements spaces) (created_index_spaces s);
  mret (set_created_index_spaces c s).

Definition register_index_space_deletions (spaces : gset IndexSpace) (s : t) : result t :=
  mret (set_deleted_index_spaces
          (set_insert_all (elements spaces) (deleted_index_spaces s)) s).

Definition register_index_partition_creations (parts : gset IndexPartition) (s : t)
  : result t :=
  c ← set_insert_all_checked DEBUG_LEGION (elements parts) (created_index_partitions s);
  mret (set_created_index_partitions c s).

Definition register_index_partition_deletions (parts : gset IndexPartition) (s : t)
  : result t :=
  mret (set_deleted_index_partitions
          (set_insert_all (elements parts) (deleted_index_partitions s)) s).
End slice_task.

(** The virtual [register_*] interface of [class ResourceTracker]. *)
Record Ops (T : Type) := mkOps {
  op_region_creations : gmap LogicalRegion bool → T → result T;
  op_region_deletions : gset LogicalRegion → T → result T;
  op_field_creations : gmap (FieldSpace * FieldID) bool → T → result T;
  op_field_deletions : gset (FieldSpace * FieldID) → T → result T;
  op_field_space_creations : gset FieldSpace → T → result T;
  op_field_space_deletions : gset FieldSpace → T → result T;
  op_index_space_creations : gset IndexSpace → T → result T;
  op_index_space_deletions : gset IndexSpace → T → result T;
  op_index_partition_creations : gset IndexPartition → T → result T;
  op_index_partition_deletions : gset IndexPartition → T → result T;
}.
Arguments op_region_creations {T}.
Arguments op_region_deletions {T}.
Arguments op_field_creations {T}.
Arguments op_field_deletions {T}.
Arguments op_field_space_creations {T}.
Arguments op_field_space_deletions {T}.
Arguments op_index_space_creations {T}.
Arguments op_index_space_deletions {T}.
Arguments op_index_partition_creations {T}.
Arguments op_index_partition_deletions {T}.

Definition SliceTask_ops (DEBUG_LEGION : bool) : Ops t :=
  mkOps t
    (register_region_creations DEBUG_LEGION) register_region_deletions
    (register_field_creations DEBUG_LEGION) register_field_deletions
    (register_field_space_creations DEBUG_LEGION) register_field_space_deletions
    (register_index_space_creations DEBUG_LEGION) register_index_space_deletions
    (register_index_partition_creations DEBUG_LEGION) register_index_partition_deletions.

(** [if (!c.empty()) target->register(c);] *)
Definition unless_empty {C T} (is_empty : bool) (reg : C → T → result T) (c : C) (target : T)
  : result T :=
  if is_empty then Ok target else reg c target.

(** [ResourceTracker::return_privilege_state] (legion_tasks.cc, 70-93). *)
Definition return_privilege_state {T} (ops : Ops T) (src : t) (target : T) : result T :=
  t1 ← unless_empty (bool_decide (created_regions src = ∅))
         (op_region_creations ops) (created_regions src) target;
  t2 ← unless_empty (bool_decide (deleted_regions src = ∅))
         (op_region_deletions ops) (deleted_regions src) t1;
  t3 ← unless_empty (bool_decide (created_fields src = ∅))
         (op_field_creations ops) (created_fields src) t2;
  t4 ← unless_empty (bool_decide (deleted_fields src = ∅))
         (op_field_deletions ops) (deleted_fields src) t3;
  t5 ← unless_empty (bool_decide (created_field_spaces src = ∅))
         (op_field_space_creations ops) (created_field_spaces src) t4;
  t6 ← unless_empty (bool_decide (deleted_field_spaces src = ∅))
         (op_field_space_deletions ops) (deleted_field_spaces src) t5;
  t7 ← unless_empty (bool_decide (created_index_spaces src = ∅))
         (op_index_space_creations ops) (created_index_spaces src) t6;
  t8 ← unless_empty (bool_decide (deleted_index_spaces src = ∅))
         (op_index_space_deletions ops) (deleted_index_spaces src) t7;
  t9 ← unless_empty (bool_decide (created_index_partitions src = ∅))
         (op_index_partition_creations ops) (created_index_partitions src) t8;
  unless_empty (bool_decide (deleted_index_partitions src = ∅))
    (op_index_partition_deletions ops) (deleted_index_partitions src) t9.


(** *** The wire: [pack_privilege_state] / [unpack_privilege_state]

    A [Serializer] is the sequence of values written to it; the
    [RezCheck]/[DerezCheck] sentinels are left out. *)

Inductive Token :=
  | TSize (n : Z)
  | TBool (b : bool)
  | TRegion (r : LogicalRegion)
  | TFieldSpace (f : FieldSpace)
  | TFieldID (f : FieldID)
  | TIndexSpace (i : IndexSpace)
  | TIndexPartition (p : IndexPartition).

Definition pack_region_entry (it : LogicalRegion * bool) : list Token :=
  [TRegion it.1; TBool it.2].
Definition pack_field_entry (it : FieldSpace * FieldID * bool) : list Token :=
  [TFieldSpace it.1.1; TFieldID it.1.2; TBool it.2].
Definition pack_field_key (it : FieldSpace * FieldID) : list Token :=
  [TFieldSpace it.1; TFieldID it.2].

(** The created regions or fields of a ledger, [returning] or not:
    when returning, first the count of the entries whose flag is false,
    then (when the count is positive) those entries. *)
Definition pack_created {K} (enc : K * bool → list Token) (returning : bool)
    (entries : list (K * bool)) : list Token :=
  if returning then
    let non_local := length (filter (λ it : K * bool, it.2 = false) entries) in
    TSize (Z.of_nat non_local) ::
      (if bool_decide (0 < non_local)%nat
       then flat_map (λ it : K * bool, if it.2 then [] else enc it) entries
       else [])
  else
    TSize (Z.of_nat (length entries)) :: flat_map enc entries.

Definition pack_set {K} (enc : K → list Token) (xs : list K) : list Token :=
  TSize (Z.of_nat (length xs)) :: flat_map enc xs.

(** [ResourceTracker::pack_privilege_state] (legion_tasks.cc, 96-256). *)
Definition pack_privilege_state (returning : bool) (l : t) : list Token :=
  pack_created pack_region_entry returning (map_to_list (created_regions l))
  ++ pack_set (λ r, [TRegion r]) (elements (deleted_regions l))
  ++ pack_created pack_field_entry returning (map_to_list (created_fields l))
  ++ pack_set pack_field_key (elements (deleted_fields l))
  ++ pack_set (λ x, [TFieldSpace x]) (elements (created_field_spaces l))
  ++ pack_set (λ x, [TFieldSpace x]) (elements (deleted_field_spaces l))
  ++ pack_set (λ x, [TIndexSpace x]) (elements (created_index_spaces l))
  ++ pack_set (λ x, [TIndexSpace x]) (elements (deleted_index_spaces l))
  ++ pack_set (λ x, [TIndexPartition x]) (elements (created_index_partitions l))
  ++ pack_set (λ x, [TIndexPartition x]) (elements (deleted_index_partitions l)).

(** Reading: [None] when the stream does not hold the value asked for. *)
Definition Deserializer := list Token.
Definition reader (A : Type) := Deserializer → option (A * Deserializer).

Definition read_size : reader Z :=
  λ d, match d with TSize n :: d' => Some (n, d') | _ => None end.
Definition read_region_entry : reader (LogicalRegion * bool) :=
  λ d, match d with TRegion r :: TBool b :: d' => Some ((r, b), d') | _ => None end.
Definition read_region : reader LogicalRegion :=
  λ d, match d with TRegion r :: d' => Some (r, d') | _ => None end.
Definition read_field_entry : reader (FieldSpace * FieldID * bool) :=
  λ d, match d with
       | TFieldSpace sp :: TFieldID fid :: TBool b :: d' => Some ((sp, fid, b), d')
       | _ => None
       end.
Definition read_field_key : reader (FieldSpace * FieldID) :=
  λ d, match d with
       | TFieldSpace sp :: TFieldID fid :: d' => Some ((sp, fid), d')
       | _ => None
       end.
Definition read_field_space : reader FieldSpace :=
  λ d, match d with TFieldSpace sp :: d' => Some (sp, d') | _ => None end.
Definition read_index_space : reader IndexSpace :=
  λ d, match d with TIndexSpace sp :: d' => Some (sp, d') | _ => None end.
Definition read_index_partition : reader IndexPartition :=
  λ d, match d with TIndexPartition ip :: d' => Some (ip, d') | _ => None end.

(** [for (idx = 0; idx < num; idx++) { deserialize(x); acc = step x acc; }] *)
Fixpoint read_loop {A X} (num : nat) (item : reader X) (step : X → A → A) (acc : A)
    : reader A :=
  λ d, match num with
       | O => Some (acc, d)
       | S n => match item d with
                | Some (x, d') => read_loop n item step (step x acc) d'
                | None => None
                end
       end.

(** One group of [unpack_privilege_state]: the count, then, when it is
    positive, the entries gathered in a local container that is handed
    to the target's [register_*]. A failed assertion of the target ends
    the call. *)
Definition unpack_group {T C X} (item : reader X) (step : X → C → C) (init : C)
    (reg : C → T → result T) (target : result T) (d : Deserializer)
    : option (result T * Deserializer) :=
  match read_size d with
  | None => None
  | Some (num, d1) =>
      if bool_decide (0 < num) then
        match read_loop (Z.to_nat num) item step init d1 with
        | None => None
        | Some (c, d2) => Some (target ≫= reg c, d2)
        end
      else Some (target, d1)
  end.

(** [ResourceTracker::unpack_privilege_state] (legion_tasks.cc, 259-403). *)
Definition unpack_privilege_state {T} (ops : Ops T) (d : Deserializer) (target : T)
    : option (result T * Deserializer) :=
  '(t1, d1) ← unpack_group read_region_entry (λ it m, <[it.1 := it.2]> m) ∅
                (op_region_creations ops) (Ok target) d;
  '(t2, d2) ← unpack_group read_region (λ x s, {[x]} ∪ s) ∅
                (op_region_deletions ops) t1 d1;
  '(t3, d3) ← unpack_group read_field_entry (λ it m, <[it.1 := it.2]> m) ∅
                (op_field_creations ops) t2 d2;
  '(t4, d4) ← unpack_group read_field_key (λ x s, {[x]} ∪ s) ∅
                (op_field_deletions ops) t3 d3;
  '(t5, d5) ← unpack_group read_field_space (λ x s, {[x]} ∪ s) ∅
                (op_field_space_creations ops) t4 d4;
  '(t6, d6) ← unpack_group read_field_space (λ x s, {[x]} ∪ s) ∅
                (op_field_space_deletions ops) t5 d5;
  '(t7, d7) ← unpack_group read_index_space (λ x s, {[x]} ∪ s) ∅
                (op_index_space_creations ops) t6 d6;
  '(t8, d8) ← unpack_group read_index_space (λ x s, {[x]} ∪ s) ∅
                (op_index_space_deletions ops) t7 d7;
  '(t9, d9) ← unpack_group read_index_partition (λ x s, {[x]} ∪ s) ∅
                (op_index_partition_creations ops) t8 d8;
  unpack_group read_index_partition (λ x s, {[x]} ∪ s) ∅
    (op_index_partition_deletions ops) t9 d9.

(** *** A slice and its points

    [SliceTask::return_privileges] (9007-9016): a point that completes
    hands the ledger of its context to the slice when the slice
    [is_remote()], and to the parent context of the launch otherwise
    (whose [register_*] functions are [parent_ops]). Returns the slice
    and the parent context. *)
Definition return_privileges {T} (DEBUG_LEGION : bool) (parent_ops : Ops T)
    (is_remote : bool) (point_context : t) (slice : t) (parent_ctx : T)
    : result (t * T) :=
  if is_remote then
    slice' ← return_privilege_state (SliceTask_ops DEBUG_LEGION) point_context slice;
    mret (slice', parent_ctx)
  else
    parent_ctx' ← return_privilege_state parent_ops point_context parent_ctx;
    mret (slice, parent_ctx').

(** The points of a slice complete, in the order of [point_contexts]. *)
Fixpoint points_complete {T} (DEBUG_LEGION : bool) (parent_ops : Ops T)
    (is_remote : bool) (point_contexts : list t) (slice : t) (parent_ctx : T)
    : result (t * T) :=
  match point_contexts with
  | [] => Ok (slice, parent_ctx)
  | p :: ps =>
      '(slice', parent_ctx') ←
        return_privileges DEBUG_LEGION parent_ops is_remote p slice parent_ctx;
      points_complete DEBUG_LEGION parent_ops is_remote ps slice' parent_ctx'
  end.

(** [SliceTask::pack_remote_complete] sends the ledger of a remote slice
    with [returning = true]; [IndexTask::unpack_slice_complete] unpacks it
    into the tracker [target] of the launch's side. *)
Definition slice_returns_to_origin {T} (ops : Ops T) (slice : t) (target : T)
    : option (result T * Deserializer) :=
  unpack_privilege_state ops (pack_privilege_state true slice) target.

(** *** Vocabulary for the properties of the ledger *)

(** The union [return_privilege_state src target] leaves in [target]: a
    created region held by both takes the flag of [src] ([operator[]]), a
    created field held by both keeps the flag of [target] ([insert]). *)
Definition merge (src target : t) : t :=
  mk (created_regions src ∪ created_regions target)
     (created_fields target ∪ created_fields src)
     (created_field_spaces src ∪ created_field_spaces target)
     (created_index_spaces src ∪ created_index_spaces target)
     (created_index_partitions src ∪ created_index_partitions target)
     (deleted_regions src ∪ deleted_regions target)
     (deleted_fields src ∪ deleted_fields target)
     (deleted_field_spaces src ∪ deleted_field_spaces target)
     (deleted_index_spaces src ∪ deleted_index_spaces target)
     (deleted_index_partitions src ∪ deleted_index_partitions target).

(** No created key is held by both ledgers. *)
Definition created_disjoint (a b : t) : Prop :=
  dom (created_regions a) ## dom (created_regions b)
  ∧ dom (created_fields a) ## dom (created_fields b)
  ∧ created_field_spaces a ## created_field_spaces b
  ∧ created_index_spaces a ## created_index_spaces b
  ∧ created_index_partitions a ## created_index_partitions b.

Fixpoint pairwise_created_disjoint (ls : list t) : Prop :=
  match ls with
  | [] => True
  | l :: ls' => Forall (created_disjoint l) ls' ∧ pairwise_created_disjoint ls'
  end.

(** The part of a ledger that [pack_privilege_state] writes when
    [returning]: of the created regions and fields, those whose local
    flag is false. *)
Definition returned (l : t) : t :=
  mk (filter (λ it, it.2 = false) (created_regions l))
     (filter (λ it, it.2 = false) (created_fields l))
     (created_field_spaces l) (created_index_spaces l) (created_index_partitions l)
     (deleted_regions l) (deleted_fields l) (deleted_field_spaces l)
     (deleted_index_spaces l) (deleted_index_partitions l).

(** The created keys of a ledger, kind by kind. *)
Definition created_keys (l : t)
    : gset LogicalRegion * gset (FieldSpace * FieldID) * gset FieldSpace
      * gset IndexSpace * gset IndexPartition :=
  (dom (created_regions l), dom (created_fields l), created_field_spaces l,
   created_index_spaces l, created_index_partitions l).

Definition keys_union
    (a b : gset LogicalRegion * gset (FieldSpace * FieldID) * gset FieldSpace
           * gset IndexSpace * gset IndexPartition) :=
  (a.1.1.1.1 ∪ b.1.1.1.1, a.1.1.1.2 ∪ b.1.1.1.2, a.1.1.2 ∪ b.1.1.2,
   a.1.2 ∪ b.1.2, a.2 ∪ b.2).

(** The ledger of a slice once the ledgers [points] were merged into it,
    one after the other. *)
Definition merge_all (slice : t) (points : list t) : t :=
  foldl (λ acc p, merge p acc) slice points.

(** A ledger that only deletes: the deleted keys of [l], nothing created. *)
Definition deleted_only (l : t) : t :=
  mk ∅ ∅ ∅ ∅ ∅ (deleted_regions l) (deleted_fields l) (deleted_field_spaces l)
     (deleted_index_spaces l) (deleted_index_partitions l).

(** Two points of a slice, one creating a region local to it and a
    field, the other a region that is not local. *)
Definition region_a : LogicalRegion := mkLogicalRegion 1 (mkIndexSpace 1 1) 1.
Definition region_b : LogicalRegion := mkLogicalRegion 2 (mkIndexSpace 2 1) 1.
Definition point_a : t := mk {[region_a := true]} {[(1, 7) := false]} ∅ ∅ ∅ ∅ ∅ ∅ ∅ ∅.
Definition point_b : t := mk {[region_b := false]} ∅ ∅ ∅ ∅ {[region_a]} ∅ ∅ ∅ ∅.


End ResourceTracker.

(** ** [TaskOp]: the flags every task carries *)

Module TaskOp.

Definition Processor := Z.
Definition NO_PROC : Processor := 0.
(** [Processor::exists()] *)
Definition proc_exists (p : Processor) : bool := negb (p =? 0).

Inductive TaskKind :=
  | INDIVIDUAL_TASK_KIND
  | POINT_TASK_KIND
  | INDEX_TASK_KIND
  | SLICE_TASK_KIND
  | SHARD_TASK_KIND.

#[global] Instance TaskKind_eq_dec : EqDecision TaskKind.
Proof. solve_decision. Defined.

Record t := mk {
  complete_received : bool;
  commit_received : bool;
  children_complete : bool;
  children_commit : bool;
  stealable : bool;
  options_selected : bool;
  map_origin : bool;
  target_proc : Processor;
  current_proc : Processor;
  orig_proc : Processor;
}.

Definition set_complete_received v (s : t) : t :=
  mk v (commit_received s) (children_complete s) (children_commit s) (stealable s)
     (options_selected s) (map_origin s) (target_proc s) (current_proc s) (orig_proc s).
Definition set_commit_received v (s : t) : t :=
  mk (complete_received s) v (children_complete s) (children_commit s) (stealable s)
     (options_selected s) (map_origin s) (target_proc s) (current_proc s) (orig_proc s).
Definition set_children_complete v (s : t) : t :=
  mk (complete_received s) (commit_received s) v (children_commit s) (stealable s)
     (options_selected s) (map_origin s) (target_proc s) (current_proc s) (orig_proc s).
Definition set_children_commit v (s : t) : t :=
  mk (complete_received s) (commit_received s) (children_complete s) v (stealable s)
     (options_selected s) (map_origin s) (target_proc s) (current_proc s) (orig_proc s).
Definition set_stealable v (s : t) : t :=
  mk (complete_received s) (commit_received s) (children_complete s) (children_commit s) v
     (options_selected s) (map_origin s) (target_proc s) (current_proc s) (orig_proc s).

(** [TaskOp::activate_task] (645-668): the recycled object is reset;
    [current_proc] is only set later, by [initialize_base_task]. *)
Definition activate_task (recycled : t) : t :=
  mk false false false false false false false NO_PROC (current_proc recycled) NO_PROC.

(** [TaskOp::initialize_base_task] (876-889), the placement fields. *)
Definition initialize_base_task (executing_processor : Processor) (s : t) : t :=
  mk (complete_received s) (commit_received s) (children_complete s) (children_commit s)
     (stealable s) (options_selected s) (map_origin s) (target_proc s)
     executing_processor executing_processor.

(** [TaskOp::clone_task_op_from] (1569-1650), the fields kept here. *)
Definition clone_task_op_from (DEBUG_LEGION : bool) (this rhs : t) (p : Processor)
    (can_steal : bool) : result t :=
  _ ← debug_assert DEBUG_LEGION (proc_exists p);
  mret (mk (complete_received this) (commit_received this) (children_complete this)
           (children_commit this) can_steal (options_selected this) (map_origin rhs)
           p (current_proc rhs) (orig_proc rhs)).

(** *** Options ([TaskOp::select_task_options], 934-1009) *)

Record TaskOptions := mkOptions {
  initial_proc : Processor;
  inline_task : bool;
  opt_stealable : bool;
  map_locally : bool;
  opt_replicate : bool;
}.

(** The mapper answers by editing the defaults it is handed. The checks
    that follow in the source (replication against reduction privileges
    and coherence, remote mapping while a trace is recorded) only report
    errors; their outcome is [checks]. *)
Definition select_task_options (DEBUG_LEGION : bool)
    (mapper : TaskOptions → TaskOptions) (checks : result unit) (s : t)
    : result (t * bool) :=
  _ ← debug_assert DEBUG_LEGION (negb (options_selected s));
  let options := mapper (mkOptions (current_proc s) false false false false) in
  let s' := mk (complete_received s) (commit_received s) (children_complete s)
               (children_commit s) (opt_stealable options) true (map_locally options)
               (initial_proc options) (current_proc s) (orig_proc s) in
  _ ← checks;
  mret (s', inline_task options).

(** [if (!options_selected) select_task_options();] of
    [IndividualTask::trigger_prepipeline_stage] (5122-5134) and of
    [IndexTask::trigger_prepipeline_stage] (7392-7404). *)
Definition trigger_prepipeline_stage (DEBUG_LEGION : bool)
    (mapper : TaskOptions → TaskOptions) (checks : result unit) (s : t) : result t :=
  if options_selected s then Ok s
  else r ← select_task_options DEBUG_LEGION mapper checks s; mret (r.1).

(** [is_origin_mapped()] *)
Definition is_origin_mapped (s : t) : bool := map_origin s.

(** *** The two-flag protocol of completion and commit

    Each function returns the new flags and whether it goes on to call
    the virtual [trigger_task_complete] / [trigger_task_commit]. *)

(** [TaskOp::trigger_complete] (1040-1056) *)
Definition trigger_complete (DEBUG_LEGION : bool) (s : t) : result (t * bool) :=
  _ ← debug_assert DEBUG_LEGION (negb (complete_received s));
  _ ← debug_assert DEBUG_LEGION (negb (commit_received s));
  let s' := set_complete_received true s in
  mret (s', children_complete s').

(** [TaskOp::trigger_commit] (1059-1076) *)
Definition trigger_commit (DEBUG_LEGION : bool) (s : t) : result (t * bool) :=
  _ ← debug_assert DEBUG_LEGION (complete_received s);
  _ ← debug_assert DEBUG_LEGION (negb (commit_received s));
  let s' := set_commit_received true s in
  mret (s', children_commit s').

(** [TaskOp::trigger_children_complete] (2071-2088) *)
Definition trigger_children_complete (DEBUG_LEGION : bool) (s : t) : result (t * bool) :=
  _ ← debug_assert DEBUG_LEGION (negb (children_complete s));
  _ ← debug_assert DEBUG_LEGION (negb (children_commit s) || negb (commit_received s));
  let s' := set_children_complete true s in
  mret (s', complete_received s').

(** [TaskOp::trigger_children_committed] (2091-2108) *)
Definition trigger_children_committed (DEBUG_LEGION : bool) (s : t) : result (t * bool) :=
  _ ← debug_assert DEBUG_LEGION (children_complete s || negb (commit_received s));
  _ ← debug_assert DEBUG_LEGION (negb (children_commit s));
  let s' := set_children_commit true s in
  mret (s', commit_received s').

(** The four notifications a task operation receives, and the
    transitions they can fire. *)
Inductive Notification :=
  | OwnComplete        (* trigger_complete *)
  | ChildrenComplete   (* trigger_children_complete *)
  | OwnCommit          (* trigger_commit *)
  | ChildrenCommitted. (* trigger_children_committed *)

Inductive Transition :=
  | TaskComplete   (* the call of trigger_task_complete *)
  | TaskCommit.    (* the call of trigger_task_commit *)

#[global] Instance Notification_eq_dec : EqDecision Notification.
Proof. solve_decision. Defined.
#[global] Instance Transition_eq_dec : EqDecision Transition.
Proof. solve_decision. Defined.

Definition notify (DEBUG_LEGION : bool) (n : Notification) (s : t)
    : result (t * list Transition) :=
  match n with
  | OwnComplete =>
      '(s', fire) ← trigger_complete DEBUG_LEGION s;
      mret (s', if fire : bool then [TaskComplete] else [])
  | ChildrenComplete =>
      '(s', fire) ← trigger_children_complete DEBUG_LEGION s;
      mret (s', if fire : bool then [TaskComplete] else [])
  | OwnCommit =>
      '(s', fire) ← trigger_commit DEBUG_LEGION s;
      mret (s', if fire : bool then [TaskCommit] else [])
  | ChildrenCommitted =>
      '(s', fire) ← trigger_children_committed DEBUG_LEGION s;
      mret (s', if fire : bool then [TaskCommit] else [])
  end.

(** A sequence of notifications, with the transitions fired so far. *)
Fixpoint notify_all (DEBUG_LEGION : bool) (ns : list Notification)
    (s : t) (fired : list Transition) : result (t * list Transition) :=
  match ns with
  | [] => Ok (s, fired)
  | n :: ns' =>
      '(s', f) ← notify DEBUG_LEGION n s;
      notify_all DEBUG_LEGION ns' s' (fired ++ f)
  end.

(** *** The operation pipeline around the task *)

(** Modelled from the spec: [Operation::complete_operation] and the stage
    driver of class [Operation] (legion_ops.cc) are not among the sources.
    Section 4.1 orders the stages "Launched, Complete, Committed" and
    section 5 says that within one task operation the stage transitions
    are strictly ordered. Every [trigger_task_complete] of the source ends
    in [complete_operation()], which puts the operation in its Complete
    stage; the driver hands an operation its own commit notification
    ([trigger_commit]) only from that stage. *)
Record Operation := mkOperation {
  op_task : t;
  op_completed : bool;   (* complete_operation() has run *)
  op_fired : list Transition;
}.

Definition complete_operation (o : Operation) : Operation :=
  mkOperation (op_task o) true (op_fired o).

Definition driver_issues (o : Operation) (n : Notification) : bool :=
  match n with
  | OwnCommit => op_completed o
  | _ => true
  end.

(** The reaction of the task to a notification, with the call of
    [complete_operation()] that ends [trigger_task_complete]. *)
Definition deliver (DEBUG_LEGION : bool) (n : Notification) (o : Operation)
    : result Operation :=
  '(s', f) ← notify DEBUG_LEGION n (op_task o);
  let o' := mkOperation s' (op_completed o) (op_fired o ++ f) in
  mret (if bool_decide (TaskComplete ∈ f) then complete_operation o' else o').

Inductive reachable (DEBUG_LEGION : bool) (recycled : t) : Operation → Prop :=
  | reachable_activate :
      reachable DEBUG_LEGION recycled (mkOperation (activate_task recycled) false [])
  | reachable_deliver o n o' :
      reachable DEBUG_LEGION recycled o →
      driver_issues o n = true →
      deliver DEBUG_LEGION n o = Ok o' →
      reachable DEBUG_LEGION recycled o'.

(** A run of the driver: the notifications it issues one after the
    other, each one only when [driver_issues] allows it. *)
Fixpoint deliver_all (DEBUG_LEGION : bool) (ns : list Notification) (o : Operation)
    : option Operation :=
  match ns with
  | [] => Some o
  | n :: ns' =>
      if driver_issues o n then
        match deliver DEBUG_LEGION n o with
        | Ok o' => deliver_all DEBUG_LEGION ns' o'
        | _ => None
        end
      else None
  end.

(** *** Vocabulary for the properties of the protocol *)


Definition transition_of (n : Notification) : Transition :=
  match n with
  | OwnComplete | ChildrenComplete => TaskComplete
  | OwnCommit | ChildrenCommitted => TaskCommit
  end.





(** In a list of fired transitions, every commit comes after a complete. *)
Definition complete_precedes_commit (fired : list Transition) : Prop :=
  ∀ before after, fired = before ++ TaskCommit :: after → TaskComplete ∈ before.

(** A blank task object, as the free list may hold it. *)
Definition blank : t := mk false false false false false false false 0 0 0.

End TaskOp.

(** ** [IndividualTask] *)

Module IndividualTask.

(** [IndividualTask::perform_mapping] (5325-5411): [deferred] tells
    whether [map_all_regions] returned an event to wait for, in which
    case the call returns at once and is made again later. *)
Definition perform_mapping (deferred : bool) (s : TaskOp.t) : TaskOp.t :=
  if deferred then s else TaskOp.set_stealable false s.

(** [IndividualTask::is_stealable] (5414-5418) *)
Definition is_stealable (s : TaskOp.t) : bool :=
  negb (TaskOp.map_origin s) && TaskOp.stealable s.

End IndividualTask.

(** ** [ShardTask] *)

Module ShardTask.

(** [ShardTask::is_stealable] (6716-6720) *)
Definition is_stealable (s : TaskOp.t) : bool := false.

End ShardTask.

(** ** Domains and the mapper's slices *)

(** A launch domain is the sequence of points its [DomainPointIterator]
    yields; [None] is [Domain::NO_DOMAIN]. The type of a point is left
    open. *)
Definition Domain (DomainPoint : Type) : Type := option (list DomainPoint).
Definition NO_DOMAIN {DomainPoint : Type} : Domain DomainPoint := None.
Definition domain_points {DomainPoint : Type} (d : Domain DomainPoint) : list DomainPoint :=
  default [] d.
(** [Domain::get_volume()] *)
Definition get_volume {DomainPoint : Type} (d : Domain DomainPoint) : Z :=
  Z.of_nat (length (domain_points d)).
(** [d == Domain::NO_DOMAIN] *)
Definition is_no_domain {DomainPoint : Type} (d : Domain DomainPoint) : bool :=
  match d with None => true | Some _ => false end.

(** [Mapper::TaskSlice] and [Mapper::SliceTaskOutput] *)
Record TaskSlice (DomainPoint : Type) := mkTaskSlice {
  ts_domain : Domain DomainPoint;
  ts_domain_is : IndexSpace;
  ts_proc : TaskOp.Processor;
  ts_recurse : bool;
  ts_stealable : bool;
}.
Arguments mkTaskSlice {DomainPoint}.
Arguments ts_domain {DomainPoint}.
Arguments ts_domain_is {DomainPoint}.
Arguments ts_proc {DomainPoint}.
Arguments ts_recurse {DomainPoint}.
Arguments ts_stealable {DomainPoint}.

Record SliceTaskOutput (DomainPoint : Type) := mkSliceTaskOutput {
  out_slices : list (TaskSlice DomainPoint);
  out_verify_correctness : bool;
}.
Arguments mkSliceTaskOutput {DomainPoint}.
Arguments out_slices {DomainPoint}.
Arguments out_verify_correctness {DomainPoint}.

(** What the runtime answers to the slicing code: the region tree
    forest's table of launch spaces and its check of a slicing, and which
    processors are local (runtime.cc and region_tree.cc are external
    collaborators). *)
Record Runtime (DomainPoint : Type) := mkRuntime {
  find_launch_space_domain : IndexSpace → Domain DomainPoint;
  find_or_create_index_launch_space : Domain DomainPoint → IndexSpace;
  validate_slicing : IndexSpace → list IndexSpace → result unit;
  is_local : TaskOp.Processor → bool;
}.
Arguments mkRuntime {DomainPoint}.
Arguments find_launch_space_domain {DomainPoint}.
Arguments find_or_create_index_launch_space {DomainPoint}.
Arguments validate_slicing {DomainPoint}.
Arguments is_local {DomainPoint}.

(** ** [MultiTask] *)

Module MultiTask.

Record t := mk {
  base : TaskOp.t;
  launch_space : IndexSpace;
  internal_space : IndexSpace;
  sliced : bool;
  redop : Z;
  deterministic_redop : bool;
  children_complete_invoked : bool;
  children_commit_invoked : bool;
}.

Definition set_base v (m : t) : t :=
  mk v (launch_space m) (internal_space m) (sliced m) (redop m) (deterministic_redop m)
     (children_complete_invoked m) (children_commit_invoked m).
Definition set_sliced v (m : t) : t :=
  mk (base m) (launch_space m) (internal_space m) v (redop m) (deterministic_redop m)
     (children_complete_invoked m) (children_commit_invoked m).
Definition set_children_complete_invoked v (m : t) : t :=
  mk (base m) (launch_space m) (internal_space m) (sliced m) (redop m)
     (deterministic_redop m) v (children_commit_invoked m).
Definition set_children_commit_invoked v (m : t) : t :=
  mk (base m) (launch_space m) (internal_space m) (sliced m) (redop m)
     (deterministic_redop m) (children_complete_invoked m) v.

(** [MultiTask::activate_multi] (4454-4472) *)
Definition activate_multi (recycled : t) : t :=
  mk (TaskOp.activate_task (base recycled)) NO_SPACE NO_SPACE false 0 false false false.

(** A blank object, as the free list may hold it. *)
Definition blank : t := mk TaskOp.blank NO_SPACE NO_SPACE false 0 false false false.

(** [MultiTask::is_sliced] *)
Definition is_sliced (m : t) : bool := sliced m.

(** [MultiTask::clone_multi_from] (4682-4718) *)
Definition clone_multi_from (DEBUG_LEGION : bool) (this rhs : t) (space : IndexSpace)
    (p : TaskOp.Processor) (recurse stealable : bool) : result t :=
  b ← TaskOp.clone_task_op_from DEBUG_LEGION (base this) (base rhs) p stealable;
  mret (mk b (launch_space rhs) space (negb recurse) (redop rhs)
           (if redop rhs =? 0 then deterministic_redop this else deterministic_redop rhs)
           (children_complete_invoked this) (children_commit_invoked this)).

Section slicing.
Context {DomainPoint : Type}.
Variable DEBUG_LEGION : bool.
Variable runtime : Runtime DomainPoint.
(** [is_recording()] of the task's memoization state. *)
Variable is_recording : bool.
(** The type of the slice tasks and the virtual [clone_as_slice_task] of
    the task being sliced, which reads the task's [MultiTask] part. *)
Context {SliceTask : Type}.
Variable clone_as_slice_task :
  t → IndexSpace → TaskOp.Processor → bool → bool → Z → result SliceTask.

(** [if (!slice.domain_is.exists() && (slice.domain.get_volume() > 0))
    slice.domain_is = runtime->find_or_create_index_launch_space(slice.domain);]
    (4556-4558) *)
Definition complete_slice (slice : TaskSlice DomainPoint) : TaskSlice DomainPoint :=
  if negb (is_exists (ts_domain_is slice)) && (0 <? get_volume (ts_domain slice))
  then mkTaskSlice (ts_domain slice)
         (find_or_create_index_launch_space runtime (ts_domain slice))
         (ts_proc slice) (ts_recurse slice) (ts_stealable slice)
  else slice.

(** The body of the loop over [output.slices] up to the cloning
    (4547-4593): the slice as the runtime completed it and the running
    [total_points] of the debug build. *)
Definition check_slice (internal : IndexSpace) (slice : TaskSlice DomainPoint)
    (total_points : Z) : result (TaskSlice DomainPoint * Z) :=
  if negb (TaskOp.proc_exists (ts_proc slice)) then Fatal ERROR_INVALID_MAPPER_OUTPUT
  else
    let slice := complete_slice slice in
    if negb (is_type_tag (ts_domain_is slice) =? is_type_tag internal)
    then Fatal ERROR_INVALID_MAPPER_OUTPUT
    else if is_recording && negb (is_local runtime (ts_proc slice))
    then Fatal ERROR_PHYSICAL_TRACING_REMOTE_MAPPING
    else if DEBUG_LEGION then
      let d :=
        if is_no_domain (ts_domain slice) && is_exists (ts_domain_is slice)
        then find_launch_space_domain runtime (ts_domain_is slice)
        else ts_domain slice in
      let volume := get_volume d in
      if volume =? 0 then Fatal ERROR_INVALID_MAPPER_OUTPUT
      else Ok (slice, wrap_size_t (total_points + volume))
    else Ok (slice, total_points).

(** The loop (4545-4600); [num_slices] is [output.slices.size()]. *)
Fixpoint slice_loop (this : t) (internal : IndexSpace) (num_slices : Z)
    (todo : list (TaskSlice DomainPoint)) (total_points : Z)
    : result (list (TaskSlice DomainPoint) * list SliceTask * Z) :=
  match todo with
  | [] => Ok ([], [], total_points)
  | slice :: todo' =>
      '(slice', total') ← check_slice internal slice total_points;
      new_slice ← clone_as_slice_task this (ts_domain_is slice') (ts_proc slice')
                    (ts_recurse slice') (ts_stealable slice') num_slices;
      '(done, slices, total'') ← slice_loop this internal num_slices todo' total';
      mret (slice' :: done, new_slice :: slices, total'')
  end.

(** [MultiTask::slice_index_space] (4518-4629). The mapper's answer to
    [invoke_slice_task] is [output]. Returns the task, now sliced, and the
    slices handed to [trigger_slices]. *)
Definition slice_index_space (this : t) (output : SliceTaskOutput DomainPoint)
    : result (t * list SliceTask) :=
  _ ← debug_assert DEBUG_LEGION (negb (sliced this));
  let this := set_base (TaskOp.set_stealable false (base this)) (set_sliced true this) in
  let input_domain := find_launch_space_domain runtime (internal_space this) in
  if bool_decide (out_slices output = []) then Fatal ERROR_INVALID_MAPPER_OUTPUT
  else
    '(done, slices, total_points) ←
      slice_loop this (internal_space this)
        (wrap_ll (Z.of_nat (length (out_slices output)))) (out_slices output) 0;
    if DEBUG_LEGION && negb (total_points =? get_volume input_domain)
    then Fatal ERROR_INVALID_MAPPER_OUTPUT
    else
      _ ← (if out_verify_correctness output
           then validate_slicing runtime (internal_space this) (ts_domain_is <$> done)
           else Ok ());
      mret (this, slices).

(** *** What the debug build checks of the mapper's slices *)

(** The domain whose volume the loop looks at: the slice's own, or the
    one of its index space when the mapper gave only that. *)
Definition slice_domain (slice : TaskSlice DomainPoint) : Domain DomainPoint :=
  if is_no_domain (ts_domain slice) && is_exists (ts_domain_is slice)
  then find_launch_space_domain runtime (ts_domain_is slice)
  else ts_domain slice.

Definition slices_volume (slices : list (TaskSlice DomainPoint)) : Z :=
  foldr (λ slice total, get_volume (slice_domain slice) + total) 0 slices.

(** The volumes of the slices do not add up to the volume of the domain
    that was sliced, or one of the slices is empty. *)
Definition partition_violated (this : t) (output : SliceTaskOutput DomainPoint) : Prop :=
  slices_volume (out_slices output)
    ≠ get_volume (find_launch_space_domain runtime (internal_space this))
  ∨ ∃ slice, slice ∈ out_slices output ∧ get_volume (slice_domain slice) = 0.

(** A slice the mapper may return for the space [internal]: its
    processor exists and, while a trace is recorded, is local; its index
    space, once the runtime has completed it, has the type of the
    space. *)
Definition acceptable (internal : IndexSpace) (slice : TaskSlice DomainPoint) : Prop :=
  TaskOp.proc_exists (ts_proc slice) = true
  ∧ is_type_tag (ts_domain_is (complete_slice slice)) = is_type_tag internal
  ∧ (is_recording = true → is_local runtime (ts_proc slice) = true).
End slicing.

End MultiTask.

(** ** [PointTask] *)

Module PointTask.

Record t (DomainPoint : Type) := mk {
  base : TaskOp.t;
  index_point : DomainPoint;
}.
Arguments mk {DomainPoint}.
Arguments base {DomainPoint}.
Arguments index_point {DomainPoint}.

(** [PointTask::is_stealable] (6250-6256): [assert(false); return false;]
    (a plain [assert], compiled out under [NDEBUG]). *)
Definition is_stealable {DomainPoint : Type} (NDEBUG : bool) (p : t DomainPoint)
    : result bool :=
  if NDEBUG then Ok false else AssertFailed.

End PointTask.

(** ** [SliceTask] *)

Module SliceTask.

Record t (DomainPoint : Type) := mk {
  multi : MultiTask.t;
  denominator : Z;                       (* long long *)
  index_owner : Z;                       (* the owning index launch *)
  points : list (PointTask.t DomainPoint);
  num_unmapped_points : Z;
  num_uncomplete_points : Z;
  num_uncommitted_points : Z;
}.
Arguments mk {DomainPoint}.
Arguments multi {DomainPoint}.
Arguments denominator {DomainPoint}.
Arguments index_owner {DomainPoint}.
Arguments points {DomainPoint}.
Arguments num_unmapped_points {DomainPoint}.
Arguments num_uncomplete_points {DomainPoint}.
Arguments num_uncommitted_points {DomainPoint}.

Section slice.
Context {DomainPoint : Type}.
Variable DEBUG_LEGION : bool.
Variable runtime : Runtime DomainPoint.

Definition set_multi v (s : t DomainPoint) : t DomainPoint :=
  mk v (denominator s) (index_owner s) (points s) (num_unmapped_points s)
     (num_uncomplete_points s) (num_uncommitted_points s).

(** [SliceTask::activate] (8438-8454) on the object handed out by
    [get_available_slice_task]. *)
Definition activate (recycled : MultiTask.t) : t DomainPoint :=
  mk (MultiTask.activate_multi recycled) 0 0 [] 0 0 0.

(** [SliceTask::clone_as_slice_task] (8813-8837).
    [initialize_base_task] sets [orig_proc] and [current_proc], which
    [clone_task_op_from] overwrites. *)
Definition clone_as_slice_task (recycled : MultiTask.t) (this : t DomainPoint)
    (space : IndexSpace) (p : TaskOp.Processor) (recurse stealable : bool)
    (scale_denominator : Z) : result (t DomainPoint) :=
  let fresh_slice := activate recycled in
  m ← MultiTask.clone_multi_from DEBUG_LEGION (multi fresh_slice) (multi this) space p
        recurse stealable;
  mret (mk m (wrap_ll (denominator this * scale_denominator)) (index_owner this)
           [] 0 0 0).

(** [SliceTask::is_stealable] (8619-8623) *)
Definition is_stealable (s : t DomainPoint) : bool :=
  negb (TaskOp.map_origin (MultiTask.base (multi s)))
  && TaskOp.stealable (MultiTask.base (multi s)).

(** [SliceTask::clone_as_point_task] (8903-8925): the point task gets the
    slice's target processor and is never stealable. *)
Definition clone_as_point_task (recycled : TaskOp.t) (this : t DomainPoint)
    (point : DomainPoint) : result (PointTask.t DomainPoint) :=
  let fresh_point := TaskOp.activate_task recycled in
  b ← TaskOp.clone_task_op_from DEBUG_LEGION fresh_point (MultiTask.base (multi this))
        (TaskOp.target_proc (MultiTask.base (multi this))) false;
  mret (PointTask.mk b point).

(** [points[point_idx] = clone_as_point_task(itr.p)] for every point the
    iterator yields. *)
Fixpoint clone_points (recycled : TaskOp.t) (this : t DomainPoint)
    (itr : list DomainPoint) : result (list (PointTask.t DomainPoint)) :=
  match itr with
  | [] => Ok []
  | p :: itr' =>
      pt ← clone_as_point_task recycled this p;
      pts ← clone_points recycled this itr';
      mret (pt :: pts)
  end.

(** [SliceTask::enumerate_points] (8928-8964). The projection of the
    region requirements onto the points edits the requirements only. *)
Definition enumerate_points (recycled : TaskOp.t) (s : t DomainPoint)
    : result (t DomainPoint) :=
  let internal_domain :=
    find_launch_space_domain runtime (MultiTask.internal_space (multi s)) in
  let num_points := get_volume internal_domain in
  _ ← debug_assert DEBUG_LEGION (0 <? num_points);
  pts ← clone_points recycled s (domain_points internal_domain);
  let n := Z.of_nat (length pts) in
  mret (mk (multi s) (denominator s) (index_owner s) pts
           (wrap_u32 n) (wrap_u32 n) (wrap_u32 n)).

Definition clear_stealable (s : t DomainPoint) : t DomainPoint :=
  set_multi (MultiTask.set_base
               (TaskOp.set_stealable false (MultiTask.base (multi s))) (multi s)) s.

(** [SliceTask::perform_mapping] (8577-8603): the points are enumerated
    if they were not, the slice stops being stealable, and every point is
    mapped. *)
Definition perform_mapping (recycled : TaskOp.t) (s : t DomainPoint)
    : result (t DomainPoint) :=
  s1 ← (if bool_decide (points s = []) then enumerate_points recycled s else Ok s);
  mret (clear_stealable s1).

(** [SliceTask::map_and_launch] (8626-8649): returns the slice and the
    point tasks it launched, each of [points] once ([launch_task], at
    once or through [defer_launch_task]). *)
Definition map_and_launch (recycled : TaskOp.t) (s : t DomainPoint)
    : result (t DomainPoint * list (PointTask.t DomainPoint)) :=
  s1 ← (if bool_decide (points s = []) then enumerate_points recycled s else Ok s);
  let s2 := clear_stealable s1 in
  _ ← debug_assert DEBUG_LEGION (negb (bool_decide (points s2 = [])));
  mret (s2, points s2).
End slice.

End SliceTask.

(** ** Fractions *)

(** Modelled from the spec: [Fraction<long long>] (legion_utilities.h is
    not among the sources). Section 3 calls the progress record a
    "rational number accumulated at the owning index launch" as the sum
    of 1/denominator over the slices that have reported, "fully accounted
    exactly when this sum is the rational value 1". *)
Module Fraction.

Definition t := Qc.
(** [Fraction<long long>(num, denom)] *)
Definition make (num denom : Z) : t := (Qc_of_Z num / Qc_of_Z denom)%Qc.
(** [Fraction::add] *)
Definition add (f g : t) : t := (f + g)%Qc.
(** [Fraction::is_whole] *)
Definition is_whole (f : t) : bool := bool_decide (f = 1%Qc).

End Fraction.

(** ** Reductions and the memory that holds future results *)

Module Reduction.

Definition byte := Byte.byte.
(** Allocated blocks by address. *)
Definition Memory := gmap N (list byte).

(** [legion_malloc]: a block at an address not in use. *)
Definition malloc (mem : Memory) (size : Z) : N * Memory :=
  let p := fresh (dom mem) in
  (p, <[p := replicate (Z.to_nat size) Byte.x00]> mem).

(** [memcpy(dst, src, size)] *)
Definition memcpy (mem : Memory) (dst src : N) (size : Z) : Memory :=
  <[dst := take (Z.to_nat size) (default [] (mem !! src))]> mem.

(** [free(ptr)] *)
Definition free (mem : Memory) (ptr : N) : Memory := delete ptr mem.

(** What the code uses of a [ReductionOp]: [sizeof_rhs], [is_foldable],
    the initial value written by [init], and [fold(lhs, rhs, 1, exclusive)].
    A serdez operator brings its own [init_fn] and [fold_fn]. *)
Record ReductionOp := mkReductionOp {
  sizeof_rhs : Z;
  is_foldable : bool;
  init : list byte;
  fold : list byte → list byte → bool → list byte;
}.
Record SerdezRedopFns := mkSerdezRedopFns {
  init_fn : ReductionOp → Z → list byte;
  fold_fn : ReductionOp → list byte → Z → list byte → list byte;
}.

Section ordered_map.
Context {K V : Type}.
(** [operator<] of the key (for [DomainPoint], declared in
    legion_domain.h). *)
Variable key_lt : K → K → bool.

(** [m[k] = v] on a [std::map]: the entries are kept in key order, an
    equivalent key has its value replaced. *)
Fixpoint map_assign (k : K) (v : V) (m : list (K * V)) : list (K * V) :=
  match m with
  | [] => [(k, v)]
  | (k', v') :: m' =>
      if key_lt k k' then (k, v) :: m
      else if key_lt k' k then (k', v') :: map_assign k v m'
      else (k', v) :: m'
  end.

(** [m.find(k) == m.end()] *)
Fixpoint map_absent (k : K) (m : list (K * V)) : bool :=
  match m with
  | [] => true
  | (k', _) :: m' =>
      if key_lt k k' then true
      else if key_lt k' k then map_absent k m'
      else false
  end.
End ordered_map.

End Reduction.

(** ** [IndexTask] *)

Module IndexTask.
Import Reduction.

(** The fractional progress record and the point counters. *)
Record Progress := mkProgress {
  slice_fraction : Fraction.t;
  total_points : Z;       (* unsigned *)
  mapped_points : Z;
  complete_points : Z;
  committed_points : Z;
}.

(** The reduction fields ([MultiTask] declares them; the index launch and
    its remote slices use them). A future result is kept as its address
    and size. *)
Record ReductionFields (DomainPoint : Type) := mkReductionFields {
  reduction_op : option ReductionOp;            (* NULL or the operator *)
  serdez_redop_fns : option SerdezRedopFns;
  reduction_state : option (list byte);         (* NULL or the buffer *)
  reduction_state_size : Z;
  temporary_futures : list (DomainPoint * (N * Z));
  reduction_future : option (list byte);        (* the value set, if any *)
  future_map : list (DomainPoint * list byte);
}.
Arguments mkReductionFields {DomainPoint}.
Arguments reduction_op {DomainPoint}.
Arguments serdez_redop_fns {DomainPoint}.
Arguments reduction_state {DomainPoint}.
Arguments reduction_state_size {DomainPoint}.
Arguments temporary_futures {DomainPoint}.
Arguments reduction_future {DomainPoint}.
Arguments future_map {DomainPoint}.

Record t (DomainPoint : Type) := mk {
  unique_id : Z;
  multi : MultiTask.t;
  progress : Progress;
  red : ReductionFields DomainPoint;
}.
Arguments mk {DomainPoint}.
Arguments unique_id {DomainPoint}.
Arguments multi {DomainPoint}.
Arguments progress {DomainPoint}.
Arguments red {DomainPoint}.

(** What a function goes on to call once it has released the lock. *)
Inductive Call :=
  | CompleteMapping             (* complete_mapping(...) *)
  | CompleteExecution           (* complete_execution(...) *)
  | ResolveSpeculation          (* resolve_speculation() *)
  | TriggerChildrenComplete     (* trigger_children_complete() *)
  | TriggerChildrenCommitted.   (* trigger_children_committed() *)

#[global] Instance Call_eq_dec : EqDecision Call.
Proof. solve_decision. Defined.

Section index.
Context {DomainPoint : Type}.
Variable point_lt : DomainPoint → DomainPoint → bool.
Variable DEBUG_LEGION : bool.

Definition set_multi v (s : t DomainPoint) : t DomainPoint :=
  mk (unique_id s) v (progress s) (red s).
Definition set_progress v (s : t DomainPoint) : t DomainPoint :=
  mk (unique_id s) (multi s) v (red s).
Definition set_red v (s : t DomainPoint) : t DomainPoint :=
  mk (unique_id s) (multi s) (progress s) v.

(** [IndexTask::activate_index_task] (7112-7123) after [activate_multi]. *)
Definition activate_index_task (uid : Z) (recycled : MultiTask.t) : t DomainPoint :=
  mk uid (MultiTask.activate_multi recycled)
     (mkProgress (Fraction.make 0 1) 0 0 0 0)
     (mkReductionFields None None None 0 [] None []).

(** [IndexTask::is_stealable] (7695-7702) *)
Definition is_stealable (s : t DomainPoint) : bool := false.

(** [IndexTask::clone_as_slice_task] (7922-7946) *)
Definition clone_as_slice_task (recycled : MultiTask.t) (this : t DomainPoint)
    (space : IndexSpace) (p : TaskOp.Processor) (recurse stealable : bool)
    (scale_denominator : Z) : result (SliceTask.t DomainPoint) :=
  let fresh_slice := SliceTask.activate (DomainPoint := DomainPoint) recycled in
  m ← MultiTask.clone_multi_from DEBUG_LEGION (SliceTask.multi fresh_slice) (multi this)
        space p recurse stealable;
  mret (SliceTask.mk m scale_denominator (unique_id this) [] 0 0 0).

(** [IndexTask::distribute_task] (7634-7663): whether the launch is still
    local, and the slice copy sent away if there is one. *)
Definition distribute_task (recycled : MultiTask.t) (slices_empty : bool)
    (this : t DomainPoint) : result (bool * option (SliceTask.t DomainPoint)) :=
  let b := MultiTask.base (multi this) in
  if TaskOp.is_origin_mapped b then
    _ ← debug_assert DEBUG_LEGION slices_empty;
    mret (false, None)
  else if negb (MultiTask.is_sliced (multi this))
          && TaskOp.proc_exists (TaskOp.target_proc b)
          && negb (TaskOp.target_proc b =? TaskOp.current_proc b)
  then
    clone ← clone_as_slice_task recycled this (MultiTask.internal_space (multi this))
              (TaskOp.target_proc b) true (TaskOp.stealable b) 1;
    mret (false, Some clone)
  else mret (true, None).

(** [IndexTask::return_slice_mapped] (8035-8087) *)
Definition return_slice_mapped (points denom : Z) (s : t DomainPoint)
    : t DomainPoint * list Call :=
  let pr := progress s in
  let total := wrap_u32 (total_points pr + points) in
  let mapped := wrap_u32 (mapped_points pr + points) in
  let fraction := Fraction.add (slice_fraction pr) (Fraction.make 1 denom) in
  let pr' := mkProgress fraction total mapped (complete_points pr) (committed_points pr) in
  let need_trigger := Fraction.is_whole fraction in
  let trigger_children_completed :=
    need_trigger && (complete_points pr =? total)
    && negb (MultiTask.children_complete_invoked (multi s)) in
  let trigger_children_commit :=
    need_trigger && (committed_points pr =? total)
    && negb (MultiTask.children_commit_invoked (multi s)) in
  let m1 := if trigger_children_completed
            then MultiTask.set_children_complete_invoked true (multi s) else multi s in
  let m2 := if trigger_children_commit
            then MultiTask.set_children_commit_invoked true m1 else m1 in
  (set_multi m2 (set_progress pr' s),
   (if need_trigger then [CompleteMapping] else [])
   ++ (if trigger_children_completed then [TriggerChildrenComplete] else [])
   ++ (if trigger_children_commit then [TriggerChildrenCommitted] else [])).

(** [IndexTask::return_slice_complete] (8090-8124) *)
Definition return_slice_complete (points : Z) (s : t DomainPoint)
    : result (t DomainPoint * list Call) :=
  let pr := progress s in
  let complete := wrap_u32 (complete_points pr + points) in
  let pr' := mkProgress (slice_fraction pr) (total_points pr) (mapped_points pr)
                        complete (committed_points pr) in
  _ ← debug_assert DEBUG_LEGION
        (negb (TaskOp.complete_received (MultiTask.base (multi s))));
  _ ← debug_assert DEBUG_LEGION (complete <=? total_points pr);
  let trigger_execution :=
    Fraction.is_whole (slice_fraction pr) && (complete =? total_points pr) in
  let need_trigger :=
    trigger_execution && negb (MultiTask.children_complete_invoked (multi s)) in
  let m := if need_trigger
           then MultiTask.set_children_complete_invoked true (multi s) else multi s in
  mret (set_multi m (set_progress pr' s),
        (if trigger_execution then [CompleteExecution] else [])
        ++ (if need_trigger then [TriggerChildrenComplete] else [])).

(** [IndexTask::return_slice_commit] (8127-8148) *)
Definition return_slice_commit (points : Z) (s : t DomainPoint)
    : result (t DomainPoint * list Call) :=
  let pr := progress s in
  let committed := wrap_u32 (committed_points pr + points) in
  let pr' := mkProgress (slice_fraction pr) (total_points pr) (mapped_points pr)
                        (complete_points pr) committed in
  _ ← debug_assert DEBUG_LEGION (committed <=? total_points pr);
  let need_trigger :=
    Fraction.is_whole (slice_fraction pr) && (committed =? total_points pr)
    && negb (MultiTask.children_commit_invoked (multi s)) in
  let m := if need_trigger
           then MultiTask.set_children_commit_invoked true (multi s) else multi s in
  mret (set_multi m (set_progress pr' s),
        if need_trigger then [TriggerChildrenCommitted] else []).

(** [IndexTask::resolve_false] (7509-7611): a launch whose predicate
    resolved false before it launched. The futures first receive the
    default value (no counter is touched); then the launch is cleaned
    up. *)
Definition resolve_false (speculated launched : bool) (s : t DomainPoint)
    : t DomainPoint * list Call :=
  if launched then (s, [])
  else (s, [CompleteMapping; CompleteExecution; ResolveSpeculation;
            TriggerChildrenComplete; TriggerChildrenCommitted]).

(** *** The reports of the slices, one after the other *)

(** What a slice sends back to its index launch: [points] and [denom]
    are the arguments of the three functions above. *)
Inductive Report :=
  | SliceMapped (points denom : Z)
  | SliceComplete (points : Z)
  | SliceCommit (points : Z).

Definition return_slice (r : Report) (s : t DomainPoint)
    : result (t DomainPoint * list Call) :=
  match r with
  | SliceMapped points denom => Ok (return_slice_mapped points denom s)
  | SliceComplete points => return_slice_complete points s
  | SliceCommit points => return_slice_commit points s
  end.

Fixpoint return_slices (rs : list Report) (s : t DomainPoint) (calls : list Call)
    : result (t DomainPoint * list Call) :=
  match rs with
  | [] => Ok (s, calls)
  | r :: rs' =>
      '(s', c) ← return_slice r s;
      return_slices rs' s' (calls ++ c)
  end.

(** The fraction is whole and the counter has caught up with the total. *)
Definition fully_mapped (s : t DomainPoint) : bool :=
  Fraction.is_whole (slice_fraction (progress s))
  && (mapped_points (progress s) =? total_points (progress s)).
Definition fully_complete (s : t DomainPoint) : bool :=
  Fraction.is_whole (slice_fraction (progress s))
  && (complete_points (progress s) =? total_points (progress s)).
Definition fully_committed (s : t DomainPoint) : bool :=
  Fraction.is_whole (slice_fraction (progress s))
  && (committed_points (progress s) =? total_points (progress s)).

(** [P] holds of [s] or of a state the reports [rs] lead through. *)
Fixpoint ever (P : t DomainPoint → bool) (rs : list Report) (s : t DomainPoint) : bool :=
  P s || match rs with
         | [] => false
         | r :: rs' =>
             match return_slice r s with
             | Ok (s', _) => ever P rs' s'
             | _ => false
             end
         end.

(** The sum of 1/denominator over the slices that reported mapped. *)
Fixpoint fraction_sum (rs : list Report) : Fraction.t :=
  match rs with
  | [] => Fraction.make 0 1
  | SliceMapped _ denom :: rs' => Fraction.add (Fraction.make 1 denom) (fraction_sum rs')
  | _ :: rs' => fraction_sum rs'
  end.

(** The points the reports carry: those of the slices that reported
    mapped, complete, committed. *)
Definition reported_mapped (rs : list Report) : Z :=
  foldr (λ r total, match r with SliceMapped points _ => points + total | _ => total end)
    0 rs.
Definition reported_complete (rs : list Report) : Z :=
  foldr (λ r total, match r with SliceComplete points => points + total | _ => total end)
    0 rs.
Definition reported_committed (rs : list Report) : Z :=
  foldr (λ r total, match r with SliceCommit points => points + total | _ => total end)
    0 rs.

(** The reports account for the whole launch: the fractions of the
    slices that reported mapped add up to the rational 1, and the points
    counted by [count] are, as [unsigned] numbers, the points of the
    slices that reported mapped (the total point count of the launch). *)
Definition accounted (count : list Report → Z) (rs : list Report) : Prop :=
  fraction_sum rs = 1%Qc ∧ wrap_u32 (count rs) = wrap_u32 (reported_mapped rs).

(** What the launch remembers of the calls it made: the mapped counter
    follows the total, and the two [..._invoked] flags record the calls of
    [trigger_children_complete] and [trigger_children_committed]. *)
Definition mapped_inv (s : t DomainPoint) (calls : list Call) : Prop :=
  mapped_points (progress s) = total_points (progress s)
  ∧ (fully_mapped s = true → CompleteMapping ∈ calls).

Definition complete_inv (s : t DomainPoint) (calls : list Call) : Prop :=
  (MultiTask.children_complete_invoked (multi s) = true ↔ TriggerChildrenComplete ∈ calls)
  ∧ (fully_complete s = true → MultiTask.children_complete_invoked (multi s) = true).

Definition commit_inv (s : t DomainPoint) (calls : list Call) : Prop :=
  (MultiTask.children_commit_invoked (multi s) = true ↔ TriggerChildrenCommitted ∈ calls)
  ∧ (fully_committed s = true → MultiTask.children_commit_invoked (multi s) = true).

(** *** Future results *)

(** [MultiTask::initialize_reduction_state] (4852-4868) *)
Definition initialize_reduction_state (r : ReductionFields DomainPoint)
    : result (ReductionFields DomainPoint) :=
  _ ← debug_assert DEBUG_LEGION (bool_decide (is_Some (reduction_op r)));
  match reduction_op r with
  | None => AssertFailed   (* a null operator is dereferenced *)
  | Some op =>
      _ ← debug_assert DEBUG_LEGION (is_foldable op);
      _ ← debug_assert DEBUG_LEGION (bool_decide (reduction_state r = None));
      let state := match serdez_redop_fns r with
                   | Some fns => init_fn fns op (sizeof_rhs op)
                   | None => init op
                   end in
      mret (mkReductionFields (reduction_op r) (serdez_redop_fns r) (Some state)
              (sizeof_rhs op) (temporary_futures r) (reduction_future r) (future_map r))
  end.

(** The reduction part of [IndexTask::initialize_task] (7277-7287) *)
Definition initialize_task (redop_id : Z) (op : ReductionOp)
    (serdez : option SerdezRedopFns) (deterministic : bool) (s : t DomainPoint)
    : result (t DomainPoint) :=
  let m := multi s in
  let m' := MultiTask.mk (MultiTask.base m) (MultiTask.launch_space m)
              (MultiTask.internal_space m) (MultiTask.sliced m) redop_id deterministic
              (MultiTask.children_complete_invoked m)
              (MultiTask.children_commit_invoked m) in
  let r := red s in
  let r' := mkReductionFields (Some op) serdez (reduction_state r)
              (reduction_state_size r) (temporary_futures r) (reduction_future r)
              (future_map r) in
  if negb (is_foldable op) then Fatal ERROR_REDUCTION_OPERATION_INDEX
  else
    r'' ← initialize_reduction_state r';
    mret (set_red r'' (set_multi m' s)).

(** [MultiTask::fold_reduction_future] (4871-4896) *)
Definition fold_reduction_future (result_ptr : N) (result_size : Z) (owner exclusive : bool)
    (mem : Memory) (r : ReductionFields DomainPoint)
    : result (Memory * ReductionFields DomainPoint) :=
  _ ← debug_assert DEBUG_LEGION (bool_decide (is_Some (reduction_op r)));
  match reduction_op r, reduction_state r with
  | Some op, Some state =>
      _ ← debug_assert DEBUG_LEGION (is_foldable op);
      let rhs := default [] (mem !! result_ptr) in
      let state' := match serdez_redop_fns r with
                    | Some fns => fold_fn fns op state (reduction_state_size r) rhs
                    | None => fold op state rhs exclusive
                    end in
      mret (if owner then free mem result_ptr else mem,
            mkReductionFields (reduction_op r) (serdez_redop_fns r) (Some state')
              (reduction_state_size r) (temporary_futures r) (reduction_future r)
              (future_map r))
  | _, _ => AssertFailed   (* a null pointer is dereferenced *)
  end.

Definition set_temporary_futures v (r : ReductionFields DomainPoint)
    : ReductionFields DomainPoint :=
  mkReductionFields (reduction_op r) (serdez_redop_fns r) (reduction_state r)
    (reduction_state_size r) v (reduction_future r) (future_map r).

(** [IndexTask::handle_future] (7949-8000). [must_epoch] tells whether
    the launch belongs to a must-epoch operation, which then takes the
    future. *)
Definition handle_future (must_epoch : bool) (point : DomainPoint) (result_ptr : N)
    (result_size : Z) (owner : bool) (mem : Memory) (s : t DomainPoint)
    : result (Memory * t DomainPoint) :=
  let r := red s in
  if bool_decide (is_Some (reduction_op r)) then
    if MultiTask.deterministic_redop (multi s) then
      if owner then
        _ ← debug_assert DEBUG_LEGION (map_absent point_lt point (temporary_futures r));
        mret (mem,
              set_red (set_temporary_futures
                         (map_assign point_lt point (result_ptr, result_size)
                            (temporary_futures r)) r) s)
      else
        let '(copy, mem1) := malloc mem result_size in
        let mem2 := memcpy mem1 copy result_ptr result_size in
        _ ← debug_assert DEBUG_LEGION (map_absent point_lt point (temporary_futures r));
        mret (mem2,
              set_red (set_temporary_futures
                         (map_assign point_lt point (copy, result_size)
                            (temporary_futures r)) r) s)
    else
      '(mem', r') ← fold_reduction_future result_ptr result_size owner false mem r;
      mret (mem', set_red r' s)
  else if must_epoch then mret (mem, s)
  else
    let value := take (Z.to_nat result_size) (default [] (mem !! result_ptr)) in
    mret (mem,
          set_red (mkReductionFields (reduction_op r) (serdez_redop_fns r)
                     (reduction_state r) (reduction_state_size r)
                     (temporary_futures r) (reduction_future r)
                     (map_assign point_lt point value (future_map r))) s).

(** The loop of [trigger_task_complete] over [temporary_futures], in
    the order of the map. *)
Fixpoint fold_temporary_futures (it : list (DomainPoint * (N * Z))) (mem : Memory)
    (r : ReductionFields DomainPoint) : result (Memory * ReductionFields DomainPoint) :=
  match it with
  | [] => Ok (mem, r)
  | (_, (ptr, size)) :: it' =>
      '(mem', r') ← fold_reduction_future ptr size false true mem r;
      fold_temporary_futures it' mem' r'
  end.

(** [IndexTask::trigger_task_complete] (7731-7775), up to
    [complete_operation()]. [ran] is
    [(speculation_state != RESOLVE_FALSE_STATE) || false_guard.exists()]. *)
Definition trigger_task_complete (ran : bool) (mem : Memory) (s : t DomainPoint)
    : result (Memory * t DomainPoint) :=
  if negb (MultiTask.redop (multi s) =? 0) then
    if ran then
      '(mem', r') ←
        (if MultiTask.deterministic_redop (multi s)
         then fold_temporary_futures (temporary_futures (red s)) mem (red s)
         else Ok (mem, red s));
      mret (mem',
            set_red (mkReductionFields (reduction_op r') (serdez_redop_fns r')
                       (reduction_state r') (reduction_state_size r')
                       (temporary_futures r') (reduction_state r') (future_map r')) s)
    else mret (mem, s)
  else mret (mem, s).

(** The memory part of [MultiTask::deactivate_multi] (4475-4508): the
    reduction buffer and every buffer in [temporary_futures] are freed. *)
Definition deactivate_multi (mem : Memory) (r : ReductionFields DomainPoint)
    : Memory * ReductionFields DomainPoint :=
  (foldl (λ m entry, free m (entry.2).1) mem (temporary_futures r),
   mkReductionFields (reduction_op r) (serdez_redop_fns r) None 0 []
     (reduction_future r) (future_map r)).

(** *** The point results, one after the other *)

(** A point result as it is handed to [handle_future]. *)
Record Arrival := mkArrival {
  arr_point : DomainPoint;
  arr_ptr : N;
  arr_size : Z;
  arr_owner : bool;
}.

Fixpoint handle_futures (must_epoch : bool) (arrivals : list Arrival) (mem : Memory)
    (s : t DomainPoint) : result (Memory * t DomainPoint) :=
  match arrivals with
  | [] => Ok (mem, s)
  | a :: arrivals' =>
      '(mem', s') ← handle_future must_epoch (arr_point a) (arr_ptr a) (arr_size a)
                      (arr_owner a) mem s;
      handle_futures must_epoch arrivals' mem' s'
  end.

(** The bytes a fold of the result reads: the buffer itself when the
    launch owns it, its copy of [result_size] bytes otherwise. *)
Definition arrival_value (mem : Memory) (a : Arrival) : list byte :=
  if arr_owner a then default [] (mem !! arr_ptr a)
  else take (Z.to_nat (arr_size a)) (default [] (mem !! arr_ptr a)).

(** One fold into the reduction buffer, as [fold_reduction_future] does
    it. *)
Definition fold_value (op : ReductionOp) (fns : option SerdezRedopFns) (size : Z)
    (exclusive : bool) (state rhs : list byte) : list byte :=
  match fns with
  | Some f => fold_fn f op state size rhs
  | None => fold op state rhs exclusive
  end.

(** The entries of [temporary_futures] with the bytes their buffers
    hold. *)
Definition buffered (mem : Memory) (tf : list (DomainPoint * (N * Z)))
    : list (DomainPoint * list byte) :=
  (λ entry, (entry.1, default [] (mem !! (entry.2).1))) <$> tf.

(** The value [initialize_reduction_state] writes into the buffer. *)
Definition initial_state (op : ReductionOp) (serdez : option SerdezRedopFns) : list byte :=
  match serdez with
  | Some fns => init_fn fns op (sizeof_rhs op)
  | None => init op
  end.

(** The memory once the buffers the launch owns are freed. *)
Definition free_owned (arrivals : list Arrival) (mem : Memory) : Memory :=
  foldl (λ m a, if arr_owner a then free m (arr_ptr a) else m) mem arrivals.

(** The addresses [temporary_futures] points to. *)
Definition buffer_addresses (tf : list (DomainPoint * (N * Z))) : list N :=
  (λ entry, (entry.2).1) <$> tf.

(** The addresses of the results the launch was given ownership of. *)
Definition owned_addresses (arrivals : list Arrival) : list N :=
  arr_ptr <$> filter (λ a, arr_owner a = true) arrivals.

(** [operator<] is a strict total order. *)
Definition strict_total_order : Prop :=
  (∀ x, point_lt x x = false)
  ∧ (∀ x y z, point_lt x y = true → point_lt y z = true → point_lt x z = true)
  ∧ (∀ x y, point_lt x y = false → point_lt y x = false → x = y).

(** In the order of the points. *)
Definition in_point_order {V : Type} (m : list (DomainPoint * V)) : Prop :=
  StronglySorted (λ a b, point_lt a.1 b.1 = true) m.
End index.

Arguments mkArrival {DomainPoint}.
Arguments arr_point {DomainPoint}.
Arguments arr_ptr {DomainPoint}.
Arguments arr_size {DomainPoint}.
Arguments arr_owner {DomainPoint}.

(** *** An example: two slices of denominator 2, of two points and of
    one point *)
Definition example_reports : list Report :=
  [SliceMapped 2 2; SliceComplete 2; SliceMapped 1 2; SliceComplete 1; SliceCommit 3].

Definition example_final : t Z :=
  mk 7 (MultiTask.mk (TaskOp.activate_task TaskOp.blank) NO_SPACE NO_SPACE false 0 false
          true true)
     (mkProgress
        (Fraction.add (Fraction.add (Fraction.make 0 1) (Fraction.make 1 2))
           (Fraction.make 1 2)) 3 3 3 3)
     (mkReductionFields None None None 0 [] None []).

(** A reduction that appends the result to the buffer, a memory with
    two one-byte results, and their arrival out of the order of their
    points. *)
Definition append_op : ReductionOp := mkReductionOp 1 true [] (λ state rhs _, state ++ rhs).
Definition example_memory : Memory :=
  <[1%N := [Byte.x0a]]> (<[2%N := [Byte.x0b]]> ∅).
Definition example_arrivals : list (Arrival (DomainPoint := Z)) :=
  [mkArrival 5 1%N 1 true; mkArrival 3 2%N 1 false].

Definition example_calls : list Call :=
  [CompleteMapping; CompleteExecution; TriggerChildrenComplete; TriggerChildrenCommitted].

End IndexTask.

(** ** An index launch: slicing, recursively, down to the point tasks *)

Module Launch.

Section launch.
Context {DomainPoint : Type}.
Variable DEBUG_LEGION : bool.
Variable runtime : Runtime DomainPoint.
Variable is_recording : bool.
(** The objects the free lists hand out (their content is reset by
    [activate]). *)
Variable recycled_multi : MultiTask.t.
Variable recycled_task : TaskOp.t.

(** What the mapper answers, slicing after slicing: the slices it
    returns for a task, and for each of them what it will answer when
    that slice is sliced in turn (looked at only if the slice recurses). *)
Inductive MapperScript :=
  | Script (slices : list (TaskSlice DomainPoint * MapperScript)) (verify_correctness : bool).

(** A [MultiTask] is an index launch or a slice. *)
Inductive Sliceable :=
  | OfIndex (i : IndexTask.t DomainPoint)
  | OfSlice (s : SliceTask.t DomainPoint).

Definition multi_of (this : Sliceable) : MultiTask.t :=
  match this with
  | OfIndex i => IndexTask.multi i
  | OfSlice s => SliceTask.multi s
  end.

Definition with_multi (m : MultiTask.t) (this : Sliceable) : Sliceable :=
  match this with
  | OfIndex i => OfIndex (IndexTask.set_multi m i)
  | OfSlice s => OfSlice (SliceTask.set_multi m s)
  end.

(** The virtual [clone_as_slice_task]. *)
Definition clone_as_slice_task (this : Sliceable) (m : MultiTask.t) (space : IndexSpace)
    (p : TaskOp.Processor) (recurse stealable : bool) (scale_denominator : Z)
    : result (SliceTask.t DomainPoint) :=
  match this with
  | OfIndex i =>
      IndexTask.clone_as_slice_task DEBUG_LEGION recycled_multi (IndexTask.set_multi m i)
        space p recurse stealable scale_denominator
  | OfSlice s =>
      SliceTask.clone_as_slice_task DEBUG_LEGION recycled_multi (SliceTask.set_multi m s)
        space p recurse stealable scale_denominator
  end.

Definition slice_index_space (this : Sliceable) (output : SliceTaskOutput DomainPoint)
    : result (Sliceable * list (SliceTask.t DomainPoint)) :=
  '(m, slices) ← MultiTask.slice_index_space DEBUG_LEGION runtime is_recording
                   (clone_as_slice_task this) (multi_of this) output;
  mret (with_multi m this, slices).

(** [MultiTask::trigger_slices] hands every new slice to
    [MultiTask::trigger_mapping] (4721-4810), here or on the node it is
    sent to: a slice that [is_sliced()] is mapped and launched, any other
    is sliced in turn, by [decompose]. It returns the slices that are
    mapped and launched. *)
Definition trigger_slices
    (decompose : MapperScript → Sliceable → result (list (SliceTask.t DomainPoint)))
    : list (TaskSlice DomainPoint * MapperScript) → list (SliceTask.t DomainPoint)
      → result (list (SliceTask.t DomainPoint)) :=
  fix go outs slices :=
    match outs, slices with
    | (_, sub) :: outs', s :: slices' =>
        r ← (if MultiTask.is_sliced (SliceTask.multi s) then Ok [s]
             else decompose sub (OfSlice s));
        rs ← go outs' slices';
        mret (r ++ rs)
    | _, _ => Ok []
    end.

(** The slicing of a launch or of a slice, with the mapper's answers in
    [script]. *)
Fixpoint decompose (script : MapperScript) (this : Sliceable)
    : result (list (SliceTask.t DomainPoint)) :=
  match script with
  | Script outs verify =>
      '(_, slices) ← slice_index_space this (mkSliceTaskOutput (fst <$> outs) verify);
      trigger_slices decompose outs slices
  end.

(** *** Vocabulary for the properties of a decomposition *)

(** The denominator of what is sliced: the whole launch counts as one
    slice of denominator 1. *)
Definition denominator_of (this : Sliceable) : Z :=
  match this with
  | OfIndex _ => 1
  | OfSlice s => SliceTask.denominator s
  end.

(** The denominator the children of [this] get when it is cut in
    [num_slices]: what the two [clone_as_slice_task] compute from
    [scale_denominator = output.slices.size()]. *)
Definition child_denominator (this : Sliceable) (num_slices : nat) : Z :=
  match this with
  | OfIndex _ => wrap_ll (Z.of_nat num_slices)
  | OfSlice s => wrap_ll (SliceTask.denominator s * wrap_ll (Z.of_nat num_slices))
  end.

(** No denominator of the decomposition leaves the range of [long long]. *)
Fixpoint fits (script : MapperScript) (D : Z) : bool :=
  match script with
  | Script outs _ =>
      let Dk := D * Z.of_nat (length outs) in
      (Dk <? 2 ^ 63)
      && forallb (λ '(slice, sub), if ts_recurse slice then fits sub Dk else true) outs
  end.

(** The points of the launch space a slice is given. *)
Definition slice_points (slice : TaskSlice DomainPoint) : list DomainPoint :=
  domain_points
    (find_launch_space_domain runtime
       (ts_domain_is (MultiTask.complete_slice runtime slice))).

(** At every slicing, the points of the slices are those of the space
    that is sliced, each one once. *)
Fixpoint partitions (script : MapperScript) (space : IndexSpace) : Prop :=
  match script with
  | Script outs _ =>
      concat ((λ o, slice_points o.1) <$> outs)
        ≡ₚ domain_points (find_launch_space_domain runtime space)
      ∧ foldr (λ '(slice, sub) rest,
                 (ts_recurse slice = true
                  → partitions sub (ts_domain_is (MultiTask.complete_slice runtime slice)))
                 ∧ rest) True outs
  end.

(** The sum of 1/denominator over slices. *)
Definition leaf_fraction (slices : list (SliceTask.t DomainPoint)) : Fraction.t :=
  foldr (λ s total, Fraction.add (Fraction.make 1 (SliceTask.denominator s)) total)
    (Fraction.make 0 1) slices.

(** The points of a slice task: those of its internal space. *)
Definition leaf_points (s : SliceTask.t DomainPoint) : list DomainPoint :=
  domain_points
    (find_launch_space_domain runtime (MultiTask.internal_space (SliceTask.multi s))).

(** What a new slice is given by the slicing of [this] in [num_slices]. *)
Definition child_of (this : Sliceable) (num_slices : Z) (slice : TaskSlice DomainPoint)
    (s : SliceTask.t DomainPoint) : Prop :=
  SliceTask.denominator s
    = match this with
      | OfIndex _ => num_slices
      | OfSlice s0 => wrap_ll (SliceTask.denominator s0 * num_slices)
      end
  ∧ MultiTask.sliced (SliceTask.multi s) = negb (ts_recurse slice)
  ∧ MultiTask.internal_space (SliceTask.multi s)
    = ts_domain_is (MultiTask.complete_slice runtime slice)
  ∧ SliceTask.points s = [].

(** The fractions of the terminal slices below a slice add up to the
    fraction of that slice. *)
Definition sums_to_whole (script : MapperScript) : Prop :=
  ∀ this leaves,
    decompose script this = Ok leaves →
    0 < denominator_of this →
    fits script (denominator_of this) = true →
    leaf_fraction leaves = Fraction.make 1 (denominator_of this).

(** The terminal slices below a slice have the points of that slice,
    and have not enumerated them yet. *)
Definition covers (script : MapperScript) : Prop :=
  ∀ this leaves,
    decompose script this = Ok leaves →
    partitions script (MultiTask.internal_space (multi_of this)) →
    Forall (λ s, SliceTask.points s = []) leaves
    ∧ concat (leaf_points <$> leaves)
      ≡ₚ domain_points
           (find_launch_space_domain runtime (MultiTask.internal_space (multi_of this))).

(** [MultiTask::trigger_mapping] on the index launch (not remote, not
    yet sliced): an origin-mapped launch is sliced in place; any other is
    first distributed, and a launch sent away continues as the slice copy
    on the target node. *)
Definition trigger_mapping (script : MapperScript) (index : IndexTask.t DomainPoint)
    : result (list (SliceTask.t DomainPoint)) :=
  if TaskOp.is_origin_mapped (MultiTask.base (IndexTask.multi index))
  then decompose script (OfIndex index)
  else
    '(still_local, sent) ← IndexTask.distribute_task DEBUG_LEGION recycled_multi true index;
    if still_local : bool then decompose script (OfIndex index)
    else match sent with
         | Some clone => decompose script (OfSlice clone)
         | None => Ok []
         end.

(** Every terminal slice maps and launches its points. *)
Fixpoint launch_all (slices : list (SliceTask.t DomainPoint))
    : result (list (PointTask.t DomainPoint)) :=
  match slices with
  | [] => Ok []
  | s :: slices' =>
      '(_, launched) ← SliceTask.map_and_launch DEBUG_LEGION runtime recycled_task s;
      rest ← launch_all slices';
      mret (launched ++ rest)
  end.

(** The point tasks an index launch ends up launching. *)
Definition launch (script : MapperScript) (index : IndexTask.t DomainPoint)
    : result (list (PointTask.t DomainPoint)) :=
  slices ← trigger_mapping script index;
  launch_all slices.

(** *** Stealing *)

(** The tasks a mapper may ask to steal. *)
Inductive Task :=
  | Individual (s : TaskOp.t)
  | Index (i : IndexTask.t DomainPoint)
  | Slice (s : SliceTask.t DomainPoint).

Definition is_stealable (task : Task) : bool :=
  match task with
  | Individual s => IndividualTask.is_stealable s
  | Index i => IndexTask.is_stealable i
  | Slice s => SliceTask.is_stealable s
  end.

Definition is_origin_mapped (task : Task) : bool :=
  match task with
  | Individual s => TaskOp.is_origin_mapped s
  | Index i => TaskOp.is_origin_mapped (MultiTask.base (IndexTask.multi i))
  | Slice s => TaskOp.is_origin_mapped (MultiTask.base (SliceTask.multi s))
  end.

(** The [stealable] field of the task. *)
Definition stealable_flag (task : Task) : bool :=
  match task with
  | Individual s => TaskOp.stealable s
  | Index i => TaskOp.stealable (MultiTask.base (IndexTask.multi i))
  | Slice s => TaskOp.stealable (MultiTask.base (SliceTask.multi s))
  end.

(** The calls of the lifecycle that write the stealing flag.
    [IndexTask::perform_mapping] and [IndexTask::map_and_launch] only
    trigger the slices; a slice has no pre-pipeline stage of its own. *)
Inductive Event :=
  | TriggerPrepipelineStage (mapper : TaskOp.TaskOptions → TaskOp.TaskOptions)
                            (checks : result unit)
  | PerformMapping (deferred : bool)
  | MapAndLaunch
  | SliceIndexSpace (output : SliceTaskOutput DomainPoint).

Definition step (e : Event) (task : Task) : result Task :=
  match e, task with
  | TriggerPrepipelineStage mapper checks, Individual s =>
      Individual <$> TaskOp.trigger_prepipeline_stage DEBUG_LEGION mapper checks s
  | TriggerPrepipelineStage mapper checks, Index i =>
      b ← TaskOp.trigger_prepipeline_stage DEBUG_LEGION mapper checks
            (MultiTask.base (IndexTask.multi i));
      mret (Index (IndexTask.set_multi (MultiTask.set_base b (IndexTask.multi i)) i))
  | TriggerPrepipelineStage _ _, Slice s => Ok task
  | PerformMapping deferred, Individual s =>
      Ok (Individual (IndividualTask.perform_mapping deferred s))
  | PerformMapping _, Index _ => Ok task
  | PerformMapping _, Slice s =>
      Slice <$> SliceTask.perform_mapping DEBUG_LEGION runtime recycled_task s
  | MapAndLaunch, Slice s =>
      r ← SliceTask.map_and_launch DEBUG_LEGION runtime recycled_task s;
      mret (Slice r.1)
  | MapAndLaunch, _ => Ok task
  | SliceIndexSpace output, Index i =>
      r ← slice_index_space (OfIndex i) output;
      mret (match r.1 with OfIndex i' => Index i' | OfSlice s' => Slice s' end)
  | SliceIndexSpace output, Slice s =>
      r ← slice_index_space (OfSlice s) output;
      mret (match r.1 with OfIndex i' => Index i' | OfSlice s' => Slice s' end)
  | SliceIndexSpace _, Individual _ => Ok task
  end.

Fixpoint run (es : list Event) (task : Task) : result Task :=
  match es with
  | [] => Ok task
  | e :: es' => task' ← step e task; run es' task'
  end.

(** The events by which a task is mapped or decomposed. *)
Definition maps_or_slices (e : Event) (task : Task) : bool :=
  match e, task with
  | PerformMapping deferred, Individual _ => negb deferred
  | PerformMapping _, Slice _ => true
  | MapAndLaunch, Slice _ => true
  | SliceIndexSpace _, (Index _ | Slice _) => true
  | _, _ => false
  end.

Definition is_prepipeline (e : Event) : bool :=
  match e with TriggerPrepipelineStage _ _ => true | _ => false end.

(** The pre-pipeline stage is the first stage of the pipeline: it is not
    run once the task has been mapped or decomposed. *)
Fixpoint prepipeline_first (es : list Event) (task : Task) (done : bool) : bool :=
  match es with
  | [] => true
  | e :: es' =>
      negb (is_prepipeline e && done)
      && match step e task with
         | Ok task' => prepipeline_first es' task' (done || maps_or_slices e task)
         | _ => true
         end
  end.
End launch.

(** *** A small machine for examples: points are integers, every
    processor is local, no launch space is registered. *)
Definition example_runtime : Runtime Z :=
  mkRuntime (λ _, NO_DOMAIN) (λ _, NO_SPACE) (λ _ _, Ok ()) (λ _, true).

(** A forest that knows three launch spaces: space 1 holds the points
    0 and 1, space 2 the point 0, space 3 the point 1. *)
Definition example_space (id : Z) : IndexSpace := mkIndexSpace id 1.
Definition example_forest : Runtime Z :=
  mkRuntime
    (λ space, if is_id space =? 1 then Some [0; 1]
              else if is_id space =? 2 then Some [0]
              else if is_id space =? 3 then Some [1]
              else NO_DOMAIN)
    (λ _, example_space 9) (λ _ _, Ok ()) (λ _, true).

(** An index launch over space 1, launched on processor 1. *)
Definition example_index : IndexTask.t Z :=
  IndexTask.mk 7
    (MultiTask.mk (TaskOp.initialize_base_task 1 (TaskOp.activate_task TaskOp.blank))
       (example_space 1) (example_space 1) false 0 false false false)
    (IndexTask.mkProgress (Fraction.make 0 1) 0 0 0 0)
    (IndexTask.mkReductionFields None None None 0 [] None []).

Definition example_slice (id : Z) : TaskSlice Z :=
  mkTaskSlice NO_DOMAIN (example_space id) 1 false false.

(** Mapper answers: one slice that covers only the point 0; the whole
    domain and an empty slice; the point 0 twice; the two points. *)
Definition short_output : SliceTaskOutput Z :=
  mkSliceTaskOutput [example_slice 2] false.
Definition empty_slice_output : SliceTaskOutput Z :=
  mkSliceTaskOutput [example_slice 1; example_slice 5] false.
Definition overlapping_output : SliceTaskOutput Z :=
  mkSliceTaskOutput [example_slice 2; example_slice 2] false.
Definition exact_output : SliceTaskOutput Z :=
  mkSliceTaskOutput [example_slice 2; example_slice 3] false.

(** A script in two levels: one slice for the whole domain, which is
    sliced again in its two points. *)
Definition leaf_script : MapperScript (DomainPoint := Z) := Script [] false.
Definition recursing_slice (id : Z) : TaskSlice Z :=
  mkTaskSlice NO_DOMAIN (example_space id) 1 true false.
Definition example_script : MapperScript (DomainPoint := Z) :=
  Script [(recursing_slice 1,
           Script [(example_slice 2, leaf_script); (example_slice 3, leaf_script)] false)]
    false.
Definition overlapping_script : MapperScript (DomainPoint := Z) :=
  Script [(example_slice 2, leaf_script); (example_slice 2, leaf_script)] false.

(** The terminal slices and the point tasks of [example_script]. *)
Definition example_leaf (id : Z) : SliceTask.t Z :=
  SliceTask.mk
    (MultiTask.mk (TaskOp.mk false false false false false false false 1 1 1)
       (example_space 1) (example_space id) true 0 false false false)
    2 7 [] 0 0 0.
Definition example_point (p : Z) : PointTask.t Z :=
  PointTask.mk (TaskOp.mk false false false false false false false 1 1 1) p.

(** A chain of bisections: space [id] (from 1 to 64) holds the points
    [id - 1] to 63, space [100 + id] the point [id - 1]; the script cuts
    one point off the space at each level. *)
Definition chain_forest : Runtime Z :=
  mkRuntime
    (λ space, let id := is_id space in
              if (1 <=? id) && (id <=? 64) then Some (seqZ (id - 1) (65 - id))
              else if (101 <=? id) && (id <=? 164) then Some [id - 101]
              else NO_DOMAIN)
    (λ _, example_space 9) (λ _ _, Ok ()) (λ _, true).

Fixpoint chain_script (depth : nat) (id : Z) : MapperScript (DomainPoint := Z) :=
  match depth with
  | O => leaf_script
  | S depth' =>
      Script [(example_slice (100 + id), leaf_script);
              (mkTaskSlice NO_DOMAIN (example_space (id + 1)) 1
                 (negb (bool_decide (depth' = O))) false,
               chain_script depth' (id + 1))] false
  end.

(** A mapper that lets the task be stolen. *)
Definition allow_stealing (options : TaskOp.TaskOptions) : TaskOp.TaskOptions :=
  TaskOp.mkOptions (TaskOp.initial_proc options) false true false false.

(** An individual task launched on processor 1, and the same task once
    its options are selected and once it is mapped. *)
Definition example_individual : Task (DomainPoint := Z) :=
  Individual (TaskOp.initialize_base_task 1 (TaskOp.activate_task TaskOp.blank)).
Definition example_individual_selected : Task (DomainPoint := Z) :=
  Individual (TaskOp.mk false false false false true true false 1 1 1).
Definition example_individual_mapped : Task (DomainPoint := Z) :=
  Individual (TaskOp.mk false false false false false true false 1 1 1).

End Launch.
(** ** The reports of the points to their slice, and of a slice to its
    index launch *)

Module SliceReports.
Import SliceTask.

Section reports.
Context {DomainPoint : Type}.
Variable DEBUG_LEGION : bool.

Definition set_num_unmapped_points v (s : t DomainPoint) : t DomainPoint :=
  mk (multi s) (denominator s) (index_owner s) (points s) v (num_uncomplete_points s)
     (num_uncommitted_points s).
Definition set_num_uncomplete_points v (s : t DomainPoint) : t DomainPoint :=
  mk (multi s) (denominator s) (index_owner s) (points s) (num_unmapped_points s) v
     (num_uncommitted_points s).
Definition set_num_uncommitted_points v (s : t DomainPoint) : t DomainPoint :=
  mk (multi s) (denominator s) (index_owner s) (points s) (num_unmapped_points s)
     (num_uncomplete_points s) v.

(** [SliceTask::record_child_mapped] (9019-9039): the slice, and whether
    the call goes on to [trigger_slice_mapped]. *)
Definition record_child_mapped (s : t DomainPoint) : result (t DomainPoint * bool) :=
  _ ← debug_assert DEBUG_LEGION (0 <? num_unmapped_points s);
  let n := wrap_u32 (num_unmapped_points s - 1) in
  mret (set_num_unmapped_points n s, n =? 0).

(** [SliceTask::record_child_complete] (9042-9060): the slice, and
    whether the call goes on to [trigger_children_complete]. *)
Definition record_child_complete (s : t DomainPoint) : result (t DomainPoint * bool) :=
  _ ← debug_assert DEBUG_LEGION (0 <? num_uncomplete_points s);
  let n := wrap_u32 (num_uncomplete_points s - 1) in
  let needs_trigger := (n =? 0) && negb (MultiTask.children_complete_invoked (multi s)) in
  let m := if needs_trigger
           then MultiTask.set_children_complete_invoked true (multi s) else multi s in
  mret (set_multi m (set_num_uncomplete_points n s), needs_trigger).

(** [SliceTask::record_child_committed] (9063-9083): the slice, and
    whether the call goes on to [trigger_children_committed]. *)
Definition record_child_committed (s : t DomainPoint) : result (t DomainPoint * bool) :=
  _ ← debug_assert DEBUG_LEGION (0 <? num_uncommitted_points s);
  let n := wrap_u32 (num_uncommitted_points s - 1) in
  let needs_trigger := (n =? 0) && negb (MultiTask.children_commit_invoked (multi s)) in
  let m := if needs_trigger
           then MultiTask.set_children_commit_invoked true (multi s) else multi s in
  mret (set_multi m (set_num_uncommitted_points n s), needs_trigger).

(** The number of points handed to the [unsigned points] of the index
    launch's functions. *)
Definition points_size (s : t DomainPoint) : Z :=
  wrap_u32 (Z.of_nat (length (points s))).

(** The branch of [SliceTask::trigger_slice_mapped] (9086-9134) of a
    slice that is not remote: in a debug build the index launch first
    checks the region requirements of the points ([check] is the outcome
    of [check_point_requirements]); then it is told the number of points
    and the denominator of the slice. Returns the index launch and the
    calls it makes. *)
Definition trigger_slice_mapped (check : t DomainPoint → result unit)
    (s : t DomainPoint) (index : IndexTask.t DomainPoint)
    : result (IndexTask.t DomainPoint * list IndexTask.Call) :=
  _ ← (if DEBUG_LEGION then check s else Ok ());
  mret (IndexTask.return_slice_mapped (points_size s) (denominator s) index).

(** The branch of [SliceTask::trigger_slice_complete] (9137-9173) of a
    slice that is not remote. *)
Definition trigger_slice_complete (s : t DomainPoint) (index : IndexTask.t DomainPoint)
    : result (IndexTask.t DomainPoint * list IndexTask.Call) :=
  IndexTask.return_slice_complete DEBUG_LEGION (points_size s) index.

(** The branch of [SliceTask::trigger_slice_commit] (9176-9197) of a
    slice that is not remote. *)
Definition trigger_slice_commit (s : t DomainPoint) (index : IndexTask.t DomainPoint)
    : result (IndexTask.t DomainPoint * list IndexTask.Call) :=
  IndexTask.return_slice_commit DEBUG_LEGION (points_size s) index.

(** *** The slices of a launch and their index launch *)

Record System := mkSystem {
  sys_slices : list (t DomainPoint);
  sys_index : IndexTask.t DomainPoint;
  sys_calls : list IndexTask.Call;       (* the calls the index launch made *)
}.

(** A point of slice [i] has mapped ([PointTask] calls
    [slice_owner->record_child_mapped]). *)
Definition child_mapped (check : t DomainPoint → result unit) (i : nat) (sys : System)
    : result System :=
  match sys_slices sys !! i with
  | None => Ok sys
  | Some s =>
      '(s', needs_trigger) ← record_child_mapped s;
      let slices := <[i := s']> (sys_slices sys) in
      if needs_trigger : bool then
        '(index, calls) ← trigger_slice_mapped check s' (sys_index sys);
        mret (mkSystem slices index (sys_calls sys ++ calls))
      else mret (mkSystem slices (sys_index sys) (sys_calls sys))
  end.

Fixpoint children_mapped (check : t DomainPoint → result unit) (events : list nat)
    (sys : System) : result System :=
  match events with
  | [] => Ok sys
  | i :: events' => sys' ← child_mapped check i sys; children_mapped check events' sys'
  end.

(** The calls of [record_child_complete] one after the other, with what
    each one answered. *)
Fixpoint record_children_complete (n : nat) (s : t DomainPoint)
    : result (t DomainPoint * list bool) :=
  match n with
  | O => Ok (s, [])
  | S n' =>
      '(s', needs_trigger) ← record_child_complete s;
      '(s'', rest) ← record_children_complete n' s';
      mret (s'', needs_trigger :: rest)
  end.

Fixpoint record_children_committed (n : nat) (s : t DomainPoint)
    : result (t DomainPoint * list bool) :=
  match n with
  | O => Ok (s, [])
  | S n' =>
      '(s', needs_trigger) ← record_child_committed s;
      '(s'', rest) ← record_children_committed n' s';
      mret (s'', needs_trigger :: rest)
  end.

(** *** Vocabulary for the properties *)

(** The part of the launch the slices whose points have all mapped
    account for, and the number of their points. *)
Definition reported (s : t DomainPoint) : bool := num_unmapped_points s =? 0.

Definition reported_fraction (slices : list (t DomainPoint)) : Fraction.t :=
  foldr (λ s total,
           Fraction.add (if reported s then Fraction.make 1 (denominator s)
                         else Fraction.make 0 1) total)
    (Fraction.make 0 1) slices.

Definition reported_points (slices : list (t DomainPoint)) : Z :=
  foldr (λ s total, (if reported s then Z.of_nat (length (points s)) else 0) + total)
    0 slices.

Definition all_points (slices : list (t DomainPoint)) : Z :=
  foldr (λ s total, Z.of_nat (length (points s)) + total) 0 slices.

(** The slices have enumerated their points, none of which has mapped;
    the fractions of the slices add up to the launch. *)
Definition enumerated (slices : list (t DomainPoint)) : Prop :=
  Forall (λ s, 0 < denominator s
               ∧ (0 < length (points s))%nat
               ∧ num_unmapped_points s = Z.of_nat (length (points s))) slices
  ∧ Launch.leaf_fraction slices = 1%Qc
  ∧ all_points slices < 2 ^ 32.

(** Every point of every slice maps once. *)
Definition each_point_once (slices : list (t DomainPoint)) (events : list nat) : Prop :=
  Forall (λ i, (i < length slices)%nat) events
  ∧ ∀ i s, slices !! i = Some s →
           num_unmapped_points s = Z.of_nat (count_occ Nat.eq_dec events i).

(** What holds between the slices, the index launch and the calls it
    made while the points in [remaining] have yet to map. *)
Definition accounts_for (sys : System) (remaining : list nat) : Prop :=
  let slices := sys_slices sys in
  Forall (λ s, 0 < denominator s ∧ (0 < length (points s))%nat
               ∧ num_unmapped_points s ≤ Z.of_nat (length (points s))) slices
  ∧ Launch.leaf_fraction slices = 1%Qc
  ∧ all_points slices < 2 ^ 32
  ∧ each_point_once slices remaining
  ∧ IndexTask.progress (sys_index sys)
    = IndexTask.mkProgress (reported_fraction slices) (reported_points slices)
        (reported_points slices) 0 0
  ∧ sys_calls sys
    = (if bool_decide (Forall (λ s, reported s = true) slices)
       then [IndexTask.CompleteMapping] else []).
End reports.

Arguments mkSystem {DomainPoint}.
Arguments sys_slices {DomainPoint}.
Arguments sys_index {DomainPoint}.
Arguments sys_calls {DomainPoint}.

(** A slice of two points that has enumerated them. *)
Definition example_slice_task : t Z :=
  mk (multi (Launch.example_leaf 1)) 1 7 [Launch.example_point 0; Launch.example_point 1]
     2 2 2.

(** Two slices of the launch over the points 0 and 1, of one point each,
    and the order in which their points map. *)
Definition example_slices : list (t Z) :=
  [mk (multi (Launch.example_leaf 2)) 2 7 [Launch.example_point 0] 1 1 1;
   mk (multi (Launch.example_leaf 3)) 2 7 [Launch.example_point 1] 1 1 1].
Definition example_events : list nat := [1%nat; 0%nat].

End SliceReports.
(** ** Where a slice is sent, and the atomic locks of a task *)

Module SliceDistribution.
Import SliceTask.

Section distribution.
Context {DomainPoint : Type}.
Variable DEBUG_LEGION : bool.
(** [runtime->find_address_space] *)
Variable find_address_space : TaskOp.Processor → Z.

(** [points[idx]->target_proc] *)
Definition point_target (p : PointTask.t DomainPoint) : TaskOp.Processor :=
  TaskOp.target_proc (PointTask.base p).

Definition set_target_proc (p : TaskOp.Processor) (s : t DomainPoint) : t DomainPoint :=
  let b := MultiTask.base (multi s) in
  set_multi
    (MultiTask.set_base
       (TaskOp.mk (TaskOp.complete_received b) (TaskOp.commit_received b)
          (TaskOp.children_complete b) (TaskOp.children_commit b) (TaskOp.stealable b)
          (TaskOp.options_selected b) (TaskOp.map_origin b) p (TaskOp.current_proc b)
          (TaskOp.orig_proc b))
       (multi s)) s.

(** The loop of [check_target_processors] over [points[1]], ... *)
Fixpoint check_target_spaces (target_space : Z) (rest : list (PointTask.t DomainPoint))
    : result unit :=
  match rest with
  | [] => Ok ()
  | p :: rest' =>
      if negb (target_space =? find_address_space (point_target p))
      then Fatal ERROR_INVALID_MAPPER_OUTPUT
      else check_target_spaces target_space rest'
  end.

(** [SliceTask::check_target_processors] (8525-8546) *)
Definition check_target_processors (s : t DomainPoint) : result unit :=
  _ ← debug_assert DEBUG_LEGION (negb (bool_decide (points s = [])));
  match points s with
  | [] => AssertFailed   (* [points[0]] of an empty vector is read *)
  | [_] => Ok ()
  | first :: rest => check_target_spaces (find_address_space (point_target first)) rest
  end.

(** [SliceTask::update_target_processor] (8549-8558) *)
Definition update_target_processor (s : t DomainPoint) : result (t DomainPoint) :=
  match points s with
  | [] => Ok s
  | first :: _ =>
      _ ← (if DEBUG_LEGION then check_target_processors s else Ok ());
      mret (set_target_proc (point_target first) s)
  end.

(** [SliceTask::distribute_task] (8561-8574): the slice, and whether it
    stays here ([false] once [runtime->send_task(this)] has sent it). *)
Definition distribute_task (s : t DomainPoint) : result (t DomainPoint * bool) :=
  s' ← update_target_processor s;
  let b := MultiTask.base (multi s') in
  if TaskOp.proc_exists (TaskOp.target_proc b)
     && negb (TaskOp.target_proc b =? TaskOp.current_proc b)
  then mret (s', false)
  else mret (s', true).

(** *** Vocabulary for the properties *)

(** The points of the slice are mapped to processors of one address
    space. *)
Definition one_address_space (s : t DomainPoint) : Prop :=
  ∀ p q, p ∈ points s → q ∈ points s →
         find_address_space (point_target p) = find_address_space (point_target q).
End distribution.

(** A slice with a point for the processor 3 and one for the processor
    12, on a machine whose address spaces hold ten processors each, and
    on a machine with one address space. *)
Definition point_for (p : TaskOp.Processor) (point : Z) : PointTask.t Z :=
  PointTask.mk
    (TaskOp.mk false false false false false false false p 1 1) point.
Definition scattered_slice : t Z :=
  mk MultiTask.blank 1 7 [point_for 3 0; point_for 12 1] 2 2 2.
Definition ten_per_space (p : TaskOp.Processor) : Z := p / 10.
Definition one_space (p : TaskOp.Processor) : Z := 0.

End SliceDistribution.

Module AtomicLocks.

Definition Reservation := Z.

(** [TaskOp::update_atomic_locks] (1143-1156) on the [atomic_locks] of
    the task. *)
Definition update_atomic_locks (lock : Reservation) (exclusive : bool)
    (atomic_locks : gmap Reservation bool) : gmap Reservation bool :=
  match atomic_locks !! lock with
  | Some held =>
      if negb held && exclusive then <[lock := true]> atomic_locks else atomic_locks
  | None => <[lock := exclusive]> atomic_locks
  end.

(** The calls made while the regions of a task are analysed, one after
    the other. *)
Definition update_all (requests : list (Reservation * bool))
    (atomic_locks : gmap Reservation bool) : gmap Reservation bool :=
  foldl (λ locks request, update_atomic_locks request.1 request.2 locks)
    atomic_locks requests.

(** *** Vocabulary for the properties *)

(** Some request for [lock] asks for it exclusively. *)
Definition asked_exclusive (lock : Reservation) (requests : list (Reservation * bool))
    : bool :=
  existsb (λ request, bool_decide (request.1 = lock) && request.2) requests.

End AtomicLocks.
(** ** The completion of a slice: its points, its own completion, and
    the report to the index launch *)

Module SliceCompletion.
Import SliceTask SliceReports.

(** What a slice is told while it completes. *)
Inductive Event :=
  | ChildComplete    (* a point calls record_child_complete *)
  | OwnComplete.     (* the operation calls trigger_complete *)

#[global] Instance Event_eq_dec : EqDecision Event.
Proof. solve_decision. Defined.

Section completion.
Context {DomainPoint : Type}.
Variable DEBUG_LEGION : bool.

Definition set_base (b : TaskOp.t) (s : t DomainPoint) : t DomainPoint :=
  set_multi (MultiTask.set_base b (multi s)) s.

(** [SliceTask::trigger_task_complete] (8986-8990) calls
    [trigger_slice_complete], which for a slice that is not remote
    reports to the index launch. *)
Definition trigger_task_complete (s : t DomainPoint) (index : IndexTask.t DomainPoint)
    : result (IndexTask.t DomainPoint * list IndexTask.Call) :=
  trigger_slice_complete DEBUG_LEGION s index.

(** One event: [record_child_complete] goes on to
    [TaskOp::trigger_children_complete] when it needs the trigger, and
    that function and [TaskOp::trigger_complete] go on to
    [trigger_task_complete] when the other flag is set. Returns the
    slice, the index launch and the calls the index launch makes. *)
Definition step (e : Event) (s : t DomainPoint) (index : IndexTask.t DomainPoint)
    : result (t DomainPoint * IndexTask.t DomainPoint * list IndexTask.Call) :=
  match e with
  | ChildComplete =>
      '(s1, needs_trigger) ← record_child_complete DEBUG_LEGION s;
      if needs_trigger : bool then
        '(b, task_complete) ←
          TaskOp.trigger_children_complete DEBUG_LEGION (MultiTask.base (multi s1));
        let s2 := set_base b s1 in
        if task_complete : bool then
          '(index', calls) ← trigger_task_complete s2 index;
          mret (s2, index', calls)
        else mret (s2, index, [])
      else mret (s1, index, [])
  | OwnComplete =>
      '(b, task_complete) ← TaskOp.trigger_complete DEBUG_LEGION (MultiTask.base (multi s));
      let s1 := set_base b s in
      if task_complete : bool then
        '(index', calls) ← trigger_task_complete s1 index;
        mret (s1, index', calls)
      else mret (s1, index, [])
  end.

Fixpoint run (events : list Event) (s : t DomainPoint) (index : IndexTask.t DomainPoint)
    (calls : list IndexTask.Call)
    : result (t DomainPoint * IndexTask.t DomainPoint * list IndexTask.Call) :=
  match events with
  | [] => Ok (s, index, calls)
  | e :: events' =>
      '(s', index', c) ← step e s index;
      run events' s' index' (calls ++ c)
  end.

(** *** Vocabulary for the properties *)

(** What the index launch has become and the calls it made. *)
Definition seen_by_index
    (r : result (t DomainPoint * IndexTask.t DomainPoint * list IndexTask.Call))
    : result (IndexTask.t DomainPoint * list IndexTask.Call) :=
  (λ x, (x.1.2, x.2)) <$> r.

(** A slice that has enumerated its points, none of which has
    completed, and that has not been told of its own completion. *)
Definition awaiting_completion (s : t DomainPoint) : Prop :=
  points s ≠ []
  ∧ Z.of_nat (length (points s)) < 2 ^ 32
  ∧ num_uncomplete_points s = Z.of_nat (length (points s))
  ∧ MultiTask.children_complete_invoked (multi s) = false
  ∧ TaskOp.complete_received (MultiTask.base (multi s)) = false
  ∧ TaskOp.commit_received (MultiTask.base (multi s)) = false
  ∧ TaskOp.children_complete (MultiTask.base (multi s)) = false
  ∧ TaskOp.children_commit (MultiTask.base (multi s)) = false.

(** A slice of which [reported] points have completed, and that has been
    [told] of its own completion or not. *)
Definition completing (reported : nat) (told : bool) (s : t DomainPoint) : Prop :=
  let n := length (points s) in
  (0 < n)%nat ∧ (reported ≤ n)%nat
  ∧ Z.of_nat n < 2 ^ 32
  ∧ num_uncomplete_points s = Z.of_nat n - Z.of_nat reported
  ∧ MultiTask.children_complete_invoked (multi s) = bool_decide (reported = n)
  ∧ TaskOp.complete_received (MultiTask.base (multi s)) = told
  ∧ TaskOp.commit_received (MultiTask.base (multi s)) = false
  ∧ TaskOp.children_complete (MultiTask.base (multi s)) = bool_decide (reported = n)
  ∧ TaskOp.children_commit (MultiTask.base (multi s)) = false.

(** Every point completes once and the slice is told once of its own
    completion, in any order. *)
Definition completes_once (s : t DomainPoint) (events : list Event) : Prop :=
  events ≡ₚ OwnComplete :: replicate (length (points s)) ChildComplete.
End completion.

End SliceCompletion.
(** ** From the slicing of a launch to the mapping of its points *)

Module LaunchMapping.
Import Launch.

Section pipeline.
Context {DomainPoint : Type}.
Variable DEBUG_LEGION : bool.
Variable runtime : Runtime DomainPoint.
Variable is_recording : bool.
Variable recycled_multi : MultiTask.t.
Variable recycled_task : TaskOp.t.

(** Every terminal slice maps and launches its points
    ([SliceTask::map_and_launch]); the slices are kept, with the points
    they have enumerated. *)
Fixpoint map_and_launch_all (slices : list (SliceTask.t DomainPoint))
    : result (list (SliceTask.t DomainPoint)) :=
  match slices with
  | [] => Ok []
  | s :: slices' =>
      '(s', _) ← SliceTask.map_and_launch DEBUG_LEGION runtime recycled_task s;
      rest ← map_and_launch_all slices';
      mret (s' :: rest)
  end.

(** *** Vocabulary for the properties *)

(** The terminal slices below a slice have positive denominators. *)
Definition positive_denominators (script : MapperScript) : Prop :=
  ∀ this leaves,
    decompose DEBUG_LEGION runtime is_recording recycled_multi script this = Ok leaves →
    0 < denominator_of this →
    fits script (denominator_of this) = true →
    Forall (λ s, 0 < SliceTask.denominator s) leaves.

(** What [map_and_launch] makes of a terminal slice. *)
Definition launched_from (leaf s : SliceTask.t DomainPoint) : Prop :=
  SliceTask.denominator s = SliceTask.denominator leaf
  ∧ PointTask.index_point <$> SliceTask.points s = leaf_points runtime leaf
  ∧ SliceTask.num_unmapped_points s
    = wrap_u32 (Z.of_nat (length (SliceTask.points s))).

(** No slice has reported to the index launch. *)
Definition unreported (index : IndexTask.t DomainPoint) : Prop :=
  IndexTask.progress index = IndexTask.mkProgress (Fraction.make 0 1) 0 0 0 0.
End pipeline.

End LaunchMapping.
(** ** The commit of a slice: its points, its own commit, and the report
    to the index launch *)

Module SliceCommit.
Import SliceTask SliceReports.

(** What a slice is told while it commits. *)
Inductive Event :=
  | ChildCommitted   (* a point calls record_child_committed *)
  | OwnCommit.       (* the operation calls trigger_commit *)

#[global] Instance Event_eq_dec : EqDecision Event.
Proof. solve_decision. Defined.

Section commit.
Context {DomainPoint : Type}.
Variable DEBUG_LEGION : bool.

(** [SliceTask::trigger_task_commit] (8993-8997) calls
    [trigger_slice_commit], which for a slice that is not remote reports
    to the index launch. *)
Definition trigger_task_commit (s : t DomainPoint) (index : IndexTask.t DomainPoint)
    : result (IndexTask.t DomainPoint * list IndexTask.Call) :=
  trigger_slice_commit DEBUG_LEGION s index.

(** One event: [record_child_committed] goes on to
    [TaskOp::trigger_children_committed] when it needs the trigger, and
    that function and [TaskOp::trigger_commit] go on to
    [trigger_task_commit] when the other flag is set. Returns the slice,
    the index launch and the calls the index launch makes. *)
Definition step (e : Event) (s : t DomainPoint) (index : IndexTask.t DomainPoint)
    : result (t DomainPoint * IndexTask.t DomainPoint * list IndexTask.Call) :=
  match e with
  | ChildCommitted =>
      '(s1, needs_trigger) ← record_child_committed DEBUG_LEGION s;
      if needs_trigger : bool then
        '(b, task_commit) ←
          TaskOp.trigger_children_committed DEBUG_LEGION (MultiTask.base (multi s1));
        let s2 := SliceCompletion.set_base b s1 in
        if task_commit : bool then
          '(index', calls) ← trigger_task_commit s2 index;
          mret (s2, index', calls)
        else mret (s2, index, [])
      else mret (s1, index, [])
  | OwnCommit =>
      '(b, task_commit) ← TaskOp.trigger_commit DEBUG_LEGION (MultiTask.base (multi s));
      let s1 := SliceCompletion.set_base b s in
      if task_commit : bool then
        '(index', calls) ← trigger_task_commit s1 index;
        mret (s1, index', calls)
      else mret (s1, index, [])
  end.

Fixpoint run (events : list Event) (s : t DomainPoint) (index : IndexTask.t DomainPoint)
    (calls : list IndexTask.Call)
    : result (t DomainPoint * IndexTask.t DomainPoint * list IndexTask.Call) :=
  match events with
  | [] => Ok (s, index, calls)
  | e :: events' =>
      '(s', index', c) ← step e s index;
      run events' s' index' (calls ++ c)
  end.

(** *** Vocabulary for the properties *)

(** A slice that has completed, of which [reported] points have
    committed, and that has been [told] of its own commit or not. *)
Definition committing (reported : nat) (told : bool) (s : t DomainPoint) : Prop :=
  let n := length (points s) in
  (0 < n)%nat ∧ (reported ≤ n)%nat
  ∧ Z.of_nat n < 2 ^ 32
  ∧ num_uncommitted_points s = Z.of_nat n - Z.of_nat reported
  ∧ MultiTask.children_commit_invoked (multi s) = bool_decide (reported = n)
  ∧ TaskOp.complete_received (MultiTask.base (multi s)) = true
  ∧ TaskOp.children_complete (MultiTask.base (multi s)) = true
  ∧ TaskOp.commit_received (MultiTask.base (multi s)) = told
  ∧ TaskOp.children_commit (MultiTask.base (multi s)) = bool_decide (reported = n).

(** A slice that has completed, none of whose points has committed, and
    that has not been told of its own commit. *)
Definition awaiting_commit (s : t DomainPoint) : Prop :=
  points s ≠ []
  ∧ Z.of_nat (length (points s)) < 2 ^ 32
  ∧ num_uncommitted_points s = Z.of_nat (length (points s))
  ∧ MultiTask.children_commit_invoked (multi s) = false
  ∧ TaskOp.complete_received (MultiTask.base (multi s)) = true
  ∧ TaskOp.children_complete (MultiTask.base (multi s)) = true
  ∧ TaskOp.commit_received (MultiTask.base (multi s)) = false
  ∧ TaskOp.children_commit (MultiTask.base (multi s)) = false.

(** Every point commits once and the slice is told once of its own
    commit, in any order. *)
Definition commits_once (s : t DomainPoint) (events : list Event) : Prop :=
  events ≡ₚ OwnCommit :: replicate (length (points s)) ChildCommitted.
End commit.

(** A slice of two points that has completed. *)
Definition completed_slice_task : t Z :=
  mk (MultiTask.mk (TaskOp.mk true false true false false false false 1 1 1)
        (Launch.example_space 1) (Launch.example_space 1) true 0 false true false)
     1 7 [Launch.example_point 0; Launch.example_point 1] 0 0 2.

End SliceCommit.

(** * Properties *)

Lemma debug_assert_true dbg : debug_assert dbg true = Ok ().
Proof. by destruct dbg. Qed.

Lemma debug_assert_release b : debug_assert false b = Ok ().
Proof. done. Qed.

Lemma debug_assert_ok dbg b : debug_assert dbg b = Ok () ↔ dbg = false ∨ b = true.
Proof. destruct dbg, b; cbn; intuition congruence. Qed.

Lemma wrap_ll_small z : - 2 ^ 63 ≤ z < 2 ^ 63 → wrap_ll z = z.
Proof. intros ?. unfold wrap_ll. rewrite Z.mod_small; lia. Qed.

Lemma wrap_size_t_small z : 0 ≤ z < 2 ^ 64 → wrap_size_t z = z.
Proof. intros ?. unfold wrap_size_t. rewrite Z.mod_small; lia. Qed.

Lemma result_bind_ok {A B} (m : result A) (f : A → result B) b :
  m ≫= f = Ok b ↔ ∃ a, m = Ok a ∧ f a = Ok b.
Proof.
  destruct m; cbn; (split; [intros ?; eauto; discriminate|intros (? & ? & ?); congruence]).
Qed.

(** ** The resource tracker *)

Module ResourceTrackerFacts.
Import ResourceTracker.

Section loops.
Context `{Countable K} {V : Type}.
Implicit Types (l : list (K * V)) (m : gmap K V) (xs : list K) (s : gset K).

Lemma std_map_insert_union it m : std_map_insert it m = m ∪ {[it.1 := it.2]}.
Proof.
  unfold std_map_insert. apply map_eq. intros k.
  destruct (m !! it.1) as [v|] eqn:Hm.
  - rewrite lookup_union. destruct (decide (k = it.1)) as [->|].
    + by rewrite Hm, lookup_singleton_eq.
    + rewrite lookup_singleton_ne by done. by destruct (m !! k).
  - rewrite lookup_union. destruct (decide (k = it.1)) as [->|].
    + by rewrite lookup_insert_eq, Hm, lookup_singleton_eq.
    + rewrite lookup_insert_ne, lookup_singleton_ne by done. by destruct (m !! k).
Qed.

Lemma assign_all_ok dbg l m :
  dbg = false ∨ (NoDup l.*1 ∧ ∀ k, k ∈ l.*1 → m !! k = None) →
  NoDup l.*1 →
  assign_all dbg l m = Ok (list_to_map l ∪ m).
Proof.
  revert m. induction l as [|[k v] l IH]; intros m Hd Hnd;
    cbn [assign_all mbind result_bind fst snd].
  { by rewrite list_to_map_nil, (left_id_L ∅ (∪)). }
  rewrite fmap_cons in Hnd. apply NoDup_cons in Hnd as [Hk Hnd].
  assert (debug_assert dbg (bool_decide (m !! k = None)) = Ok ()) as ->.
  { apply debug_assert_ok. destruct Hd as [?|[_ Hd]]; [by left|right].
    apply bool_decide_eq_true, Hd. rewrite fmap_cons. set_solver. }
  cbn [mbind result_bind fst snd]. rewrite IH; [| |done].
  - f_equal. rewrite list_to_map_cons.
    rewrite <-insert_union_r, insert_union_l; [done|].
    by apply not_elem_of_list_to_map_1.
  - destruct Hd as [?|[_ Hd]]; [by left|right]. split; [done|].
    intros k' Hk'. rewrite lookup_insert_ne by set_solver. apply Hd.
    rewrite fmap_cons. set_solver.
Qed.

Lemma assign_all_fail l m k :
  k ∈ l.*1 → is_Some (m !! k) → assign_all true l m = AssertFailed.
Proof.
  revert m. induction l as [|[k' v] l IH]; intros m Hk Hm; cbn in *.
  { set_solver. }
  destruct (m !! k') as [w|] eqn:Hk'; [done|]. cbn.
  apply elem_of_cons in Hk as [->|Hk]; [rewrite Hk' in Hm; by destruct Hm|].
  apply IH; [done|]. rewrite lookup_insert_ne; [done|]. intros ->.
  rewrite Hk' in Hm. by destruct Hm.
Qed.

Lemma insert_all_ok dbg l m :
  dbg = false ∨ (∀ k, k ∈ l.*1 → m !! k = None) →
  NoDup l.*1 →
  insert_all dbg l m = Ok (m ∪ list_to_map l).
Proof.
  revert m. induction l as [|[k v] l IH]; intros m Hd Hnd;
    cbn [insert_all mbind result_bind fst snd].
  { by rewrite list_to_map_nil, (right_id_L ∅ (∪)). }
  rewrite fmap_cons in Hnd. apply NoDup_cons in Hnd as [Hk Hnd].
  assert (debug_assert dbg (bool_decide (m !! k = None)) = Ok ()) as ->.
  { apply debug_assert_ok. destruct Hd as [?|Hd]; [by left|right].
    apply bool_decide_eq_true, Hd. rewrite fmap_cons. set_solver. }
  cbn [mbind result_bind fst snd]. rewrite IH; [| |done].
  - f_equal. rewrite std_map_insert_union, list_to_map_cons.
    by rewrite <-(assoc_L (∪)), <-insert_union_singleton_l.
  - destruct Hd as [?|Hd]; [by left|right].
    intros k' Hk'. rewrite std_map_insert_union, lookup_union.
    rewrite lookup_singleton_ne by set_solver.
    rewrite (Hd k') by (rewrite fmap_cons; set_solver). done.
Qed.

Lemma insert_all_fail l m k :
  k ∈ l.*1 → is_Some (m !! k) → insert_all true l m = AssertFailed.
Proof.
  revert m. induction l as [|[k' v] l IH]; intros m Hk Hm; cbn in *.
  { set_solver. }
  destruct (m !! k') as [w|] eqn:Hk'; [done|]. cbn.
  apply elem_of_cons in Hk as [->|Hk]; [rewrite Hk' in Hm; by destruct Hm|].
  apply IH; [done|]. rewrite std_map_insert_union, lookup_union.
  destruct Hm as [x ->]. by destruct ({[(k', v).1 := (k', v).2]} !! k).
Qed.

Lemma set_insert_all_union xs s : set_insert_all xs s = list_to_set xs ∪ s.
Proof.
  revert s. induction xs as [|x xs IH]; intros s; cbn.
  - by rewrite (left_id_L ∅ (∪)).
  - rewrite IH. set_solver.
Qed.

Lemma set_insert_all_checked_ok dbg xs s :
  dbg = false ∨ (NoDup xs ∧ ∀ x, x ∈ xs → x ∉ s) →
  set_insert_all_checked dbg xs s = Ok (list_to_set xs ∪ s).
Proof.
  revert s. induction xs as [|x xs IH]; intros s Hd; cbn.
  { by rewrite (left_id_L ∅ (∪)). }
  assert (debug_assert dbg (bool_decide (x ∉ s)) = Ok ()) as ->.
  { apply debug_assert_ok. destruct Hd as [?|[_ Hd]]; [by left|right].
    apply bool_decide_eq_true, Hd. set_solver. }
  cbn. rewrite IH.
  - f_equal. set_solver.
  - destruct Hd as [?|[Hnd Hd]]; [by left|right].
    apply NoDup_cons in Hnd as [Hx Hnd]. split; [done|].
    intros y Hy. specialize (Hd y). set_solver.
Qed.

Lemma set_insert_all_checked_fail xs s x :
  x ∈ xs → x ∈ s → set_insert_all_checked true xs s = AssertFailed.
Proof.
  revert s. induction xs as [|y xs IH]; intros s Hx Hs; cbn.
  { set_solver. }
  destruct (decide (y ∈ s)) as [Hy|Hy].
  - rewrite bool_decide_eq_false_2; [done|]. by intros ?.
  - rewrite bool_decide_eq_true_2 by done. cbn. apply IH; set_solver.
Qed.
End loops.



Lemma not_disjoint_witness `{Countable A} (X Y : gset A) :
  ¬ X ## Y → ∃ x, x ∈ X ∧ x ∈ Y.
Proof.
  intros Hd. destruct (decide (X ∩ Y = ∅)) as [He|Hne].
  - exfalso. by apply Hd, disjoint_intersection_L.
  - apply set_choose_L in Hne as [x Hx]. exists x. set_solver.
Qed.

Lemma unless_empty_regions dbg (src tgt : t) :
  dbg = false ∨ dom (created_regions src) ## dom (created_regions tgt) →
  unless_empty (bool_decide (created_regions src = ∅))
    (register_region_creations dbg) (created_regions src) tgt
  = Ok (set_created_regions (created_regions src ∪ created_regions tgt) tgt).
Proof.
  intros Hd. unfold unless_empty. case_bool_decide as He.
  - rewrite He, (left_id_L ∅ (∪)). by destruct tgt.
  - unfold register_region_creations.
    rewrite assign_all_ok, list_to_map_to_list; [done| |apply NoDup_fst_map_to_list].
    destruct Hd as [?|Hd]; [by left|right]. split; [apply NoDup_fst_map_to_list|].
    intros k Hk. apply not_elem_of_dom. intros ?. apply (Hd k); [|done].
    apply elem_of_dom. apply list_elem_of_fmap in Hk as ([k' v] & -> & Hk).
    apply elem_of_map_to_list in Hk. eauto.
Qed.

Lemma unless_empty_regions_fail (src tgt : t) :
  ¬ dom (created_regions src) ## dom (created_regions tgt) →
  unless_empty (bool_decide (created_regions src = ∅))
    (register_region_creations true) (created_regions src) tgt = AssertFailed.
Proof.
  intros Hd. unfold unless_empty. case_bool_decide as He.
  - exfalso. apply Hd. rewrite He. set_solver.
  - apply not_disjoint_witness in Hd as (k & Hs & Ht).
    unfold register_region_creations.
    rewrite (assign_all_fail _ _ k); [done| |by apply elem_of_dom].
    apply elem_of_dom in Hs as [v Hv]. apply list_elem_of_fmap.
    exists (k, v). split; [done|]. by apply elem_of_map_to_list.
Qed.

Lemma unless_empty_fields dbg (src tgt : t) :
  dbg = false ∨ dom (created_fields src) ## dom (created_fields tgt) →
  unless_empty (bool_decide (created_fields src = ∅))
    (register_field_creations dbg) (created_fields src) tgt
  = Ok (set_created_fields (created_fields tgt ∪ created_fields src) tgt).
Proof.
  intros Hd. unfold unless_empty. case_bool_decide as He.
  - rewrite He, (right_id_L ∅ (∪)). by destruct tgt.
  - unfold register_field_creations.
    rewrite insert_all_ok, list_to_map_to_list; [done| |apply NoDup_fst_map_to_list].
    destruct Hd as [?|Hd]; [by left|right].
    intros k Hk. apply not_elem_of_dom. intros ?. apply (Hd k); [|done].
    apply elem_of_dom. apply list_elem_of_fmap in Hk as ([k' v] & -> & Hk).
    apply elem_of_map_to_list in Hk. eauto.
Qed.

Lemma unless_empty_fields_fail (src tgt : t) :
  ¬ dom (created_fields src) ## dom (created_fields tgt) →
  unless_empty (bool_decide (created_fields src = ∅))
    (register_field_creations true) (created_fields src) tgt = AssertFailed.
Proof.
  intros Hd. unfold unless_empty. case_bool_decide as He.
  - exfalso. apply Hd. rewrite He. set_solver.
  - apply not_disjoint_witness in Hd as (k & Hs & Ht).
    unfold register_field_creations.
    rewrite (insert_all_fail _ _ k); [done| |by apply elem_of_dom].
    apply elem_of_dom in Hs as [v Hv]. apply list_elem_of_fmap.
    exists (k, v). split; [done|]. by apply elem_of_map_to_list.
Qed.

Section set_groups.
Context `{Countable A}.
Variable get : t → gset A.
Variable put : gset A → t → t.
Hypothesis put_get : ∀ l, put (get l) l = l.

Lemma unless_empty_created_set dbg (src tgt : t) :
  dbg = false ∨ get src ## get tgt →
  unless_empty (bool_decide (get src = ∅))
    (λ c s, c' ← set_insert_all_checked dbg (elements c) (get s); mret (put c' s))
    (get src) tgt
  = Ok (put (get src ∪ get tgt) tgt).
Proof.
  intros Hd. unfold unless_empty. case_bool_decide as He.
  - by rewrite He, (left_id_L ∅ (∪)), put_get.
  - rewrite set_insert_all_checked_ok, list_to_set_elements_L; [done|].
    destruct Hd as [?|Hd]; [by left|right]. split; [apply NoDup_elements|].
    intros x Hx ?. apply (Hd x); [|done]. by apply elem_of_elements.
Qed.

Lemma unless_empty_created_set_fail (src tgt : t) :
  ¬ get src ## get tgt →
  unless_empty (bool_decide (get src = ∅))
    (λ c s, c' ← set_insert_all_checked true (elements c) (get s); mret (put c' s))
    (get src) tgt
  = AssertFailed.
Proof.
  intros Hd. unfold unless_empty. case_bool_decide as He.
  - exfalso. apply Hd. rewrite He. set_solver.
  - apply not_disjoint_witness in Hd as (k & Hs & Ht).
    rewrite (set_insert_all_checked_fail _ _ k); [done| |done].
    by apply elem_of_elements.
Qed.

Lemma unless_empty_deleted_set (src tgt : t) :
  unless_empty (bool_decide (get src = ∅))
    (λ c s, mret (put (set_insert_all (elements c) (get s)) s)) (get src) tgt
  = Ok (put (get src ∪ get tgt) tgt).
Proof.
  unfold unless_empty. case_bool_decide as He.
  - by rewrite He, (left_id_L ∅ (∪)), put_get.
  - by rewrite set_insert_all_union, list_to_set_elements_L.
Qed.
End set_groups.

Ltac ledger_side Hd :=
  first [ by intros []
        | destruct Hd as [?|(?&?&?&?&?)]; [by left|right];
          match goal with src : t, tgt : t |- _ => by destruct src, tgt end ].

Ltac unfold_slice_ops :=
  unfold return_privilege_state, SliceTask_ops;
  cbn [op_region_creations op_region_deletions op_field_creations op_field_deletions
       op_field_space_creations op_field_space_deletions op_index_space_creations
       op_index_space_deletions op_index_partition_creations
       op_index_partition_deletions];
  unfold register_region_deletions, register_field_deletions,
    register_field_space_creations, register_field_space_deletions,
    register_index_space_creations, register_index_space_deletions,
    register_index_partition_creations, register_index_partition_deletions.

Lemma return_privilege_state_merge dbg src tgt :
  dbg = false ∨ created_disjoint src tgt →
  return_privilege_state (SliceTask_ops dbg) src tgt = Ok (merge src tgt).
Proof.
  intros Hd. unfold_slice_ops.
  rewrite unless_empty_regions by ledger_side Hd.
  cbn [mbind result_bind].
  rewrite (unless_empty_deleted_set deleted_regions set_deleted_regions)
    by ledger_side Hd.
  cbn [mbind result_bind].
  rewrite unless_empty_fields by ledger_side Hd.
  cbn [mbind result_bind].
  rewrite (unless_empty_deleted_set deleted_fields set_deleted_fields)
    by ledger_side Hd.
  cbn [mbind result_bind].
  rewrite (unless_empty_created_set created_field_spaces set_created_field_spaces)
    by ledger_side Hd.
  cbn [mbind result_bind].
  rewrite (unless_empty_deleted_set deleted_field_spaces set_deleted_field_spaces)
    by ledger_side Hd.
  cbn [mbind result_bind].
  rewrite (unless_empty_created_set created_index_spaces set_created_index_spaces)
    by ledger_side Hd.
  cbn [mbind result_bind].
  rewrite (unless_empty_deleted_set deleted_index_spaces set_deleted_index_spaces)
    by ledger_side Hd.
  cbn [mbind result_bind].
  rewrite (unless_empty_created_set created_index_partitions
             set_created_index_partitions) by ledger_side Hd.
  cbn [mbind result_bind].
  rewrite (unless_empty_deleted_set deleted_index_partitions
             set_deleted_index_partitions) by ledger_side Hd.
  by destruct src, tgt.
Qed.

Lemma disjoint_or_not `{Countable A} (X Y : gset A) : X ## Y ∨ ¬ X ## Y.
Proof.
  destruct (decide (X ∩ Y = ∅)) as [He|Hne].
  - left. by apply disjoint_intersection_L.
  - right. intros Hd. by apply Hne, disjoint_intersection_L.
Qed.

Lemma return_privilege_state_duplicate src tgt :
  ¬ created_disjoint src tgt →
  return_privilege_state (SliceTask_ops true) src tgt = AssertFailed.
Proof.
  intros Hd. unfold_slice_ops.
  destruct (disjoint_or_not (dom (created_regions src)) (dom (created_regions tgt))) as [H1|H1].
  2:{ rewrite unless_empty_regions_fail; [reflexivity|exact H1]. }
  rewrite unless_empty_regions by auto. cbn [mbind result_bind].
  rewrite (unless_empty_deleted_set deleted_regions set_deleted_regions)
    by (by intros []).
  cbn [mbind result_bind].
  destruct (disjoint_or_not (dom (created_fields src)) (dom (created_fields tgt))) as [H2|H2].
  2:{ rewrite unless_empty_fields_fail; [reflexivity|]. destruct src, tgt; exact H2. }
  rewrite unless_empty_fields by (right; by destruct src, tgt). cbn [mbind result_bind].
  rewrite (unless_empty_deleted_set deleted_fields set_deleted_fields)
    by (by intros []).
  cbn [mbind result_bind].
  destruct (disjoint_or_not (created_field_spaces src) (created_field_spaces tgt)) as [H3|H3].
  2:{ rewrite (unless_empty_created_set_fail created_field_spaces
                 set_created_field_spaces); [reflexivity|by intros []|].
      destruct src, tgt; exact H3. }
  rewrite (unless_empty_created_set created_field_spaces set_created_field_spaces);
    [|by intros []|right; by destruct src, tgt].
  cbn [mbind result_bind].
  rewrite (unless_empty_deleted_set deleted_field_spaces set_deleted_field_spaces)
    by (by intros []).
  cbn [mbind result_bind].
  destruct (disjoint_or_not (created_index_spaces src) (created_index_spaces tgt)) as [H4|H4].
  2:{ rewrite (unless_empty_created_set_fail created_index_spaces
                 set_created_index_spaces); [reflexivity|by intros []|].
      destruct src, tgt; exact H4. }
  rewrite (unless_empty_created_set created_index_spaces set_created_index_spaces);
    [|by intros []|right; by destruct src, tgt].
  cbn [mbind result_bind].
  rewrite (unless_empty_deleted_set deleted_index_spaces set_deleted_index_spaces)
    by (by intros []).
  cbn [mbind result_bind].
  destruct (disjoint_or_not (created_index_partitions src) (created_index_partitions tgt)) as [H5|H5].
  2:{ rewrite (unless_empty_created_set_fail created_index_partitions
                 set_created_index_partitions); [reflexivity|by intros []|].
      destruct src, tgt; exact H5. }
  exfalso. apply Hd. by repeat split.
Qed.

Lemma created_disjoint_sym a b : created_disjoint a b → created_disjoint b a.
Proof. unfold created_disjoint. intros (?&?&?&?&?). by repeat split. Qed.

Lemma created_disjoint_merge p q acc :
  created_disjoint p q → created_disjoint p acc → created_disjoint p (merge q acc).
Proof.
  unfold created_disjoint, merge. cbn.
  intros (?&?&?&?&?) (?&?&?&?&?). rewrite !dom_union_L.
  repeat split; set_solver.
Qed.

Lemma created_keys_merge p acc :
  created_keys (merge p acc) = keys_union (created_keys p) (created_keys acc).
Proof.
  unfold created_keys, keys_union, merge. cbn. rewrite !dom_union_L.
  by rewrite (comm_L (∪) (dom (created_fields acc))).
Qed.

Lemma points_complete_merge {T} dbg (parent_ops : Ops T) ps slice (parent_ctx : T) :
  dbg = false ∨ pairwise_created_disjoint (slice :: ps) →
  points_complete dbg parent_ops true ps slice parent_ctx
  = Ok (merge_all slice ps, parent_ctx).
Proof.
  revert slice. induction ps as [|p ps IH]; intros slice Hd; [done|].
  cbn [points_complete]. unfold return_privileges.
  rewrite return_privilege_state_merge.
  - cbn [mbind result_bind mret result_ret]. rewrite IH; [done|].
    destruct Hd as [?|[Hs [Hp Hps]]]; [by left|right].
    apply Forall_cons in Hs as [Hsp Hs]. split; [|done].
    apply Forall_forall. intros q Hq. apply created_disjoint_sym.
    apply created_disjoint_merge; apply created_disjoint_sym.
    + by eapply Forall_forall in Hp.
    + by eapply Forall_forall in Hs.
  - destruct Hd as [?|[Hs _]]; [by left|right].
    apply Forall_cons in Hs as [Hsp _]. by apply created_disjoint_sym.
Qed.

(** The points of a slice that is not remote leave its ledger as it
    is. *)
Lemma points_complete_local {T} dbg (parent_ops : Ops T) ps :
  ∀ slice (parent_ctx : T) slice' parent_ctx',
    points_complete dbg parent_ops false ps slice parent_ctx = Ok (slice', parent_ctx') →
    slice' = slice.
Proof.
  induction ps as [|p ps IH]; intros slice parent_ctx slice' parent_ctx' Hrun.
  { by injection Hrun as <- <-. }
  cbn [points_complete] in Hrun. unfold return_privileges in Hrun.
  apply result_bind_ok in Hrun as ([slice1 parent1] & Hp & Hrun).
  apply result_bind_ok in Hp as (parent2 & _ & [= <- <-]).
  by eapply IH.
Qed.

Lemma created_keys_merge_all slice ps :
  created_keys (merge_all slice ps)
  = foldl (λ ks p, keys_union (created_keys p) ks) (created_keys slice) ps.
Proof.
  revert slice. induction ps as [|p ps IH]; intros slice; [done|].
  cbn. by rewrite IH, created_keys_merge.
Qed.

Lemma merge_keeps_entries p acc :
  created_disjoint p acc →
  (created_regions p ⊆ created_regions (merge p acc)
   ∧ created_fields p ⊆ created_fields (merge p acc))
  ∧ (created_regions acc ⊆ created_regions (merge p acc)
     ∧ created_fields acc ⊆ created_fields (merge p acc)).
Proof.
  intros (Hr & Hf & _). apply map_disjoint_dom in Hr, Hf. cbn.
  repeat split.
  - apply map_union_subseteq_l.
  - by apply map_union_subseteq_r.
  - by apply map_union_subseteq_r.
  - apply map_union_subseteq_l.
Qed.

Lemma merge_all_keeps_entries slice ps p :
  pairwise_created_disjoint (slice :: ps) →
  p ∈ slice :: ps →
  created_regions p ⊆ created_regions (merge_all slice ps)
  ∧ created_fields p ⊆ created_fields (merge_all slice ps).
Proof.
  revert slice p. induction ps as [|q ps IH]; intros slice p Hd Hp.
  { apply list_elem_of_singleton in Hp as ->. done. }
  destruct Hd as [Hs [Hq Hps]]. apply Forall_cons in Hs as [Hsq Hs].
  cbn [merge_all foldl].
  assert (pairwise_created_disjoint (merge q slice :: ps)) as Hd'.
  { split; [|done]. apply Forall_forall. intros r Hr. apply created_disjoint_sym.
    apply created_disjoint_merge; apply created_disjoint_sym.
    - by eapply Forall_forall in Hq.
    - by eapply Forall_forall in Hs. }
  pose proof (merge_keeps_entries q slice (created_disjoint_sym _ _ Hsq))
    as [[Hq1 Hq2] [Hs1 Hs2]].
  pose proof (IH (merge q slice) (merge q slice) Hd' ltac:(left)) as [Hm1 Hm2].
  apply elem_of_cons in Hp as [->|Hp]; [|apply elem_of_cons in Hp as [->|Hp]].
  - split; etrans; eauto.
  - split; etrans; eauto.
  - apply (IH (merge q slice)); [done|]. by right.
Qed.

Lemma merge_swap x y acc :
  created_disjoint x y → merge y (merge x acc) = merge x (merge y acc).
Proof.
  intros (Hr & Hf & _). apply map_disjoint_dom in Hr, Hf.
  unfold merge. cbn. f_equal.
  - by rewrite !(assoc_L (∪)), (map_union_comm (created_regions y)).
  - by rewrite <-!(assoc_L (∪)), (map_union_comm (created_fields x)).
  - set_solver.
  - set_solver.
  - set_solver.
  - set_solver.
  - set_solver.
  - set_solver.
  - set_solver.
  - set_solver.
Qed.

Lemma pairwise_created_disjoint_perm ps ps' :
  ps ≡ₚ ps' → pairwise_created_disjoint ps → pairwise_created_disjoint ps'.
Proof.
  induction 1 as [|x l l' Hl IH|x y l|l1 l2 l3 H12 IH12 H23 IH23]; [done| | |auto].
  - intros [Hx Hp]. split; [by rewrite <-Hl|auto].
  - intros [Hy [Hx Hp]]. apply Forall_cons in Hy as [Hyx Hy].
    split; [|split; [done|done]].
    apply Forall_cons. split; [by apply created_disjoint_sym|done].
Qed.

Lemma merge_all_perm slice ps ps' :
  ps ≡ₚ ps' → pairwise_created_disjoint ps → merge_all slice ps = merge_all slice ps'.
Proof.
  intros Hp. revert slice.
  induction Hp as [|x l l' Hl IH|x y l|l1 l2 l3 H12 IH12 H23 IH23]; intros slice Hd.
  - done.
  - destruct Hd as [_ Hd]. cbn [merge_all foldl]. by apply IH.
  - destruct Hd as [Hy _]. apply Forall_cons in Hy as [Hyx _].
    cbn [merge_all foldl]. f_equal. by apply merge_swap.
  - rewrite IH12 by done. apply IH23. by eapply pairwise_created_disjoint_perm.
Qed.

(** *** The wire *)

Lemma result_bind_assoc {A B C} (m : result A) (f : A → result B) (g : B → result C) :
  (m ≫= f) ≫= g = m ≫= (λ a, f a ≫= g).
Proof. by destruct m. Qed.

Lemma result_bind_ret {A} (m : result A) : m ≫= Ok = m.
Proof. by destruct m. Qed.

Lemma read_loop_flat_map {A X} (item : reader X) (enc : X → list Token)
    (step : X → A → A) xs acc rest :
  (∀ x d, item (enc x ++ d) = Some (x, d)) →
  read_loop (length xs) item step acc (flat_map enc xs ++ rest)
  = Some (foldl (λ a x, step x a) acc xs, rest).
Proof.
  intros Hitem. revert acc. induction xs as [|x xs IH]; intros acc; [done|].
  cbn [length flat_map read_loop foldl]. rewrite <-(assoc_L (++)), Hitem. apply IH.
Qed.

Lemma foldl_set_insert `{Countable A} (xs : list A) (acc : gset A) :
  foldl (λ a x, {[x]} ∪ a) acc xs = list_to_set xs ∪ acc.
Proof.
  revert acc. induction xs as [|x xs IH]; intros acc; cbn.
  - by rewrite (left_id_L ∅ (∪)).
  - rewrite IH. set_solver.
Qed.

Lemma assign_all_release `{Countable K} {V} (l : list (K * V)) (acc : gmap K V) :
  assign_all false l acc = Ok (foldl (λ a (it : K * V), <[it.1 := it.2]> a) acc l).
Proof. revert acc. induction l as [|it l IH]; intros acc; [done|]. apply IH. Qed.

Lemma foldl_map_insert `{Countable K} {V} (l : list (K * V)) (acc : gmap K V) :
  NoDup l.*1 →
  foldl (λ a (it : K * V), <[it.1 := it.2]> a) acc l = list_to_map l ∪ acc.
Proof.
  intros Hnd.
  pose proof (assign_all_ok false l acc (or_introl eq_refl) Hnd) as Hok.
  rewrite assign_all_release in Hok. by injection Hok.
Qed.

Lemma unpack_group_set {T} `{Countable A} (item : reader A) (enc : A → list Token)
    (reg : gset A → T → result T) (X : gset A) (tgt : result T) rest :
  (∀ x d, item (enc x ++ d) = Some (x, d)) →
  unpack_group item (λ x s, {[x]} ∪ s) ∅ reg tgt (pack_set enc (elements X) ++ rest)
  = Some (tgt ≫= unless_empty (bool_decide (X = ∅)) reg X, rest).
Proof.
  intros Hitem. unfold unpack_group, pack_set. cbn [app read_size].
  destruct (decide (X = ∅)) as [->|Hne].
  - rewrite elements_empty. cbn [length].
    rewrite bool_decide_eq_false_2 by lia.
    unfold unless_empty. rewrite bool_decide_eq_true_2 by done.
    by rewrite result_bind_ret.
  - assert (elements X ≠ []) as Hel by (by intros ?%elements_empty_inv%leibniz_equiv).
    rewrite bool_decide_eq_true_2 by (destruct (elements X); [done|cbn; lia]).
    rewrite Nat2Z.id, read_loop_flat_map by done.
    rewrite foldl_set_insert, (right_id_L ∅ (∪)), list_to_set_elements_L.
    unfold unless_empty. by rewrite (bool_decide_eq_false_2 (X = ∅)).
Qed.

Lemma flat_map_non_local {K} (enc : K * bool → list Token) (l : list (K * bool)) :
  flat_map (λ it : K * bool, if it.2 then [] else enc it) l
  = flat_map enc (filter (λ it : K * bool, it.2 = false) l).
Proof.
  induction l as [|[k b] l IH]; [done|]. cbn [flat_map]. rewrite filter_cons.
  destruct b; cbn.
  - case_decide; [done|]. done.
  - case_decide; [|done]. cbn. by rewrite IH.
Qed.

Lemma list_to_map_filter `{Countable K} {V} (P : K * V → Prop) `{∀ x, Decision (P x)}
    (m : gmap K V) :
  list_to_map (filter P (map_to_list m)) = filter P m.
Proof.
  apply map_eq. intros k. apply option_eq. intros v.
  rewrite <-elem_of_list_to_map, map_lookup_filter_Some.
  - rewrite list_elem_of_filter, elem_of_map_to_list. tauto.
  - eapply (NoDup_fmap_fst _). 
    + intros k' v1 v2 [_ H1]%list_elem_of_filter [_ H2]%list_elem_of_filter.
      apply elem_of_map_to_list in H1, H2. congruence.
    + apply NoDup_filter, NoDup_map_to_list.
Qed.

Lemma NoDup_fst_filter `{Countable K} {V} (P : K * V → Prop) `{∀ x, Decision (P x)}
    (m : gmap K V) :
  NoDup (filter P (map_to_list m)).*1.
Proof.
  eapply (NoDup_fmap_fst _).
  - intros k' v1 v2 [_ H1]%list_elem_of_filter [_ H2]%list_elem_of_filter.
    apply elem_of_map_to_list in H1, H2. congruence.
  - apply NoDup_filter, NoDup_map_to_list.
Qed.

Lemma filter_map_empty `{Countable K} {V} (P : K * V → Prop) `{∀ x, Decision (P x)}
    (m : gmap K V) :
  filter P m = ∅ ↔ filter P (map_to_list m) = [].
Proof.
  split.
  - intros He. apply elem_of_nil_inv. intros [k v] [HP Hm]%list_elem_of_filter.
    apply elem_of_map_to_list in Hm.
    assert (filter P m !! k = Some v) as Hl by (by apply map_lookup_filter_Some).
    by rewrite He in Hl.
  - intros He. by rewrite <-list_to_map_filter, He.
Qed.

Lemma map_to_list_nil_iff `{Countable K} {V} (m : gmap K V) : m = ∅ ↔ map_to_list m = [].
Proof.
  by rewrite map_to_list_empty_iff.
Qed.

Lemma unpack_group_created {T} `{Countable K} (item : reader (K * bool))
    (enc : K * bool → list Token) (reg : gmap K bool → T → result T)
    (returning : bool) (M : gmap K bool) (tgt : result T) rest :
  (∀ x d, item (enc x ++ d) = Some (x, d)) →
  let sent := if returning then filter (λ it, it.2 = false) M else M in
  unpack_group item (λ it m, <[it.1 := it.2]> m) ∅ reg tgt
    (pack_created enc returning (map_to_list M) ++ rest)
  = Some (tgt ≫= unless_empty (bool_decide (sent = ∅)) reg sent, rest).
Proof.
  intros Hitem sent. unfold unpack_group, pack_created.
  set (l := if returning then filter (λ it : K * bool, it.2 = false) (map_to_list M)
            else map_to_list M).
  assert (NoDup l.*1) as Hnd.
  { unfold l. destruct returning; [apply NoDup_fst_filter|apply NoDup_fst_map_to_list]. }
  assert (list_to_map l = sent) as Hsent.
  { unfold l, sent. destruct returning;
      [apply list_to_map_filter|apply list_to_map_to_list]. }
  assert (sent = ∅ ↔ l = []) as Hempty.
  { unfold l, sent. destruct returning;
      [apply filter_map_empty|apply map_to_list_nil_iff]. }
  assert ((if returning
           then TSize (Z.of_nat (length (filter (λ it : K * bool, it.2 = false)
                                           (map_to_list M)))) ::
                (if bool_decide (0 < length (filter (λ it : K * bool, it.2 = false)
                                               (map_to_list M)))%nat
                 then flat_map (λ it : K * bool, if it.2 then [] else enc it)
                        (map_to_list M)
                 else [])
           else TSize (Z.of_nat (length (map_to_list M))) ::
                flat_map enc (map_to_list M))
          = TSize (Z.of_nat (length l)) :: flat_map enc l) as ->.
  { unfold l. destruct returning; [|done]. f_equal. case_bool_decide as Hlen.
    - apply flat_map_non_local.
    - destruct (filter _ (map_to_list M)); [done|cbn in Hlen; lia]. }
  cbn [app read_size]. unfold unless_empty.
  destruct l as [|x l'] eqn:Hl.
  - cbn [length]. rewrite bool_decide_eq_false_2 by lia.
    rewrite (bool_decide_eq_true_2 (sent = ∅)) by (by apply Hempty).
    by rewrite result_bind_ret.
  - rewrite bool_decide_eq_true_2 by (cbn; lia).
    rewrite Nat2Z.id, read_loop_flat_map by done.
    rewrite foldl_map_insert, (right_id_L ∅ (∪)), Hsent by done.
    rewrite (bool_decide_eq_false_2 (sent = ∅)); [done|].
    intros He%Hempty. done.
Qed.

Lemma unpack_pack_privilege_state {T} (ops : Ops T) returning (l : t) (target : T) rest :
  unpack_privilege_state ops (pack_privilege_state returning l ++ rest) target
  = Some (return_privilege_state ops (if returning then returned l else l) target, rest).
Proof.
  unfold unpack_privilege_state, pack_privilege_state.
  rewrite <-!(assoc_L (++)).
  rewrite (unpack_group_created read_region_entry pack_region_entry) by (by intros []).
  cbn [mbind option_bind].
  rewrite (unpack_group_set read_region (λ r, [TRegion r])) by done.
  cbn [mbind option_bind].
  rewrite (unpack_group_created read_field_entry pack_field_entry)
    by (by intros [[]]).
  cbn [mbind option_bind].
  rewrite (unpack_group_set read_field_key pack_field_key) by (by intros []).
  cbn [mbind option_bind].
  rewrite (unpack_group_set read_field_space (λ x, [TFieldSpace x])) by done.
  cbn [mbind option_bind].
  rewrite (unpack_group_set read_field_space (λ x, [TFieldSpace x])) by done.
  cbn [mbind option_bind].
  rewrite (unpack_group_set read_index_space (λ x, [TIndexSpace x])) by done.
  cbn [mbind option_bind].
  rewrite (unpack_group_set read_index_space (λ x, [TIndexSpace x])) by done.
  cbn [mbind option_bind].
  rewrite (unpack_group_set read_index_partition (λ x, [TIndexPartition x])) by done.
  cbn [mbind option_bind].
  rewrite (unpack_group_set read_index_partition (λ x, [TIndexPartition x])) by done.
  f_equal. f_equal. unfold return_privilege_state.
  rewrite !result_bind_assoc. cbn [mbind result_bind].
  destruct returning; reflexivity.
Qed.

(** *** Deleted keys *)

Ltac unfold_setters :=
  unfold set_created_regions, set_created_fields, set_created_field_spaces,
    set_created_index_spaces, set_created_index_partitions, set_deleted_regions,
    set_deleted_fields, set_deleted_field_spaces, set_deleted_index_spaces,
    set_deleted_index_partitions.

Lemma register_deletions_union (s : t) regs fields fspaces ispaces parts :
  register_region_deletions regs s
    = Ok (set_deleted_regions (regs ∪ deleted_regions s) s)
  ∧ register_field_deletions fields s
    = Ok (set_deleted_fields (fields ∪ deleted_fields s) s)
  ∧ register_field_space_deletions fspaces s
    = Ok (set_deleted_field_spaces (fspaces ∪ deleted_field_spaces s) s)
  ∧ register_index_space_deletions ispaces s
    = Ok (set_deleted_index_spaces (ispaces ∪ deleted_index_spaces s) s)
  ∧ register_index_partition_deletions parts s
    = Ok (set_deleted_index_partitions (parts ∪ deleted_index_partitions s) s).
Proof.
  unfold register_region_deletions, register_field_deletions,
    register_field_space_deletions, register_index_space_deletions,
    register_index_partition_deletions.
  by rewrite !set_insert_all_union, !list_to_set_elements_L.
Qed.

Lemma created_twice_asserts (s : t) r b :
  register_region_creations true {[r := b]} s
    ≫= register_region_creations true {[r := b]} = AssertFailed.
Proof.
  unfold register_region_creations. rewrite map_to_list_singleton.
  cbn [assign_all fst snd]. case_bool_decide as Hr; [|done].
  cbn. rewrite bool_decide_eq_false_2; [done|]. by rewrite lookup_insert_eq.
Qed.

(** C10. Registering deleted resources is idempotent. For each of the
    five kinds (region, field, field space, index space, index partition)
    the keys are inserted into the set without any check: the call
    succeeds whatever the ledger holds, the deleted keys of the ledger
    become the union, registering the same keys once more leaves the
    ledger as it is, and every key is held once. A child ledger that
    brings deleted keys already merged is accepted by
    [return_privilege_state], in the debug build too. Registering the same
    created region twice, by contrast, fails the assertion of the debug
    build. *)
Theorem deleted_keys_idempotent (s : t) (regs : gset LogicalRegion)
    (fields : gset (FieldSpace * FieldID)) (fspaces : gset FieldSpace)
    (ispaces : gset IndexSpace) (parts : gset IndexPartition) :
  (∃ s', register_region_deletions regs s = Ok s'
         ∧ register_region_deletions regs s' = Ok s'
         ∧ deleted_regions s' = regs ∪ deleted_regions s
         ∧ NoDup (elements (deleted_regions s')))
  ∧ (∃ s', register_field_deletions fields s = Ok s'
           ∧ register_field_deletions fields s' = Ok s'
           ∧ deleted_fields s' = fields ∪ deleted_fields s
           ∧ NoDup (elements (deleted_fields s')))
  ∧ (∃ s', register_field_space_deletions fspaces s = Ok s'
           ∧ register_field_space_deletions fspaces s' = Ok s'
           ∧ deleted_field_spaces s' = fspaces ∪ deleted_field_spaces s
           ∧ NoDup (elements (deleted_field_spaces s')))
  ∧ (∃ s', register_index_space_deletions ispaces s = Ok s'
           ∧ register_index_space_deletions ispaces s' = Ok s'
           ∧ deleted_index_spaces s' = ispaces ∪ deleted_index_spaces s
           ∧ NoDup (elements (deleted_index_spaces s')))
  ∧ (∃ s', register_index_partition_deletions parts s = Ok s'
           ∧ register_index_partition_deletions parts s' = Ok s'
           ∧ deleted_index_partitions s' = parts ∪ deleted_index_partitions s
           ∧ NoDup (elements (deleted_index_partitions s')))
  ∧ (∀ dbg child,
       return_privilege_state (SliceTask_ops dbg) (deleted_only child)
         (merge (deleted_only child) s)
       = Ok (merge (deleted_only child) s))
  ∧ (∀ r b,
       register_region_creations true {[r := b]} s
         ≫= register_region_creations true {[r := b]} = AssertFailed).
Proof.
  pose proof (register_deletions_union s regs fields fspaces ispaces parts)
    as (H1 & H2 & H3 & H4 & H5).
  split; [|split; [|split; [|split; [|split; [|split]]]]].
  - exists (set_deleted_regions (regs ∪ deleted_regions s) s).
    split; [exact H1|]. split; [|split; [by destruct s|apply NoDup_elements]].
    rewrite (proj1 (register_deletions_union _ regs ∅ ∅ ∅ ∅)).
    destruct s; unfold_setters; cbn. do 2 f_equal. set_solver.
  - exists (set_deleted_fields (fields ∪ deleted_fields s) s).
    split; [exact H2|]. split; [|split; [by destruct s|apply NoDup_elements]].
    rewrite (proj1 (proj2 (register_deletions_union _ ∅ fields ∅ ∅ ∅))).
    destruct s; unfold_setters; cbn. do 2 f_equal. set_solver.
  - exists (set_deleted_field_spaces (fspaces ∪ deleted_field_spaces s) s).
    split; [exact H3|]. split; [|split; [by destruct s|apply NoDup_elements]].
    rewrite (proj1 (proj2 (proj2 (register_deletions_union _ ∅ ∅ fspaces ∅ ∅)))).
    destruct s; unfold_setters; cbn. do 2 f_equal. set_solver.
  - exists (set_deleted_index_spaces (ispaces ∪ deleted_index_spaces s) s).
    split; [exact H4|]. split; [|split; [by destruct s|apply NoDup_elements]].
    rewrite (proj1 (proj2 (proj2 (proj2 (register_deletions_union _ ∅ ∅ ∅ ispaces ∅))))).
    destruct s; unfold_setters; cbn. do 2 f_equal. set_solver.
  - exists (set_deleted_index_partitions (parts ∪ deleted_index_partitions s) s).
    split; [exact H5|]. split; [|split; [by destruct s|apply NoDup_elements]].
    rewrite (proj2 (proj2 (proj2 (proj2 (register_deletions_union _ ∅ ∅ ∅ ∅ parts))))).
    destruct s; unfold_setters; cbn. do 2 f_equal. set_solver.
  - intros dbg child. rewrite return_privilege_state_merge.
    + f_equal. unfold merge, deleted_only. cbn.
      rewrite !(left_id_L ∅ (∪)), !(right_id_L ∅ (∪)). f_equal; set_solver.
    + right. unfold created_disjoint, deleted_only. cbn.
      rewrite !dom_empty_L. repeat split; set_solver.
  - apply created_twice_asserts.
Qed.

(** *** Created keys *)

(** C9 (amended). The points of a remote slice hand their ledgers to
    the slice, and merging them into the slice is an additive union: when
    no created key is held by two of the ledgers, the merge succeeds
    whatever the build, the created keys of the slice become exactly the
    union of what the slice held and what the points bring, every created
    region and field keeps its entry, and any order of completion of the
    points gives the same ledger. A created key that arrives while the
    slice already holds it fails the assertion of the debug build. When
    the remote slice returns its ledger to the origin, the deleted keys,
    the created field spaces, index spaces and partitions all arrive, but
    of the created regions and fields only those whose local flag is
    false. The points of a slice that is not remote return their ledgers
    to the parent context, and the ledger of the slice stays as it
    is. *)
Theorem slice_ledger_is_union {T} (dbg : bool) (parent_ops : Ops T) (parent_ctx : T)
    (slice : t) (points : list t) :
  pairwise_created_disjoint (slice :: points) →
  points_complete dbg parent_ops true points slice parent_ctx
  = Ok (merge_all slice points, parent_ctx)
  ∧ created_keys (merge_all slice points)
    = foldl (λ ks p, keys_union (created_keys p) ks) (created_keys slice) points
  ∧ (∀ p, p ∈ slice :: points →
       created_regions p ⊆ created_regions (merge_all slice points)
       ∧ created_fields p ⊆ created_fields (merge_all slice points))
  ∧ (∀ points', points' ≡ₚ points →
       points_complete dbg parent_ops true points' slice parent_ctx
       = Ok (merge_all slice points, parent_ctx))
  ∧ (∀ p, ¬ created_disjoint p slice →
       return_privileges true parent_ops true p slice parent_ctx = AssertFailed)
  ∧ (∀ T' (ops : Ops T') (target : T'),
       slice_returns_to_origin ops (merge_all slice points) target
       = Some (return_privilege_state ops (returned (merge_all slice points)) target,
               []))
  ∧ (∀ p, return_privileges dbg parent_ops false p slice parent_ctx
          = (λ parent_ctx', (slice, parent_ctx'))
              <$> return_privilege_state parent_ops p parent_ctx)
  ∧ (∀ slice' parent_ctx',
       points_complete dbg parent_ops false points slice parent_ctx
       = Ok (slice', parent_ctx') →
       slice' = slice).
Proof.
  intros Hd. split; [|split; [|split; [|split; [|split; [|split; [|split]]]]]].
  - apply points_complete_merge. by right.
  - apply created_keys_merge_all.
  - intros p Hp. by apply merge_all_keeps_entries.
  - intros points' Hp.
    assert (pairwise_created_disjoint (slice :: points')) as Hd'.
    { eapply pairwise_created_disjoint_perm; [|exact Hd]. by constructor. }
    rewrite points_complete_merge by (by right). do 2 f_equal.
    apply merge_all_perm; [done|]. by destruct Hd'.
  - intros p Hp. unfold return_privileges.
    by rewrite return_privilege_state_duplicate.
  - intros T' ops target. unfold slice_returns_to_origin.
    rewrite <-(right_id_L [] (++) (pack_privilege_state true _)).
    apply (unpack_pack_privilege_state ops true).
  - intros p. unfold return_privileges.
    by destruct (return_privilege_state parent_ops p parent_ctx).
  - intros slice' parent_ctx' Hrun. by eapply points_complete_local.
Qed.

Lemma points_a_b_disjoint : pairwise_created_disjoint [empty; point_a; point_b].
Proof.
  cbn. unfold created_disjoint, empty, point_a, point_b. cbn.
  rewrite !dom_empty_L, !dom_singleton_L.
  repeat (first [apply Forall_nil_2 | apply Forall_cons_2 | split]); set_solver.
Qed.

Lemma slice_ledger_is_union_witness :
  points_complete true (SliceTask_ops true) true [point_a; point_b] empty empty
  = Ok (merge_all empty [point_a; point_b], empty)
  ∧ points_complete true (SliceTask_ops true) true [point_b; point_a] empty empty
    = Ok (merge_all empty [point_a; point_b], empty)
  ∧ return_privileges true (SliceTask_ops true) false point_a empty empty
    = (λ parent_ctx', (empty, parent_ctx'))
        <$> return_privilege_state (SliceTask_ops true) point_a empty.
Proof.
  pose proof (slice_ledger_is_union true (SliceTask_ops true) empty empty
                [point_a; point_b] points_a_b_disjoint)
    as (H1 & _ & _ & H4 & _ & _ & H7 & _).
  split; [exact H1|]. split; [apply H4; apply perm_swap|apply H7].
Defined.

(** The claim as stated fails on the way back to the origin: the region
    that [point_a] created is in the ledger of the remote slice, and
    nothing of it is registered with the tracker the ledger is returned
    to. *)
Lemma local_region_is_not_returned :
  points_complete true (SliceTask_ops true) true [point_a] empty empty
  = Ok (point_a, empty)
  ∧ created_regions point_a !! region_a = Some true
  ∧ (∀ T (ops : Ops T) (target : T),
       slice_returns_to_origin ops point_a target
       = Some (return_privilege_state ops (returned point_a) target, []))
  ∧ created_regions (returned point_a) = ∅
  ∧ slice_returns_to_origin (SliceTask_ops true) point_a empty
    = Some (Ok (set_created_fields {[(1, 7) := false]} empty), []).
Proof.
  split; [vm_compute; reflexivity|]. split; [vm_compute; reflexivity|].
  split; [|split; vm_compute; reflexivity].
  intros T ops target. unfold slice_returns_to_origin.
  rewrite <-(right_id_L [] (++) (pack_privilege_state true _)).
  apply (unpack_pack_privilege_state ops true).
Qed.

End ResourceTrackerFacts.

(** ** Completion and commit of a task operation *)

Module TaskOpFacts.
Import TaskOp.












(** The flags alone do not order the two transitions: with only the
    assertions of the four functions, children that commit before they
    complete let the commit transition fire first. The order comes from
    the driver of the operation. *)
Lemma flags_alone_admit_early_commit :
  snd <$> notify_all true [OwnComplete; ChildrenCommitted; OwnCommit] blank []
  = Ok [TaskCommit].
Proof. reflexivity. Qed.

Lemma complete_precedes_commit_nil : complete_precedes_commit [].
Proof. intros [|? before] after Heq; discriminate Heq. Qed.

Lemma complete_precedes_commit_snoc fired tr :
  complete_precedes_commit fired →
  (tr = TaskCommit → TaskComplete ∈ fired) →
  complete_precedes_commit (fired ++ [tr]).
Proof.
  intros Hord Htr before after. destruct after as [|x after _] using rev_ind.
  - intros [-> ->]%(app_inj_tail fired before). by apply Htr.
  - rewrite app_comm_cons, (assoc_L (++)).
    intros [Heq _]%app_inj_tail. by apply (Hord _ _ Heq).
Qed.

Lemma notify_fires dbg n s s1 f :
  notify dbg n s = Ok (s1, f) →
  (f = [] ∨ f = [transition_of n])
  ∧ (n ≠ OwnCommit → commit_received s1 = commit_received s)
  ∧ (n = ChildrenCommitted → f = [TaskCommit] → commit_received s = true).
Proof.
  destruct n; cbn; intros ([s2 b] & Hn & [= <- <-])%result_bind_ok; revert Hn;
    unfold trigger_complete, trigger_children_complete, trigger_commit,
      trigger_children_committed;
    intros ([] & _ & ([] & _ & [= <- <-])%result_bind_ok)%result_bind_ok;
    cbn; destruct s as [cr cm cc cd ? ? ? ? ? ?]; cbn;
    (split; [|split]); try done; try (intros []; done);
    repeat match goal with |- context [if ?b then _ else _] => destruct b end;
    auto; done.
Qed.

(** The invariant of the operations the driver can reach. *)
Lemma reachable_invariant dbg recycled o :
  reachable dbg recycled o →
  (op_completed o = true ↔ TaskComplete ∈ op_fired o)
  ∧ (commit_received (op_task o) = true → op_completed o = true)
  ∧ complete_precedes_commit (op_fired o).
Proof.
  induction 1 as [|o n o' _ (Hdone & Hcommit & Hord) Hissue Hdeliver].
  { cbn. split; [|split; [done|apply complete_precedes_commit_nil]].
    split; [done|]. by intros ?%elem_of_nil. }
  unfold deliver in Hdeliver.
  apply result_bind_ok in Hdeliver as ([s1 f] & Hn & [= <-]).
  apply notify_fires in Hn as (Hf & Hkeep & Hchild).
  destruct Hf as [-> | ->].
  - rewrite bool_decide_eq_false_2 by (by intros ?%elem_of_nil).
    cbn. rewrite (right_id_L [] (++)). split; [done|]. split; [|done].
    destruct n; cbn in Hissue; try (rewrite Hkeep by done; exact Hcommit).
    intros _. exact Hissue.
  - destruct n; cbn [transition_of] in *.
    + rewrite bool_decide_eq_true_2 by apply list_elem_of_singleton, eq_refl.
      cbn. split; [|split; [done|]].
      * split; [intros _|done]. apply elem_of_app. right. by apply list_elem_of_singleton.
      * by apply complete_precedes_commit_snoc.
    + rewrite bool_decide_eq_true_2 by apply list_elem_of_singleton, eq_refl.
      cbn. split; [|split; [done|]].
      * split; [intros _|done]. apply elem_of_app. right. by apply list_elem_of_singleton.
      * by apply complete_precedes_commit_snoc.
    + rewrite bool_decide_eq_false_2 by (by intros [=]%list_elem_of_singleton).
      cbn in *. split; [|split; [done|]].
      * rewrite Hdone, elem_of_app, list_elem_of_singleton. intuition congruence.
      * apply complete_precedes_commit_snoc; [done|]. intros _. by apply Hdone.
    + rewrite bool_decide_eq_false_2 by (by intros [=]%list_elem_of_singleton).
      cbn in *. split; [|split].
      * rewrite Hdone, elem_of_app, list_elem_of_singleton. intuition congruence.
      * rewrite Hkeep by done. exact Hcommit.
      * apply complete_precedes_commit_snoc; [done|]. intros _.
        apply Hdone, Hcommit. by apply Hchild.
Qed.

Lemma reachable_deliver_all dbg recycled ns : ∀ o o',
  reachable dbg recycled o →
  deliver_all dbg ns o = Some o' →
  reachable dbg recycled o'.
Proof.
  induction ns as [|n ns IH]; intros o o' Hr Hrun; cbn in Hrun.
  { by injection Hrun as <-. }
  destruct (driver_issues o n) eqn:Hissue; [|done].
  destruct (deliver dbg n o) as [o1| |] eqn:Hd; try done.
  eapply IH; [|exact Hrun]. by eapply reachable_deliver.
Qed.

(** C5. In every state the driver of the operation can bring a task
    operation to from its activation, each commit transition in the
    sequence of fired transitions is preceded by a complete transition:
    the operation never commits before it has completed. *)
Theorem commit_after_complete (dbg : bool) (recycled : t) (o : Operation)
    (before after : list Transition) :
  reachable dbg recycled o →
  op_fired o = before ++ TaskCommit :: after →
  TaskComplete ∈ before.
Proof.
  intros Hr Heq. apply reachable_invariant in Hr as (_ & _ & Hord).
  by apply (Hord before after).
Qed.

Lemma commit_after_complete_witness :
  deliver_all true [ChildrenCommitted; OwnComplete; ChildrenComplete; OwnCommit]
    (mkOperation (activate_task blank) false [])
  = Some (mkOperation (mk true true true true false false false 0 0 0) true
            [TaskComplete; TaskCommit])
  ∧ TaskComplete ∈ [TaskComplete].
Proof.
  split; [reflexivity|].
  apply (commit_after_complete true blank
           (mkOperation (mk true true true true false false false 0 0 0) true
              [TaskComplete; TaskCommit])
           [TaskComplete] []); [|reflexivity].
  apply (reachable_deliver_all true blank
           [ChildrenCommitted; OwnComplete; ChildrenComplete; OwnCommit]
           (mkOperation (activate_task blank) false []));
    [apply reachable_activate|reflexivity].
Defined.

End TaskOpFacts.
(** ** Stealing *)

Module LaunchStealFacts.
Import Launch.

Section steal.
Context {DomainPoint : Type}.
Variable DEBUG_LEGION : bool.
Variable runtime : Runtime DomainPoint.
Variable is_recording : bool.
Variable recycled_multi : MultiTask.t.
Variable recycled_task : TaskOp.t.

Notation step := (step DEBUG_LEGION runtime is_recording recycled_multi recycled_task).
Notation run := (run DEBUG_LEGION runtime is_recording recycled_multi recycled_task).
Notation prepipeline_first :=
  (prepipeline_first DEBUG_LEGION runtime is_recording recycled_multi recycled_task).

Lemma is_stealable_flag (task : Task (DomainPoint := DomainPoint)) :
  is_stealable task = true →
  stealable_flag task = true ∧ is_origin_mapped task = false.
Proof.
  destruct task as [s|i|s]; cbn;
    unfold IndividualTask.is_stealable, SliceTask.is_stealable, IndexTask.is_stealable,
      TaskOp.is_origin_mapped; try done;
    intros [?%negb_true_iff ?]%andb_true_iff; done.
Qed.

Lemma slice_index_space_clears this output this' slices :
  slice_index_space DEBUG_LEGION runtime is_recording recycled_multi this output
    = Ok (this', slices) →
  TaskOp.stealable (MultiTask.base (multi_of this')) = false.
Proof.
  unfold slice_index_space, MultiTask.slice_index_space.
  intros ([m sl] & Hs & [= <- <-])%result_bind_ok.
  apply result_bind_ok in Hs as ([] & _ & Hs).
  case_bool_decide; [done|].
  apply result_bind_ok in Hs as ([[done sls] total] & _ & Hs).
  destruct (_ && _); [done|].
  apply result_bind_ok in Hs as ([] & _ & [= <- <-]).
  by destruct this.
Qed.

(** Mapping or slicing a task clears its flag. *)
Lemma step_maps_clears e task task' :
  maps_or_slices e task = true →
  step e task = Ok task' →
  stealable_flag task' = false.
Proof.
  destruct e as [mapper checks|deferred| |output], task as [s|i|s]; cbn; try done.
  - intros ->%negb_true_iff [= <-]. done.
  - intros _. unfold SliceTask.perform_mapping. cbn.
    destruct (if bool_decide _ then _ else _) as [s1| |]; cbn; try done.
    intros [= <-]. done.
  - intros _ ([s1 l] & Hm & [= <-])%result_bind_ok. revert Hm.
    unfold SliceTask.map_and_launch.
    intros (s2 & _ & ([] & _ & [= <- <-])%result_bind_ok)%result_bind_ok. done.
  - intros _ ([this' l] & Hs & [= <-])%result_bind_ok.
    apply slice_index_space_clears in Hs. by destruct this'.
  - intros _ ([this' l] & Hs & [= <-])%result_bind_ok.
    apply slice_index_space_clears in Hs. by destruct this'.
Qed.

(** No call other than the selection of the task's options sets it. *)
Lemma step_keeps_cleared e task task' :
  is_prepipeline e = false →
  step e task = Ok task' →
  stealable_flag task = false →
  stealable_flag task' = false.
Proof.
  intros Hpre Hstep Hflag.
  destruct (maps_or_slices e task) eqn:Hmaps; [by eapply step_maps_clears|].
  destruct e as [mapper checks|deferred| |output], task as [s|i|s]; cbn in *;
    try done; try (by injection Hstep as <-).
  apply negb_false_iff in Hmaps as ->. by injection Hstep as <-.
Qed.

Lemma run_keeps_cleared es : ∀ task task',
  prepipeline_first es task true = true →
  run es task = Ok task' →
  stealable_flag task = false →
  stealable_flag task' = false.
Proof.
  induction es as [|e es IH]; intros task task' Hfirst Hrun Hflag; cbn in *.
  { by injection Hrun as <-. }
  apply result_bind_ok in Hrun as (task1 & Hstep & Hrun).
  rewrite Hstep, andb_true_r in Hfirst. cbn in Hfirst.
  apply andb_true_iff in Hfirst as [Hpre%negb_true_iff Hfirst].
  eapply IH; [exact Hfirst|exact Hrun|]. by eapply step_keeps_cleared.
Qed.

Lemma prepipeline_first_app es1 : ∀ es task task1 done,
  prepipeline_first (es1 ++ es) task done = true →
  run es1 task = Ok task1 →
  ∃ done', prepipeline_first es task1 done' = true.
Proof.
  induction es1 as [|e es1 IH]; intros es task task1 done Hfirst Hrun; cbn in *.
  { injection Hrun as <-. by exists done. }
  apply result_bind_ok in Hrun as (task2 & Hstep & Hrun).
  rewrite Hstep in Hfirst. apply andb_true_iff in Hfirst as [_ Hfirst].
  by eapply IH.
Qed.

(** C6. A task that answers [is_stealable()] with true is not
    origin-mapped. In a run of the pipeline, in which the options of a
    task are selected before the task is mapped or decomposed, once a call
    has mapped the task (an individual task whose mapping was not
    deferred, a slice that maps its points) or sliced it (an index launch
    or a slice), [is_stealable()] is false after that call and after any
    number of further calls. An index launch never answers true. *)
Theorem stealable_only_before_mapping (es1 es2 : list Event) (e : Event)
    (task task1 task' : Task (DomainPoint := DomainPoint)) :
  prepipeline_first (es1 ++ e :: es2) task false = true →
  run es1 task = Ok task1 →
  maps_or_slices e task1 = true →
  run (e :: es2) task1 = Ok task' →
  is_stealable task' = false
  ∧ (∀ any : Task (DomainPoint := DomainPoint),
       is_stealable any = true → is_origin_mapped any = false)
  ∧ (∀ i : IndexTask.t DomainPoint, is_stealable (Index i) = false).
Proof.
  intros Hfirst Hrun1 Hmaps Hrun2.
  split; [|split; [intros any Hany; by apply is_stealable_flag in Hany as [_ ?]|done]].
  destruct (prepipeline_first_app _ _ _ _ _ Hfirst Hrun1) as (done' & Hrest).
  cbn in Hrun2, Hrest.
  apply result_bind_ok in Hrun2 as (task2 & Hstep & Hrun2).
  rewrite Hstep, Hmaps, orb_true_r in Hrest.
  apply andb_true_iff in Hrest as [_ Hrest].
  assert (stealable_flag task' = false) as Hflag.
  { eapply run_keeps_cleared; [exact Hrest|exact Hrun2|]. by eapply step_maps_clears. }
  destruct (is_stealable task') eqn:Hst; [|done].
  apply is_stealable_flag in Hst as [Hst _]. congruence.
Qed.
End steal.

Lemma stealable_only_before_mapping_witness :
  run true example_runtime false MultiTask.blank
    TaskOp.blank [TriggerPrepipelineStage allow_stealing (Ok ())] example_individual
  = Ok example_individual_selected
  ∧ is_stealable example_individual_selected = true
  ∧ is_stealable example_individual_mapped = false.
Proof.
  split; [reflexivity|]. split; [reflexivity|].
  apply (stealable_only_before_mapping true example_runtime false
           MultiTask.blank
           TaskOp.blank
           [TriggerPrepipelineStage allow_stealing (Ok ())]
           [MapAndLaunch; PerformMapping true]
           (PerformMapping false)
           example_individual example_individual_selected example_individual_mapped);
    reflexivity.
Defined.

End LaunchStealFacts.
(** ** The progress of an index launch *)

Module IndexTaskProgressFacts.
Import IndexTask.

Section progress.
Context {DomainPoint : Type}.
Variable DEBUG_LEGION : bool.

Notation return_slice := (return_slice (DomainPoint := DomainPoint) DEBUG_LEGION).
Notation return_slices := (return_slices (DomainPoint := DomainPoint) DEBUG_LEGION).
Notation ever := (ever (DomainPoint := DomainPoint) DEBUG_LEGION).

Lemma ever_here P rs (s : t DomainPoint) : P s = true → ever P rs s = true.
Proof. intros HP. destruct rs; cbn; by rewrite HP. Qed.

Lemma return_slice_inv r (s s1 : t DomainPoint) c :
  return_slice r s = Ok (s1, c) →
  match r with
  | SliceMapped points denom => (s1, c) = return_slice_mapped points denom s
  | SliceComplete points =>
      let complete := wrap_u32 (complete_points (progress s) + points) in
      let whole := Fraction.is_whole (slice_fraction (progress s))
                   && (complete =? total_points (progress s)) in
      let fire := whole && negb (MultiTask.children_complete_invoked (multi s)) in
      progress s1 = mkProgress (slice_fraction (progress s)) (total_points (progress s))
                      (mapped_points (progress s)) complete (committed_points (progress s))
      ∧ multi s1 = (if fire then MultiTask.set_children_complete_invoked true (multi s)
                    else multi s)
      ∧ c = (if whole then [CompleteExecution] else [])
            ++ (if fire then [TriggerChildrenComplete] else [])
  | SliceCommit points =>
      let committed := wrap_u32 (committed_points (progress s) + points) in
      let fire := Fraction.is_whole (slice_fraction (progress s))
                  && (committed =? total_points (progress s))
                  && negb (MultiTask.children_commit_invoked (multi s)) in
      progress s1 = mkProgress (slice_fraction (progress s)) (total_points (progress s))
                      (mapped_points (progress s)) (complete_points (progress s)) committed
      ∧ multi s1 = (if fire then MultiTask.set_children_commit_invoked true (multi s)
                    else multi s)
      ∧ c = (if fire then [TriggerChildrenCommitted] else [])
  end.
Proof.
  destruct r as [points denom|points|points]; unfold IndexTask.return_slice.
  - intros Heq. congruence.
  - unfold return_slice_complete.
    intros ([] & _ & ([] & _ & [= <- <-])%result_bind_ok)%result_bind_ok. cbn.
    repeat split; by destruct (_ && _), (negb _).
  - unfold return_slice_commit.
    intros ([] & _ & [= <- <-])%result_bind_ok. done.
Qed.

(** A call [k] that is made only on reaching a state where [P] holds has
    been made only if [P] held at some point. *)
Lemma made_only_if_ever (k : Call) (P : t DomainPoint → bool) :
  (∀ r s s1 c, return_slice r s = Ok (s1, c) → k ∈ c → P s1 = true) →
  ∀ rs s calls0 s' calls,
    return_slices rs s calls0 = Ok (s', calls) →
    k ∈ calls → k ∈ calls0 ∨ ever P rs s = true.
Proof.
  intros Hstep. induction rs as [|r rs IH]; intros s calls0 s' calls Hrun Hk.
  { injection Hrun as <- <-. by left. }
  cbn [IndexTask.return_slices] in Hrun.
  apply result_bind_ok in Hrun as ([s1 c] & Hr & Hrun).
  cbn [IndexTask.ever]. rewrite Hr.
  destruct (IH _ _ _ _ Hrun Hk) as [[?|Hc]%elem_of_app|Hever]; [by left|right..].
  - apply orb_true_iff. right. apply ever_here. by eapply Hstep.
  - apply orb_true_iff. by right.
Qed.

(** With an invariant that remembers the call, the call has been made
    exactly if [P] held at some point. *)
Lemma made_iff_ever (k : Call) (P : t DomainPoint → bool)
    (Inv : t DomainPoint → list Call → Prop) :
  (∀ s calls0, Inv s calls0 → P s = true → k ∈ calls0) →
  (∀ r s s1 c calls0,
     Inv s calls0 → return_slice r s = Ok (s1, c) →
     Inv s1 (calls0 ++ c) ∧ (k ∈ c → P s1 = true)) →
  ∀ rs s calls0 s' calls,
    Inv s calls0 →
    return_slices rs s calls0 = Ok (s', calls) →
    k ∈ calls ↔ k ∈ calls0 ∨ ever P rs s = true.
Proof.
  intros Hhere Hstep. induction rs as [|r rs IH]; intros s calls0 s' calls Hinv Hrun.
  { injection Hrun as <- <-. cbn. rewrite orb_false_r.
    split; [by left|]. intros [?|HP]; [done|by eapply Hhere]. }
  cbn [IndexTask.return_slices] in Hrun.
  apply result_bind_ok in Hrun as ([s1 c] & Hr & Hrun).
  cbn [IndexTask.ever]. rewrite Hr.
  destruct (Hstep _ _ _ _ _ Hinv Hr) as [Hinv1 Hfire].
  rewrite (IH _ _ _ _ Hinv1 Hrun), elem_of_app, orb_true_iff. split.
  - intros [[?|Hc]|?]; [by left| |by right; right].
    right. right. apply ever_here. by apply Hfire.
  - intros [?|[HP|?]]; [by left; left| |by right].
    left. left. by eapply Hhere.
Qed.

Ltac unfold_progress :=
  unfold fully_mapped, fully_complete, fully_committed, return_slice_mapped,
    set_multi, set_progress in *;
  cbn [progress multi slice_fraction total_points mapped_points complete_points
       committed_points fst snd] in *.

Ltac split_flags :=
  try match goal with
      | |- context [multi ?s] =>
          let complete_invoked := fresh "complete_invoked" in
          let commit_invoked := fresh "commit_invoked" in
          destruct (multi s) as [? ? ? ? ? ? complete_invoked commit_invoked];
          cbn [MultiTask.children_complete_invoked MultiTask.children_commit_invoked
               MultiTask.set_children_complete_invoked
               MultiTask.set_children_commit_invoked];
          destruct complete_invoked, commit_invoked
      end;
  cbn [MultiTask.children_complete_invoked MultiTask.children_commit_invoked
       MultiTask.set_children_complete_invoked MultiTask.set_children_commit_invoked];
  repeat match goal with
         | |- context [Fraction.is_whole ?f] => destruct (Fraction.is_whole f) eqn:?
         | |- context [?a =? ?b] => destruct (a =? b) eqn:?
         end.

Ltac calls_solver :=
  repeat match goal with
         | |- context [if ?b then _ else _] => destruct b eqn:?
         end;
  cbn [app andb negb] in *;
  rewrite ?elem_of_app, ?elem_of_cons, ?elem_of_nil in *;
  intuition (try congruence).

Lemma mapped_inv_step r s s1 c calls0 :
  mapped_inv s calls0 → return_slice r s = Ok (s1, c) →
  mapped_inv s1 (calls0 ++ c) ∧ (CompleteMapping ∈ c → fully_mapped s1 = true).
Proof.
  intros [Heq Hcalled] Hr. apply return_slice_inv in Hr.
  destruct r as [points denom|points|points].
  - injection Hr as -> ->. unfold mapped_inv. unfold_progress. rewrite Heq.
    rewrite Z.eqb_refl, andb_true_r. clear Hcalled.
    destruct (Fraction.is_whole (Fraction.add _ _)) eqn:Hw; cbn [andb];
      (split; [split; [done|]|]); calls_solver.
  - destruct Hr as (Hp & _ & ->). unfold mapped_inv. unfold_progress.
    rewrite Hp in *. cbn in *. split; [split; [done|]|].
    + intros Hm. apply elem_of_app. left. by apply Hcalled.
    + clear Hcalled. calls_solver.
  - destruct Hr as (Hp & _ & ->). unfold mapped_inv. unfold_progress.
    rewrite Hp in *. cbn in *. split; [split; [done|]|].
    + intros Hm. apply elem_of_app. left. by apply Hcalled.
    + clear Hcalled. calls_solver.
Qed.

Ltac flags_solver :=
  unfold complete_inv, commit_inv; unfold_progress;
  split_flags;
  cbn [app andb negb MultiTask.children_complete_invoked
       MultiTask.children_commit_invoked MultiTask.set_children_complete_invoked
       MultiTask.set_children_commit_invoked];
  rewrite ?elem_of_app, ?elem_of_cons, ?elem_of_nil;
  intuition (try congruence).

Lemma complete_inv_step r s s1 c calls0 :
  complete_inv s calls0 → return_slice r s = Ok (s1, c) →
  complete_inv s1 (calls0 ++ c) ∧ (TriggerChildrenComplete ∈ c → fully_complete s1 = true).
Proof.
  intros Hinv Hr. apply return_slice_inv in Hr.
  destruct r as [points denom|points|points].
  - injection Hr as -> ->. revert Hinv. flags_solver.
  - destruct Hr as (Hp & Hm & ->). revert Hinv. unfold complete_inv, fully_complete.
    rewrite Hp, Hm. clear Hp Hm. flags_solver.
  - destruct Hr as (Hp & Hm & ->). revert Hinv. unfold complete_inv, fully_complete.
    rewrite Hp, Hm. clear Hp Hm. flags_solver.
Qed.

Lemma commit_inv_step r s s1 c calls0 :
  commit_inv s calls0 → return_slice r s = Ok (s1, c) →
  commit_inv s1 (calls0 ++ c) ∧ (TriggerChildrenCommitted ∈ c → fully_committed s1 = true).
Proof.
  intros Hinv Hr. apply return_slice_inv in Hr.
  destruct r as [points denom|points|points].
  - injection Hr as -> ->. revert Hinv. flags_solver.
  - destruct Hr as (Hp & Hm & ->). revert Hinv. unfold commit_inv, fully_committed.
    rewrite Hp, Hm. clear Hp Hm. flags_solver.
  - destruct Hr as (Hp & Hm & ->). revert Hinv. unfold commit_inv, fully_committed.
    rewrite Hp, Hm. clear Hp Hm. flags_solver.
Qed.

Lemma execution_step r s s1 c :
  return_slice r s = Ok (s1, c) → CompleteExecution ∈ c → fully_complete s1 = true.
Proof.
  intros Hr. apply return_slice_inv in Hr.
  destruct r as [points denom|points|points].
  - injection Hr as -> ->. flags_solver.
  - destruct Hr as (Hp & Hm & ->). unfold fully_complete.
    rewrite Hp. clear Hp Hm. flags_solver.
  - destruct Hr as (Hp & Hm & ->). unfold fully_complete.
    rewrite Hp. clear Hp Hm. flags_solver.
Qed.

Lemma make_zero : Fraction.make 0 1 = 0%Qc.
Proof. by apply Qc_is_canon. Qed.

Lemma return_slices_fraction rs : ∀ s calls0 s' calls,
  return_slices rs s calls0 = Ok (s', calls) →
  slice_fraction (progress s')
  = Fraction.add (slice_fraction (progress s)) (fraction_sum rs).
Proof.
  induction rs as [|r rs IH]; intros s calls0 s' calls Hrun.
  { injection Hrun as <- <-. cbn. unfold Fraction.add.
    by rewrite make_zero, Qcplus_0_r. }
  cbn [IndexTask.return_slices] in Hrun.
  apply result_bind_ok in Hrun as ([s1 c] & Hr & Hrun).
  rewrite (IH _ _ _ _ Hrun). apply return_slice_inv in Hr.
  destruct r as [points denom|points|points].
  - injection Hr as -> ->. unfold_progress. cbn [fraction_sum].
    unfold Fraction.add. by rewrite Qcplus_assoc.
  - destruct Hr as (-> & _). done.
  - destruct Hr as (-> & _). done.
Qed.

Lemma return_slices_invariant (Inv : t DomainPoint → list Call → Prop) :
  (∀ r s s1 c calls0,
     Inv s calls0 → return_slice r s = Ok (s1, c) → Inv s1 (calls0 ++ c)) →
  ∀ rs s calls0 s' calls,
    Inv s calls0 → return_slices rs s calls0 = Ok (s', calls) → Inv s' calls.
Proof.
  intros Hstep. induction rs as [|r rs IH]; intros s calls0 s' calls Hinv Hrun.
  { by injection Hrun as <- <-. }
  cbn [IndexTask.return_slices] in Hrun.
  apply result_bind_ok in Hrun as ([s1 c] & Hr & Hrun).
  eapply IH; [|exact Hrun]. by eapply Hstep.
Qed.

Lemma activate_not_whole uid recycled :
  Fraction.is_whole
    (slice_fraction (progress (activate_index_task (DomainPoint := DomainPoint)
                                 uid recycled))) = false.
Proof.
  cbn. unfold Fraction.is_whole. rewrite make_zero. by apply bool_decide_eq_false_2.
Qed.

Lemma activate_invariants uid recycled :
  mapped_inv (activate_index_task (DomainPoint := DomainPoint) uid recycled) []
  ∧ complete_inv (activate_index_task (DomainPoint := DomainPoint) uid recycled) []
  ∧ commit_inv (activate_index_task (DomainPoint := DomainPoint) uid recycled) [].
Proof.
  pose proof (activate_not_whole uid recycled) as Hw.
  unfold mapped_inv, complete_inv, commit_inv, fully_mapped, fully_complete,
    fully_committed. rewrite Hw. cbn.
  split; [|split]; (split; [|done]); [done|split..]; try done;
    by intros ?%elem_of_nil.
Qed.

(** A run over [pre ++ post] is a run over [pre] followed by one over
    [post]. *)
Lemma return_slices_app pre : ∀ post s calls0 s' calls,
  return_slices (pre ++ post) s calls0 = Ok (s', calls) →
  ∃ s1 c1, return_slices pre s calls0 = Ok (s1, c1)
           ∧ return_slices post s1 c1 = Ok (s', calls).
Proof.
  induction pre as [|r pre IH]; intros post s calls0 s' calls Hrun.
  { by exists s, calls0. }
  cbn [app IndexTask.return_slices] in *.
  apply result_bind_ok in Hrun as ([s1 c] & Hr & Hrun).
  rewrite Hr. cbn [mbind result_bind]. by apply IH.
Qed.

(** [P] held at some point exactly if it holds after some of the
    reports, taken from the first one on. *)
Lemma ever_iff_prefix P rs : ∀ s calls0 s' calls,
  return_slices rs s calls0 = Ok (s', calls) →
  ever P rs s = true
  ↔ ∃ pre post s1 c1,
      rs = pre ++ post ∧ return_slices pre s calls0 = Ok (s1, c1) ∧ P s1 = true.
Proof.
  induction rs as [|r rs IH]; intros s calls0 s' calls Hrun.
  { cbn. rewrite orb_false_r. split.
    - intros HP. by exists [], [], s, calls0.
    - intros (pre & post & s1 & c1 & Hsplit & Hpre & HP).
      symmetry in Hsplit. apply app_eq_nil in Hsplit as [-> ->].
      by injection Hpre as <- <-. }
  cbn [IndexTask.return_slices] in Hrun.
  apply result_bind_ok in Hrun as ([s1 c] & Hr & Hrun).
  cbn [IndexTask.ever]. rewrite Hr, orb_true_iff, (IH _ _ _ _ Hrun). split.
  - intros [HP|(pre & post & s2 & c2 & -> & Hpre & HP)].
    + by exists [], (r :: rs), s, calls0.
    + exists (r :: pre), post, s2, c2. split; [done|]. split; [|done].
      cbn [IndexTask.return_slices]. by rewrite Hr.
  - intros ([|r' pre] & post & s2 & c2 & Hsplit & Hpre & HP).
    + injection Hpre as <- <-. by left.
    + injection Hsplit as <- ->. right.
      cbn [IndexTask.return_slices] in Hpre. rewrite Hr in Hpre.
      by exists pre, post, s2, c2.
Qed.

Lemma wrap_u32_add_l a b : wrap_u32 (wrap_u32 a + b) = wrap_u32 (a + b).
Proof. unfold wrap_u32. by rewrite Zplus_mod_idemp_l. Qed.

(** The fraction and the four counters of the launch are those of the
    reports it was sent. *)
Lemma return_slices_counts rs : ∀ s calls0 s' calls f m c k,
  return_slices rs s calls0 = Ok (s', calls) →
  progress s = mkProgress f (wrap_u32 m) (wrap_u32 m) (wrap_u32 c) (wrap_u32 k) →
  progress s'
  = mkProgress (Fraction.add f (fraction_sum rs))
      (wrap_u32 (m + reported_mapped rs)) (wrap_u32 (m + reported_mapped rs))
      (wrap_u32 (c + reported_complete rs)) (wrap_u32 (k + reported_committed rs)).
Proof.
  induction rs as [|r rs IH]; intros s calls0 s' calls f m c k Hrun Hs.
  { injection Hrun as <- <-. cbn. rewrite Hs, !Z.add_0_r. f_equal.
    unfold Fraction.add. by rewrite make_zero, Qcplus_0_r. }
  cbn [IndexTask.return_slices] in Hrun.
  apply result_bind_ok in Hrun as ([s1 c1] & Hr & Hrun).
  apply return_slice_inv in Hr.
  destruct r as [points denom|points|points].
  - injection Hr as -> ->.
    rewrite (IH _ _ _ _ (Fraction.add f (Fraction.make 1 denom)) (m + points) c k Hrun).
    + cbn [fraction_sum reported_mapped reported_complete reported_committed foldr].
      rewrite !Z.add_assoc. f_equal. unfold Fraction.add. by rewrite Qcplus_assoc.
    + unfold return_slice_mapped, set_multi, set_progress. cbn [progress fst].
      rewrite Hs. cbn [slice_fraction total_points mapped_points complete_points
        committed_points]. by rewrite wrap_u32_add_l.
  - destruct Hr as (Hp & _).
    rewrite (IH _ _ _ _ f m (c + points) k Hrun).
    + cbn [fraction_sum reported_mapped reported_complete reported_committed foldr].
      by rewrite !Z.add_assoc.
    + rewrite Hp, Hs. cbn. by rewrite wrap_u32_add_l.
  - destruct Hr as (Hp & _).
    rewrite (IH _ _ _ _ f m c (k + points) Hrun).
    + cbn [fraction_sum reported_mapped reported_complete reported_committed foldr].
      by rewrite !Z.add_assoc.
    + rewrite Hp, Hs. cbn. by rewrite wrap_u32_add_l.
Qed.

Lemma activate_counts uid recycled rs (s : t DomainPoint) calls :
  return_slices rs (activate_index_task uid recycled) [] = Ok (s, calls) →
  progress s
  = mkProgress (fraction_sum rs) (wrap_u32 (reported_mapped rs))
      (wrap_u32 (reported_mapped rs)) (wrap_u32 (reported_complete rs))
      (wrap_u32 (reported_committed rs)).
Proof.
  intros Hrun.
  rewrite (return_slices_counts _ _ _ _ _ (Fraction.make 0 1) 0 0 0 Hrun eq_refl).
  rewrite !Z.add_0_l. f_equal. unfold Fraction.add. by rewrite make_zero, Qcplus_0_l.
Qed.

(** From the activation of the launch, a state in which the fraction is
    whole and a counter has caught up with the total is reached exactly
    by reports that account for the launch. *)
Lemma fully_iff_accounted uid recycled pre (s1 : t DomainPoint) c1 :
  return_slices pre (activate_index_task uid recycled) [] = Ok (s1, c1) →
  (fully_mapped s1 = true ↔ accounted reported_mapped pre)
  ∧ (fully_complete s1 = true ↔ accounted reported_complete pre)
  ∧ (fully_committed s1 = true ↔ accounted reported_committed pre).
Proof.
  intros Hrun. unfold fully_mapped, fully_complete, fully_committed, accounted.
  rewrite (activate_counts _ _ _ _ _ Hrun).
  cbn [slice_fraction total_points mapped_points complete_points committed_points].
  unfold Fraction.is_whole.
  rewrite !andb_true_iff, !bool_decide_eq_true, !Z.eqb_eq. done.
Qed.

Lemma ever_iff_accounted uid recycled rs (s : t DomainPoint) calls
    (P : t DomainPoint → bool) (count : list Report → Z) :
  return_slices rs (activate_index_task uid recycled) [] = Ok (s, calls) →
  (∀ pre s1 c1,
     return_slices pre (activate_index_task uid recycled) [] = Ok (s1, c1) →
     P s1 = true ↔ accounted count pre) →
  ever P rs (activate_index_task uid recycled) = true
  ↔ ∃ pre post, rs = pre ++ post ∧ accounted count pre.
Proof.
  intros Hrun HP. rewrite (ever_iff_prefix P _ _ _ _ _ Hrun). split.
  - intros (pre & post & s1 & c1 & Hsplit & Hpre & Hs1).
    exists pre, post. split; [done|]. by apply (HP _ _ _ Hpre).
  - intros (pre & post & -> & Hpre).
    destruct (return_slices_app _ _ _ _ _ _ Hrun) as (s1 & c1 & Hrun1 & _).
    exists pre, post, s1, c1. split; [done|]. split; [done|]. by apply (HP _ _ _ Hrun1).
Qed.

(** C1. Over the reports the slices send to an index launch from its
    activation (the launch is not cut short by a false predicate), the
    fraction of the launch is the sum of 1/denominator over the slices
    that reported mapped, and its total, mapped, complete and committed
    counters are, as [unsigned] numbers, the points of the slices that
    reported mapped, mapped, complete and committed. The launch has
    called [complete_mapping] (mapped), [trigger_children_complete]
    (complete), [trigger_children_committed] (commit) exactly if, after
    some of the reports, the fractions of the slices that reported
    mapped added up to the rational 1 and the points reported mapped,
    complete, committed were the points reported mapped (the total
    point count); [complete_execution] is called only after such
    reports. *)
Theorem reports_iff_fully_accounted (uid : Z) (recycled : MultiTask.t)
    (rs : list Report) (s : t DomainPoint) (calls : list Call) :
  return_slices rs (activate_index_task uid recycled) [] = Ok (s, calls) →
  progress s
  = mkProgress (fraction_sum rs) (wrap_u32 (reported_mapped rs))
      (wrap_u32 (reported_mapped rs)) (wrap_u32 (reported_complete rs))
      (wrap_u32 (reported_committed rs))
  ∧ (CompleteMapping ∈ calls
     ↔ ∃ pre post, rs = pre ++ post ∧ accounted reported_mapped pre)
  ∧ (TriggerChildrenComplete ∈ calls
     ↔ ∃ pre post, rs = pre ++ post ∧ accounted reported_complete pre)
  ∧ (TriggerChildrenCommitted ∈ calls
     ↔ ∃ pre post, rs = pre ++ post ∧ accounted reported_committed pre)
  ∧ (CompleteExecution ∈ calls
     → ∃ pre post, rs = pre ++ post ∧ accounted reported_complete pre).
Proof.
  intros Hrun.
  destruct (activate_invariants uid recycled) as (Hm & Hc & Hk).
  assert (∀ (k : Call) (P : Prop), k ∈ @nil Call ∨ P ↔ P) as Hnil.
  { intros k P. split; [intros [?%elem_of_nil|?]; [done|done]|by right]. }
  assert (∀ pre s1 c1,
            return_slices pre (activate_index_task uid recycled) [] = Ok (s1, c1) →
            fully_mapped s1 = true ↔ accounted reported_mapped pre) as Hmapped.
  { intros pre s1 c1 Hpre. by apply (fully_iff_accounted _ _ _ _ _ Hpre). }
  assert (∀ pre s1 c1,
            return_slices pre (activate_index_task uid recycled) [] = Ok (s1, c1) →
            fully_complete s1 = true ↔ accounted reported_complete pre) as Hcomplete.
  { intros pre s1 c1 Hpre. by apply (fully_iff_accounted _ _ _ _ _ Hpre). }
  assert (∀ pre s1 c1,
            return_slices pre (activate_index_task uid recycled) [] = Ok (s1, c1) →
            fully_committed s1 = true ↔ accounted reported_committed pre) as Hcommitted.
  { intros pre s1 c1 Hpre. by apply (fully_iff_accounted _ _ _ _ _ Hpre). }
  split; [|split; [|split; [|split]]].
  - by apply (activate_counts _ _ _ _ _ Hrun).
  - rewrite <-(ever_iff_accounted _ _ _ _ _ fully_mapped _ Hrun Hmapped).
    rewrite (made_iff_ever CompleteMapping fully_mapped mapped_inv
               (λ s0 calls0 Hinv, proj2 Hinv) mapped_inv_step _ _ _ _ _ Hm Hrun).
    apply Hnil.
  - assert (∀ (s0 : t DomainPoint) calls0, complete_inv s0 calls0 → fully_complete s0 = true →
                         TriggerChildrenComplete ∈ calls0) as Hhere.
    { intros s0 calls0 [Hcalled Hdone] HP. by apply Hcalled, Hdone. }
    rewrite <-(ever_iff_accounted _ _ _ _ _ fully_complete _ Hrun Hcomplete).
    rewrite (made_iff_ever TriggerChildrenComplete fully_complete complete_inv
               Hhere complete_inv_step _ _ _ _ _ Hc Hrun).
    apply Hnil.
  - assert (∀ (s0 : t DomainPoint) calls0, commit_inv s0 calls0 → fully_committed s0 = true →
                         TriggerChildrenCommitted ∈ calls0) as Hhere.
    { intros s0 calls0 [Hcalled Hdone] HP. by apply Hcalled, Hdone. }
    rewrite <-(ever_iff_accounted _ _ _ _ _ fully_committed _ Hrun Hcommitted).
    rewrite (made_iff_ever TriggerChildrenCommitted fully_committed commit_inv
               Hhere commit_inv_step _ _ _ _ _ Hk Hrun).
    apply Hnil.
  - intros Hin.
    apply (ever_iff_accounted _ _ _ _ _ fully_complete _ Hrun Hcomplete).
    destruct (made_only_if_ever CompleteExecution fully_complete execution_step
                _ _ _ _ _ Hrun Hin) as [?%elem_of_nil|?]; done.
Qed.
End progress.

Lemma reports_iff_fully_accounted_witness :
  return_slices true example_reports (activate_index_task (DomainPoint := Z) 7 MultiTask.blank) []
  = Ok (example_final, example_calls)
  ∧ total_points (progress example_final) = 3
  ∧ complete_points (progress example_final) = 3
  ∧ (TriggerChildrenCommitted ∈ example_calls
     ↔ ∃ pre post, example_reports = pre ++ post ∧ accounted reported_committed pre).
Proof.
  assert (return_slices true example_reports (activate_index_task (DomainPoint := Z) 7 MultiTask.blank) []
          = Ok (example_final, example_calls)) as Hrun by (vm_compute; reflexivity).
  split; [exact Hrun|].
  pose proof (reports_iff_fully_accounted true 7 MultiTask.blank example_reports
                example_final example_calls Hrun) as (Hcounts & _ & _ & Hcommit & _).
  split; [by rewrite Hcounts|]. split; [by rewrite Hcounts|exact Hcommit].
Defined.

(** A launch whose predicate resolves false before it is launched has
    made all the calls, with no slice accounted for. *)
Lemma false_predicate_reports_unaccounted :
  snd (resolve_false (DomainPoint := Z) false false (activate_index_task (DomainPoint := Z) 7 MultiTask.blank))
  = [CompleteMapping; CompleteExecution; ResolveSpeculation;
     TriggerChildrenComplete; TriggerChildrenCommitted]
  ∧ fully_mapped
      (fst (resolve_false (DomainPoint := Z) false false
              (activate_index_task (DomainPoint := Z) 7 MultiTask.blank))) = false
  ∧ slice_fraction
      (progress (fst (resolve_false (DomainPoint := Z) false false
                        (activate_index_task (DomainPoint := Z) 7 MultiTask.blank))))
    = Fraction.make 0 1.
Proof. split; [reflexivity|]. split; [vm_compute; reflexivity|reflexivity]. Qed.

End IndexTaskProgressFacts.
(** ** The checks of a slicing *)

Module SlicingFacts.
Import Launch.

Section checks.
Context {DomainPoint : Type}.
Variable runtime : Runtime DomainPoint.
Variable is_recording : bool.
Variable recycled_multi : MultiTask.t.

Notation clone_as_slice_task dbg := (clone_as_slice_task dbg recycled_multi).
Notation slice_domain := (MultiTask.slice_domain runtime).
Notation slices_volume := (MultiTask.slices_volume runtime).

Lemma get_volume_nonneg (d : Domain DomainPoint) : 0 ≤ get_volume d.
Proof. unfold get_volume. lia. Qed.

Lemma slices_volume_nonneg slices : 0 ≤ slices_volume slices.
Proof.
  unfold MultiTask.slices_volume.
  induction slices as [|slice slices IH]; cbn [foldr]; [done|].
  pose proof (get_volume_nonneg (slice_domain slice)). lia.
Qed.

(** A slice task is cloned without failure for a processor that exists. *)
Lemma clone_as_slice_task_ok dbg (this : Sliceable (DomainPoint := DomainPoint))
    m space p recurse stealable scale :
  TaskOp.proc_exists p = true →
  ∃ new_slice, clone_as_slice_task dbg this m space p recurse stealable scale = Ok new_slice.
Proof.
  intros Hp. destruct this as [i|s]; cbn;
    unfold IndexTask.clone_as_slice_task, SliceTask.clone_as_slice_task,
      MultiTask.clone_multi_from, TaskOp.clone_task_op_from;
    rewrite Hp; destruct dbg; cbn; eauto.
Qed.

(** What [check_slice] answers in a debug build. *)
Lemma check_slice_debug internal slice total :
  match MultiTask.check_slice true runtime is_recording internal slice total with
  | Ok (slice', total') =>
      TaskOp.proc_exists (ts_proc slice') = true
      ∧ get_volume (slice_domain slice) ≠ 0
      ∧ total' = wrap_size_t (total + get_volume (slice_domain slice))
  | Fatal code => is_recording = false → code = ERROR_INVALID_MAPPER_OUTPUT
  | AssertFailed => False
  end.
Proof.
  unfold MultiTask.check_slice, MultiTask.complete_slice, MultiTask.slice_domain.
  destruct (TaskOp.proc_exists (ts_proc slice)) eqn:Hp; cbn [negb]; [|done].
  destruct (is_exists (ts_domain_is slice)) eqn:Hex; cbn [negb andb].
  - destruct (negb _); [done|].
    destruct (is_recording && _) eqn:Hrec.
    { intros ->. done. }
    rewrite Hex, andb_true_r.
    destruct (_ =? 0) eqn:Hv; [done|]. apply Z.eqb_neq in Hv. done.
  - destruct (0 <? get_volume (ts_domain slice)) eqn:Hpos.
    + cbn [ts_domain ts_domain_is ts_proc].
      destruct (negb _); [done|].
      destruct (is_recording && _) eqn:Hrec.
      { intros ->. done. }
      assert (is_no_domain (ts_domain slice) = false) as Hno.
      { destruct (ts_domain slice); [done|]. cbn in Hpos. done. }
      rewrite Hno. cbn [andb].
      destruct (_ =? 0) eqn:Hv; [apply Z.eqb_eq in Hv; apply Z.ltb_lt in Hpos; lia|].
      apply Z.eqb_neq in Hv. done.
    + destruct (negb _); [done|].
      destruct (is_recording && _) eqn:Hrec.
      { intros ->. done. }
      rewrite Hex, andb_false_r.
      destruct (_ =? 0) eqn:Hv; [done|]. apply Z.eqb_neq in Hv. done.
Qed.

(** What the loop answers in a debug build, as long as the running total
    fits a [size_t]. *)
Lemma slice_loop_debug (this : Sliceable (DomainPoint := DomainPoint)) m internal n :
  ∀ todo total,
    0 ≤ total → total + slices_volume todo < 2 ^ 64 →
    match MultiTask.slice_loop true runtime is_recording (clone_as_slice_task true this)
            m internal n todo total with
    | Ok (_, _, total') =>
        (∀ slice, slice ∈ todo → get_volume (slice_domain slice) ≠ 0)
        ∧ total' = total + slices_volume todo
    | Fatal code => is_recording = false → code = ERROR_INVALID_MAPPER_OUTPUT
    | AssertFailed => False
    end.
Proof.
  induction todo as [|slice todo IH]; intros total Hpos Hfit.
  { cbn. split; [by intros ? ?%elem_of_nil|lia]. }
  unfold MultiTask.slices_volume in Hfit. cbn [foldr] in Hfit.
  fold (slices_volume todo) in Hfit.
  pose proof (get_volume_nonneg (slice_domain slice)) as Hvol.
  pose proof (slices_volume_nonneg todo) as Hrest.
  cbn [MultiTask.slice_loop].
  pose proof (check_slice_debug internal slice total) as Hcheck.
  destruct (MultiTask.check_slice _ _ _ _ _ _) as [[slice' total']| |code];
    cbn [mbind result_bind]; [|done..].
  destruct Hcheck as (Hp & Hne & ->).
  destruct (clone_as_slice_task_ok true this m (ts_domain_is slice') (ts_proc slice')
              (ts_recurse slice') (ts_stealable slice') n Hp) as (new_slice & ->).
  cbn [mbind result_bind].
  rewrite wrap_size_t_small by lia.
  specialize (IH (total + get_volume (slice_domain slice))).
  destruct (MultiTask.slice_loop _ _ _ _ _ _ _ _ _) as [[[done slices] total'']| |code];
    cbn [mbind result_bind mret result_ret]; [|apply IH; lia..].
  destruct IH as [Hall ->]; [lia..|]. split.
  - intros slice0 [->|Hin]%elem_of_cons; [done|by apply Hall].
  - unfold MultiTask.slices_volume. cbn [foldr]. fold (slices_volume todo). lia.
Qed.

(** X1. In a debug build, when the volumes of the slices the mapper
    returns do not add up to the volume of the domain being sliced, or
    one of the slices is empty, [slice_index_space] ends in a fatal
    error and returns no slice: the error is the invalid mapper output
    error, unless the task is being recorded in a trace and an error for
    a remotely mapped slice is found first. *)
Theorem violated_partition_is_fatal (this : Sliceable (DomainPoint := DomainPoint))
    (output : SliceTaskOutput DomainPoint) :
  MultiTask.sliced (multi_of this) = false →
  slices_volume (out_slices output) < 2 ^ 64 →
  MultiTask.partition_violated runtime (multi_of this) output →
  ∃ code,
    slice_index_space true runtime is_recording recycled_multi this output = Fatal code
    ∧ (is_recording = false → code = ERROR_INVALID_MAPPER_OUTPUT).
Proof.
  intros Hsliced Hfit Hviolated.
  unfold slice_index_space, MultiTask.slice_index_space.
  rewrite Hsliced. cbn [negb debug_assert andb mbind result_bind].
  case_bool_decide as Hempty; [by eexists|].
  cbn [MultiTask.internal_space MultiTask.set_base MultiTask.set_sliced].
  match goal with
  | |- context [MultiTask.slice_loop ?d ?r ?rec ?c ?m ?i ?n ?todo ?tot] =>
      pose proof (slice_loop_debug this m i n todo 0 ltac:(done) ltac:(lia)) as Hloop;
      destruct (MultiTask.slice_loop d r rec c m i n todo tot)
        as [[[done slices] total]| |code]
  end; cbn [mbind result_bind]; [|done|by eexists].
  destruct Hloop as [Hall ->]. rewrite Z.add_0_l. cbn [andb].
  destruct (slices_volume (out_slices output) =? _) eqn:Hvol; cbn [negb];
    [|by eexists].
  apply Z.eqb_eq in Hvol.
  destruct Hviolated as [Hne|(slice & Hin & Hzero)]; [done|].
  by destruct (Hall slice Hin).
Qed.
End checks.

Lemma violated_partition_is_fatal_witness :
  ∃ code,
    slice_index_space true example_forest false MultiTask.blank (OfIndex example_index)
      short_output = Fatal code
    ∧ (false = false → code = ERROR_INVALID_MAPPER_OUTPUT).
Proof.
  apply (violated_partition_is_fatal example_forest false MultiTask.blank
           (OfIndex example_index) short_output).
  - reflexivity.
  - vm_compute. reflexivity.
  - left. vm_compute. discriminate.
Defined.

(** A release build accepts slices whose volumes fall short of the
    domain, and an empty slice. *)
Lemma release_build_accepts_violation :
  is_ok (slice_index_space false example_forest false MultiTask.blank
           (OfIndex example_index) short_output) = true
  ∧ MultiTask.slices_volume example_forest (out_slices short_output) = 1
  ∧ get_volume (find_launch_space_domain example_forest (example_space 1)) = 2
  ∧ is_ok (slice_index_space false example_forest false MultiTask.blank
             (OfIndex example_index) empty_slice_output) = true
  ∧ get_volume (MultiTask.slice_domain example_forest (example_slice 5)) = 0.
Proof. repeat split; vm_compute; reflexivity. Qed.

End SlicingFacts.
(** ** The decomposition of an index launch *)

Module DecompositionFacts.
Import Launch.

Section tree.
Context {DomainPoint : Type}.
Variable DEBUG_LEGION : bool.
Variable runtime : Runtime DomainPoint.
Variable is_recording : bool.
Variable recycled_multi : MultiTask.t.
Variable recycled_task : TaskOp.t.

Notation MapperScript := (MapperScript (DomainPoint := DomainPoint)).
Notation Sliceable := (Sliceable (DomainPoint := DomainPoint)).
Notation clone_as_slice_task := (clone_as_slice_task DEBUG_LEGION recycled_multi).
Notation slice_index_space :=
  (slice_index_space DEBUG_LEGION runtime is_recording recycled_multi).
Notation decompose := (decompose DEBUG_LEGION runtime is_recording recycled_multi).
Notation trigger_mapping :=
  (trigger_mapping DEBUG_LEGION runtime is_recording recycled_multi).
Notation complete_slice := (MultiTask.complete_slice runtime).
Notation child_of := (child_of runtime).
Notation sums_to_whole :=
  (sums_to_whole DEBUG_LEGION runtime is_recording recycled_multi).

(** Induction on a script, with the hypothesis for the scripts of the
    slices. *)
Lemma MapperScript_induction (P : MapperScript → Prop) :
  (∀ outs verify, Forall (λ o, P o.2) outs → P (Script outs verify)) →
  ∀ script, P script.
Proof.
  intros Hscript. fix IH 1. intros [outs verify]. apply Hscript.
  induction outs as [|[slice sub] outs IHouts]; constructor; [apply IH|apply IHouts].
Qed.

Lemma check_slice_completes internal slice total slice' total' :
  MultiTask.check_slice DEBUG_LEGION runtime is_recording internal slice total
    = Ok (slice', total') →
  slice' = complete_slice slice.
Proof.
  unfold MultiTask.check_slice.
  repeat match goal with
         | |- context [if ?b then _ else _] => destruct b
         end; congruence.
Qed.

Lemma complete_slice_recurse slice :
  ts_recurse (complete_slice slice) = ts_recurse slice.
Proof. unfold MultiTask.complete_slice. by destruct (_ && _). Qed.

Lemma clone_as_slice_task_child this m slice num_slices s :
  clone_as_slice_task this m (ts_domain_is (complete_slice slice))
    (ts_proc (complete_slice slice)) (ts_recurse (complete_slice slice))
    (ts_stealable (complete_slice slice)) num_slices = Ok s →
  child_of this num_slices slice s.
Proof.
  rewrite complete_slice_recurse.
  destruct this as [i|s0]; cbn;
    unfold IndexTask.clone_as_slice_task, SliceTask.clone_as_slice_task,
      MultiTask.clone_multi_from;
    intros (m' & (b & _ & [= <-])%result_bind_ok & [= <-])%result_bind_ok; done.
Qed.

Lemma slice_loop_children this m internal num_slices : ∀ todo total done slices total',
  MultiTask.slice_loop DEBUG_LEGION runtime is_recording (clone_as_slice_task this)
    m internal num_slices todo total = Ok (done, slices, total') →
  Forall2 (child_of this num_slices) todo slices.
Proof.
  induction todo as [|slice todo IH]; intros total done slices total' Hloop.
  { injection Hloop as <- <- <-. constructor. }
  cbn [MultiTask.slice_loop] in Hloop.
  apply result_bind_ok in Hloop as ([slice' total1] & Hcheck & Hloop).
  apply check_slice_completes in Hcheck as ->.
  apply result_bind_ok in Hloop as (new_slice & Hclone & Hloop).
  apply result_bind_ok in Hloop as ([[done' slices'] total2] & Hrest & [= <- <- <-]).
  constructor; [by eapply clone_as_slice_task_child|by eapply IH].
Qed.

Lemma slice_index_space_children this output this' slices :
  slice_index_space this output = Ok (this', slices) →
  out_slices output ≠ []
  ∧ Forall2 (child_of this (wrap_ll (Z.of_nat (length (out_slices output)))))
      (out_slices output) slices.
Proof.
  unfold Launch.slice_index_space, MultiTask.slice_index_space.
  intros ([m sl] & Hs & [= <- <-])%result_bind_ok.
  apply result_bind_ok in Hs as ([] & _ & Hs).
  case_bool_decide as Hempty; [done|]. split; [done|].
  apply result_bind_ok in Hs as ([[done sls] total] & Hloop & Hs).
  destruct (_ && _); [done|].
  apply result_bind_ok in Hs as ([] & _ & [= <- <-]).
  by eapply slice_loop_children.
Qed.

(** *** The denominators *)

Lemma make_one_scale D k :
  0 < D → 0 < k → (Qc_of_Z k * Fraction.make 1 (D * k) = Fraction.make 1 D)%Qc.
Proof.
  intros HD Hk. unfold Fraction.make. rewrite Z2Qc_inj_mul.
  assert (Qc_of_Z D ≠ 0%Qc) as HD' by (rewrite <-Z2Qc_inj_0; intros ?%Z2Qc_inj; lia).
  assert (Qc_of_Z k ≠ 0%Qc) as Hk' by (rewrite <-Z2Qc_inj_0; intros ?%Z2Qc_inj; lia).
  field. done.
Qed.

Lemma fraction_zero : Fraction.make 0 1 = 0%Qc.
Proof. by apply Qc_is_canon. Qed.

Lemma leaf_fraction_app (l1 l2 : list (SliceTask.t DomainPoint)) :
  leaf_fraction (l1 ++ l2) = Fraction.add (leaf_fraction l1) (leaf_fraction l2).
Proof.
  unfold leaf_fraction, Fraction.add, Fraction.t.
  induction l1 as [|s l1 IH]; cbn [app foldr].
  - rewrite fraction_zero. ring.
  - rewrite IH. ring.
Qed.

Lemma leaf_fraction_singleton (s : SliceTask.t DomainPoint) :
  leaf_fraction [s] = Fraction.make 1 (SliceTask.denominator s).
Proof.
  unfold leaf_fraction, Fraction.add, Fraction.t. cbn [foldr].
  rewrite fraction_zero. ring.
Qed.

Lemma trigger_slices_fraction this num_slices Dk :
  0 < Dk →
  ∀ outs slices leaves,
    Forall (λ o, sums_to_whole o.2) outs →
    Forall2 (child_of this num_slices) (fst <$> outs) slices →
    Forall (λ s, SliceTask.denominator s = Dk) slices →
    forallb (λ '(slice, sub), if ts_recurse slice then fits sub Dk else true) outs = true →
    trigger_slices decompose outs slices = Ok leaves →
    leaf_fraction leaves = (Qc_of_Z (Z.of_nat (length outs)) * Fraction.make 1 Dk)%Qc.
Proof.
  intros HDk. induction outs as [|[slice sub] outs IH];
    intros slices leaves Hsubs Hchildren Hden Hfits Hrun.
  { destruct slices; injection Hrun as <-; unfold leaf_fraction, Fraction.t;
      cbn [foldr length]; change (Z.of_nat 0) with 0;
      rewrite fraction_zero, Z2Qc_inj_0; ring. }
  rewrite fmap_cons in Hchildren.
  apply Forall2_cons_inv_l in Hchildren as (s & slices' & Hchild & Hchildren & ->).
  apply Forall_cons in Hden as [Hs Hden]. apply Forall_cons in Hsubs as [Hsub Hsubs].
  cbn [forallb] in Hfits. apply andb_true_iff in Hfits as [Hfit Hfits].
  cbn [trigger_slices] in Hrun.
  apply result_bind_ok in Hrun as (r & Hr & Hrun).
  apply result_bind_ok in Hrun as (rs & Hrs & [= <-]).
  rewrite leaf_fraction_app, (IH _ _ Hsubs Hchildren Hden Hfits Hrs).
  assert (leaf_fraction r = Fraction.make 1 Dk) as ->.
  { destruct Hchild as (_ & Hsliced & _). unfold MultiTask.is_sliced in Hr.
    rewrite Hsliced in Hr. cbn [fst] in Hr.
    destruct (ts_recurse slice); cbn [negb] in Hr.
    - rewrite <-Hs. apply (Hsub (OfSlice s) r Hr); cbn [denominator_of snd];
        rewrite Hs; [done|exact Hfit].
    - injection Hr as <-. by rewrite leaf_fraction_singleton, Hs. }
  cbn [length]. rewrite Nat2Z.inj_succ, <-Z.add_1_r, Z2Qc_inj_add, Z2Qc_inj_1.
  unfold Fraction.add, Fraction.t. ring.
Qed.

(** The children of a slicing that fits get the denominator D times k. *)
Lemma children_denominator this output this' slices :
  slice_index_space this output = Ok (this', slices) →
  0 < denominator_of this →
  denominator_of this * Z.of_nat (length (out_slices output)) < 2 ^ 63 →
  length slices = length (out_slices output)
  ∧ Forall (λ s, SliceTask.denominator s
                 = denominator_of this * Z.of_nat (length (out_slices output))) slices.
Proof.
  intros [Hne Hchildren]%slice_index_space_children HD Hfit.
  split; [symmetry; by eapply Forall2_length|].
  assert (0 < Z.of_nat (length (out_slices output))) as Hk.
  { destruct (out_slices output); [done|cbn; lia]. }
  assert (wrap_ll (Z.of_nat (length (out_slices output)))
          = Z.of_nat (length (out_slices output))) as Hwrap.
  { apply wrap_ll_small. nia. }
  rewrite Hwrap in Hchildren.
  eapply Forall2_Forall_r; [exact Hchildren|]. apply Forall_forall.
  intros slice _ s (Hden & _). rewrite Hden.
  destruct this as [i|s0]; cbn [denominator_of] in *; [lia|].
  apply wrap_ll_small. nia.
Qed.

Lemma decompose_sums_to_whole (script : MapperScript) : sums_to_whole script.
Proof.
  induction script as [outs verify IH] using MapperScript_induction.
  intros this leaves Hrun HD Hfits. cbn [Launch.decompose] in Hrun.
  apply result_bind_ok in Hrun as ([this' slices] & Hslice & Hrun).
  cbn [fits] in Hfits. apply andb_true_iff in Hfits as [Hfit%Z.ltb_lt Hfits].
  pose proof (slice_index_space_children _ _ _ _ Hslice) as [Hne Hchildren].
  pose proof (children_denominator _ _ _ _ Hslice HD) as [_ Hden];
    cbn [out_slices] in *; rewrite ?length_fmap in *; [done|].
  assert (0 < Z.of_nat (length outs)) as Hk.
  { destruct outs; [done|cbn; lia]. }
  rewrite (trigger_slices_fraction this _ (denominator_of this * Z.of_nat (length outs))
             ltac:(nia) outs slices leaves IH Hchildren Hden Hfits Hrun).
  by apply make_one_scale.
Qed.

Lemma fraction_one : Fraction.make 1 1 = 1%Qc.
Proof. by apply Qc_is_canon. Qed.

(** X2. As long as no denominator leaves the range of [long long]: a
    slicing of a launch or slice of denominator D in k slices gives each
    of the k slices the denominator D times k (the launch itself counts
    as denominator 1), and over the terminal slices of the decomposition
    of an index launch, however deep, the sum of 1/denominator is the
    rational 1; below any slice it is 1/D. *)
Theorem leaf_fractions_sum_to_one (script : MapperScript)
    (index : IndexTask.t DomainPoint) (leaves : list (SliceTask.t DomainPoint)) :
  fits script 1 = true →
  trigger_mapping script index = Ok leaves →
  leaf_fraction leaves = 1%Qc
  ∧ (∀ this output this' slices,
       slice_index_space this output = Ok (this', slices) →
       0 < denominator_of this →
       denominator_of this * Z.of_nat (length (out_slices output)) < 2 ^ 63 →
       length slices = length (out_slices output)
       ∧ Forall (λ s, SliceTask.denominator s
                      = denominator_of this * Z.of_nat (length (out_slices output)))
           slices)
  ∧ (∀ sub, sums_to_whole sub).
Proof.
  intros Hfits Hrun.
  split; [|split; [apply children_denominator|apply decompose_sums_to_whole]].
  rewrite <-fraction_one. unfold Launch.trigger_mapping in Hrun.
  destruct (TaskOp.is_origin_mapped _) eqn:Horigin.
  { by apply (decompose_sums_to_whole script (OfIndex index) leaves Hrun). }
  apply result_bind_ok in Hrun as ([still_local sent] & Hdist & Hrun).
  destruct still_local.
  { by apply (decompose_sums_to_whole script (OfIndex index) leaves Hrun). }
  unfold IndexTask.distribute_task in Hdist. rewrite Horigin in Hdist.
  destruct (_ && _); [|by injection Hdist].
  apply result_bind_ok in Hdist as (clone & Hclone & [= <-]).
  unfold IndexTask.clone_as_slice_task in Hclone.
  apply result_bind_ok in Hclone as (m & _ & [= <-]).
  by apply (decompose_sums_to_whole script (OfSlice _) leaves Hrun).
Qed.

(** *** The points *)

Lemma clone_points_index_points recycled (s : SliceTask.t DomainPoint) : ∀ itr pts,
  SliceTask.clone_points DEBUG_LEGION recycled s itr = Ok pts →
  PointTask.index_point <$> pts = itr.
Proof.
  induction itr as [|p itr IH]; intros pts Hclone; cbn in Hclone.
  { by injection Hclone as <-. }
  apply result_bind_ok in Hclone as (pt & Hpt & Hclone).
  apply result_bind_ok in Hclone as (pts' & Hpts & [= <-]).
  unfold SliceTask.clone_as_point_task in Hpt.
  apply result_bind_ok in Hpt as (b & _ & [= <-]).
  rewrite fmap_cons, (IH _ Hpts). done.
Qed.

Lemma enumerate_points_index_points recycled (s s' : SliceTask.t DomainPoint) :
  SliceTask.enumerate_points DEBUG_LEGION runtime recycled s = Ok s' →
  PointTask.index_point <$> SliceTask.points s' = leaf_points runtime s.
Proof.
  unfold SliceTask.enumerate_points.
  intros ([] & _ & (pts & Hpts & [= <-])%result_bind_ok)%result_bind_ok.
  by apply clone_points_index_points in Hpts.
Qed.

Lemma map_and_launch_index_points (s s' : SliceTask.t DomainPoint) launched :
  SliceTask.points s = [] →
  SliceTask.map_and_launch DEBUG_LEGION runtime recycled_task s = Ok (s', launched) →
  PointTask.index_point <$> launched = leaf_points runtime s.
Proof.
  intros Hnone. unfold SliceTask.map_and_launch.
  rewrite bool_decide_eq_true_2 by done.
  intros (s1 & Henum & ([] & _ & [= <- <-])%result_bind_ok)%result_bind_ok.
  by apply enumerate_points_index_points in Henum.
Qed.

Lemma launch_all_index_points : ∀ leaves tasks,
  Forall (λ s : SliceTask.t DomainPoint, SliceTask.points s = []) leaves →
  launch_all DEBUG_LEGION runtime recycled_task leaves = Ok tasks →
  PointTask.index_point <$> tasks = concat (leaf_points runtime <$> leaves).
Proof.
  induction leaves as [|s leaves IH]; intros tasks Hnone Hrun; cbn in Hrun.
  { by injection Hrun as <-. }
  apply Forall_cons in Hnone as [Hs Hnone].
  apply result_bind_ok in Hrun as ([s' launched] & Hs' & Hrun).
  apply result_bind_ok in Hrun as (rest & Hrest & [= <-]).
  rewrite fmap_app, fmap_cons, (IH _ Hnone Hrest),
    (map_and_launch_index_points _ _ _ Hs Hs'). done.
Qed.

Notation covers := (covers DEBUG_LEGION runtime is_recording recycled_multi).
Notation partitions := (partitions runtime).

Lemma trigger_slices_cover this num_slices :
  ∀ outs slices leaves,
    Forall (λ o, covers o.2) outs →
    Forall2 (child_of this num_slices) (fst <$> outs) slices →
    foldr (λ '(slice, sub) rest,
             (ts_recurse slice = true
              → partitions sub (ts_domain_is (complete_slice slice)))
             ∧ rest) True outs →
    trigger_slices decompose outs slices = Ok leaves →
    Forall (λ s, SliceTask.points s = []) leaves
    ∧ concat (leaf_points runtime <$> leaves)
      ≡ₚ concat ((λ o, slice_points runtime o.1) <$> outs).
Proof.
  induction outs as [|[slice sub] outs IH]; intros slices leaves Hsubs Hchildren Hparts Hrun.
  { destruct slices; injection Hrun as <-; by split. }
  rewrite fmap_cons in Hchildren.
  apply Forall2_cons_inv_l in Hchildren as (s & slices' & Hchild & Hchildren & ->).
  apply Forall_cons in Hsubs as [Hsub Hsubs].
  cbn [foldr] in Hparts. destruct Hparts as [Hpart Hparts].
  cbn [trigger_slices] in Hrun.
  apply result_bind_ok in Hrun as (r & Hr & Hrun).
  apply result_bind_ok in Hrun as (rs & Hrs & [= <-]).
  destruct (IH _ _ Hsubs Hchildren Hparts Hrs) as [Hnone Hperm].
  destruct Hchild as (_ & Hsliced & Hspace & Hpoints).
  assert (Forall (λ s, SliceTask.points s = []) r
          ∧ concat (leaf_points runtime <$> r) ≡ₚ slice_points runtime slice) as [Hr1 Hr2].
  { unfold MultiTask.is_sliced in Hr. rewrite Hsliced in Hr. cbn [fst] in *.
    destruct (ts_recurse slice); cbn [negb] in Hr.
    - destruct (Hsub (OfSlice s) r Hr) as [? Hcover].
      { cbn [multi_of snd]. rewrite Hspace. by apply Hpart. }
      split; [done|]. rewrite Hcover. cbn [multi_of]. by rewrite Hspace.
    - injection Hr as <-. split; [by constructor|].
      cbn. rewrite (right_id_L [] (++)). unfold leaf_points, slice_points.
      by rewrite Hspace. }
  split; [by apply Forall_app|].
  rewrite fmap_app, concat_app, fmap_cons, concat_cons. cbn [fst].
  by rewrite Hr2, Hperm.
Qed.

Lemma decompose_covers (script : MapperScript) : covers script.
Proof.
  induction script as [outs verify IH] using MapperScript_induction.
  intros this leaves Hrun [Hperm Hparts]. cbn [Launch.decompose] in Hrun.
  apply result_bind_ok in Hrun as ([this' slices] & Hslice & Hrun).
  pose proof (slice_index_space_children _ _ _ _ Hslice) as [_ Hchildren].
  cbn [out_slices] in Hchildren.
  destruct (trigger_slices_cover _ _ _ _ _ IH Hchildren Hparts Hrun) as [Hnone Hcover].
  split; [done|]. by rewrite Hcover.
Qed.

(** X3. When at every slicing the slices the mapper returns have the
    points of the sliced space, each one once, the point tasks an index
    launch ends up launching are the points of its launch domain, each
    one once, however deep the launch is sliced; and a slice that
    enumerates its points creates one point task for each point of its
    internal space, in the order of the domain. *)
Theorem each_point_launched_once (script : MapperScript)
    (index : IndexTask.t DomainPoint) (tasks : list (PointTask.t DomainPoint)) :
  partitions script (MultiTask.internal_space (IndexTask.multi index)) →
  launch DEBUG_LEGION runtime is_recording recycled_multi recycled_task script index
    = Ok tasks →
  PointTask.index_point <$> tasks
    ≡ₚ domain_points
         (find_launch_space_domain runtime
            (MultiTask.internal_space (IndexTask.multi index)))
  ∧ (∀ recycled s s',
       SliceTask.enumerate_points DEBUG_LEGION runtime recycled s = Ok s' →
       PointTask.index_point <$> SliceTask.points s' = leaf_points runtime s).
Proof.
  intros Hparts Hrun. split; [|apply enumerate_points_index_points].
  unfold launch in Hrun. apply result_bind_ok in Hrun as (leaves & Hmap & Hrun).
  assert (Forall (λ s, SliceTask.points s = []) leaves
          ∧ concat (leaf_points runtime <$> leaves)
            ≡ₚ domain_points
                 (find_launch_space_domain runtime
                    (MultiTask.internal_space (IndexTask.multi index)))) as [Hnone Hcover].
  { unfold Launch.trigger_mapping in Hmap.
    destruct (TaskOp.is_origin_mapped _) eqn:Horigin.
    { by apply (decompose_covers script (OfIndex index) leaves Hmap). }
    apply result_bind_ok in Hmap as ([still_local sent] & Hdist & Hmap).
    destruct still_local.
    { by apply (decompose_covers script (OfIndex index) leaves Hmap). }
    unfold IndexTask.distribute_task in Hdist. rewrite Horigin in Hdist.
    destruct (_ && _); [|by injection Hdist].
    apply result_bind_ok in Hdist as (clone & Hclone & [= <-]).
    unfold IndexTask.clone_as_slice_task, MultiTask.clone_multi_from in Hclone.
    apply result_bind_ok in Hclone as (m & (b & _ & [= <-])%result_bind_ok & [= <-]).
    by apply (decompose_covers script (OfSlice _) leaves Hmap). }
  by rewrite (launch_all_index_points _ _ Hnone Hrun).
Qed.
End tree.

Lemma leaf_fractions_sum_to_one_witness :
  trigger_mapping true example_forest false MultiTask.blank example_script example_index
  = Ok [example_leaf 2; example_leaf 3]
  ∧ leaf_fraction [example_leaf 2; example_leaf 3] = 1%Qc.
Proof.
  split; [reflexivity|].
  apply (leaf_fractions_sum_to_one true example_forest false MultiTask.blank
           example_script example_index [example_leaf 2; example_leaf 3]);
    reflexivity.
Defined.

(** A chain of 63 bisections passes every check of the debug build; the
    two slices of the last level get the denominator that [2 ^ 62 * 2]
    wraps to, and the fractions of the terminal slices do not add up to
    1. *)
Lemma deep_chain_overflows :
  (λ leaves, last (SliceTask.denominator <$> leaves))
    <$> trigger_mapping true chain_forest false MultiTask.blank (chain_script 63 1)
          example_index = Ok (Some (- 2 ^ 63))
  ∧ (λ leaves, (length leaves, Fraction.is_whole (leaf_fraction leaves)))
      <$> trigger_mapping true chain_forest false MultiTask.blank (chain_script 63 1)
            example_index = Ok (64%nat, false)
  ∧ fits (chain_script 63 1) 1 = false.
Proof. repeat split; vm_compute; reflexivity. Qed.

Lemma each_point_launched_once_witness :
  launch true example_forest false MultiTask.blank TaskOp.blank example_script
    example_index = Ok [example_point 0; example_point 1]
  ∧ PointTask.index_point <$> [example_point 0; example_point 1]
    ≡ₚ domain_points (find_launch_space_domain example_forest (example_space 1)).
Proof.
  split; [reflexivity|].
  apply (each_point_launched_once true example_forest false MultiTask.blank TaskOp.blank
           example_script example_index [example_point 0; example_point 1]);
    [|reflexivity].
  cbn. repeat split; done.
Defined.

(** Two slices that both hold the point 0 have the volume of the launch
    domain, so that the debug build accepts them: the point 0 is launched
    twice and the point 1 is not launched. *)
Lemma overlapping_slices_launch_twice :
  fmap (M := list) PointTask.index_point
    <$> launch true example_forest false MultiTask.blank TaskOp.blank overlapping_script
          example_index = Ok [0; 0]
  ∧ domain_points (find_launch_space_domain example_forest (example_space 1)) = [0; 1].
Proof. split; reflexivity. Qed.

End DecompositionFacts.
(** ** Reductions of the point results *)

Module ReductionFacts.
Import Reduction IndexTask.

Section ordered_map.
Context {K V : Type}.
Variable key_lt : K → K → bool.
Hypothesis lt_irrefl : ∀ x, key_lt x x = false.
Hypothesis lt_trans : ∀ x y z, key_lt x y = true → key_lt y z = true → key_lt x z = true.
Hypothesis lt_total : ∀ x y, key_lt x y = false → key_lt y x = false → x = y.

Notation sorted := (StronglySorted (λ a b : K * V, key_lt a.1 b.1 = true)).

Lemma map_absent_spec (m : list (K * V)) k :
  sorted m → map_absent key_lt k m = true ↔ k ∉ m.*1.
Proof.
  induction 1 as [|[k' v'] m Hm IH Hall]; cbn.
  { split; [intros _ ?%elem_of_nil|]; done. }
  rewrite not_elem_of_cons. destruct (key_lt k k') eqn:Hlt.
  - split; [intros _|done]. split.
    + intros ->. by rewrite lt_irrefl in Hlt.
    + intros ([k'' v''] & -> & Hin)%list_elem_of_fmap.
      rewrite Forall_forall in Hall. specialize (Hall _ Hin). cbn in Hall.
      pose proof (lt_trans _ _ _ Hlt Hall) as Hxx. by rewrite lt_irrefl in Hxx.
  - destruct (key_lt k' k) eqn:Hgt.
    + rewrite IH. split; [intros ?; split; [|done]|by intros [_ ?]].
      intros ->. by rewrite lt_irrefl in Hgt.
    + split; [done|]. intros [Hne _]. by destruct Hne, (lt_total _ _ Hlt Hgt).
Qed.

Lemma map_assign_fresh (m : list (K * V)) k v :
  sorted m → k ∉ m.*1 →
  sorted (map_assign key_lt k v m) ∧ map_assign key_lt k v m ≡ₚ (k, v) :: m.
Proof.
  induction 1 as [|[k' v'] m Hm IH Hall]; intros Hnew; cbn.
  { split; [|done]. repeat constructor. }
  apply not_elem_of_cons in Hnew as [Hne Hnew]. cbn in Hne.
  destruct (key_lt k k') eqn:Hlt.
  - split; [|done]. constructor; [by constructor|].
    constructor; [done|]. eapply Forall_impl; [exact Hall|].
    intros [k'' v''] Hlt'. cbn in *. by eapply lt_trans.
  - destruct (key_lt k' k) eqn:Hgt; [|by destruct Hne, (lt_total _ _ Hlt Hgt)].
    destruct (IH Hnew) as [Hsorted Hperm]. split.
    + constructor; [done|]. rewrite Hperm. by constructor.
    + rewrite Hperm. apply Permutation_swap.
Qed.

Lemma sorted_unique (l1 l2 : list (K * V)) :
  sorted l1 → sorted l2 → l1 ≡ₚ l2 → l1 = l2.
Proof.
  apply StronglySorted_unique. intros a b Hab Hba.
  pose proof (lt_trans _ _ _ Hab Hba) as Hxx. by rewrite lt_irrefl in Hxx.
Qed.
End ordered_map.

Section deterministic.
Context {DomainPoint : Type}.
Variable point_lt : DomainPoint → DomainPoint → bool.
Variable DEBUG_LEGION : bool.
Hypothesis point_order : strict_total_order point_lt.

Notation handle_future := (handle_future point_lt DEBUG_LEGION).
Notation handle_futures := (handle_futures point_lt DEBUG_LEGION).
Notation in_point_order := (in_point_order point_lt).
Notation fold_reduction_future := (fold_reduction_future (DomainPoint := DomainPoint) DEBUG_LEGION).
Notation fold_temporary_futures :=
  (fold_temporary_futures (DomainPoint := DomainPoint) DEBUG_LEGION).
Notation trigger_task_complete :=
  (trigger_task_complete (DomainPoint := DomainPoint) DEBUG_LEGION).

(** The buffers [tf] points to are allocated. *)
Notation allocated mem tf := (Forall (λ entry : DomainPoint * (N * Z), is_Some (mem !! (entry.2).1)) tf).

Lemma buffered_keys (mem : Memory) (tf : list (DomainPoint * (N * Z))) :
  (buffered mem tf).*1 = tf.*1.
Proof. unfold buffered. rewrite <-list_fmap_compose. done. Qed.

Lemma buffered_frame (mem mem' : Memory) (tf : list (DomainPoint * (N * Z))) :
  allocated mem tf →
  (∀ ptr, is_Some (mem !! ptr) → mem' !! ptr = mem !! ptr) →
  buffered mem' tf = buffered mem tf.
Proof.
  intros Halloc Hkeep. unfold buffered. apply Forall_fmap_ext_1.
  eapply Forall_impl; [exact Halloc|]. intros [p [ptr size]] Hin. cbn in *.
  by rewrite Hkeep.
Qed.

Lemma in_point_order_buffered (mem : Memory) (tf : list (DomainPoint * (N * Z))) :
  in_point_order tf → in_point_order (buffered mem tf).
Proof.
  unfold IndexTask.in_point_order, buffered.
  induction 1 as [|entry tf Htf IH Hall]; cbn; constructor; [done|].
  apply Forall_fmap. eapply Forall_impl; [exact Hall|]. done.
Qed.

(** A result for a point that has none yet is buffered under its point;
    nothing else changes, and no allocated buffer is written. *)
Lemma handle_future_buffers must_epoch (a : Arrival) (mem : Memory) (s : t DomainPoint) op :
  reduction_op (red s) = Some op →
  MultiTask.deterministic_redop (multi s) = true →
  in_point_order (temporary_futures (red s)) →
  arr_point a ∉ (temporary_futures (red s)).*1 →
  is_Some (mem !! arr_ptr a) →
  allocated mem (temporary_futures (red s)) →
  ∃ mem' tf',
    handle_future must_epoch (arr_point a) (arr_ptr a) (arr_size a) (arr_owner a) mem s
      = Ok (mem', set_red (set_temporary_futures tf' (red s)) s)
    ∧ in_point_order tf'
    ∧ buffered mem' tf' ≡ₚ (arr_point a, arrival_value mem a)
                            :: buffered mem (temporary_futures (red s))
    ∧ (∀ ptr, is_Some (mem !! ptr) → mem' !! ptr = mem !! ptr)
    ∧ allocated mem' tf'.
Proof.
  destruct point_order as (Hirr & Htrans & Htotal).
  intros Hop Hdet Hsorted Hnew Hptr Halloc.
  unfold IndexTask.handle_future. rewrite Hop, Hdet.
  rewrite bool_decide_eq_true_2 by done.
  assert (map_absent point_lt (arr_point a) (temporary_futures (red s)) = true) as Habsent.
  { by apply map_absent_spec. }
  unfold arrival_value. destruct (arr_owner a).
  - rewrite Habsent, debug_assert_true. cbn [mbind result_bind mret result_ret].
    destruct (map_assign_fresh point_lt Htrans Htotal (temporary_futures (red s))
                (arr_point a) (arr_ptr a, arr_size a) Hsorted Hnew) as [Hsorted' Hperm].
    eexists mem, _. split; [reflexivity|]. split; [exact Hsorted'|].
    split; [|split; [done|]].
    + unfold buffered. by rewrite Hperm.
    + rewrite Hperm. by constructor.
  - unfold malloc, memcpy, Memory in *. cbn [fst snd].
    rewrite Habsent, debug_assert_true. cbn [mbind result_bind mret result_ret].
    set (copy := fresh (dom mem)).
    assert (mem !! copy = None) as Hfresh.
    { apply not_elem_of_dom, is_fresh. }
    assert (copy ≠ arr_ptr a) as Hne.
    { intros Heq. rewrite <-Heq, Hfresh in Hptr. by destruct Hptr. }
    destruct (map_assign_fresh point_lt Htrans Htotal (temporary_futures (red s))
                (arr_point a) (copy, arr_size a) Hsorted Hnew) as [Hsorted' Hperm].
    set (mem' := <[copy := _]> (<[copy := _]> mem)).
    assert (∀ ptr, is_Some (mem !! ptr) → mem' !! ptr = mem !! ptr) as Hkeep.
    { intros ptr Hsome. unfold mem'.
      assert (copy ≠ ptr) by (intros <-; rewrite Hfresh in Hsome; by destruct Hsome).
      by rewrite !lookup_insert_ne. }
    eexists mem', _. split; [reflexivity|]. split; [exact Hsorted'|].
    split; [|split; [done|]].
    + unfold buffered at 1. rewrite Hperm, fmap_cons. cbn [fst snd].
      fold (buffered mem' (temporary_futures (red s))).
      rewrite (buffered_frame mem mem') by done.
      unfold mem', Memory. rewrite lookup_insert_eq. cbn [default].
      by rewrite lookup_insert_ne.
    + rewrite Hperm. constructor.
      * cbn. unfold mem', Memory. by rewrite lookup_insert_eq.
      * eapply Forall_impl; [exact Halloc|]. intros entry Hsome. by rewrite Hkeep.
Qed.

Lemma set_temporary_futures_twice (s : t DomainPoint) tf1 tf2 :
  set_red (set_temporary_futures tf2 (red (set_red (set_temporary_futures tf1 (red s)) s)))
    (set_red (set_temporary_futures tf1 (red s)) s)
  = set_red (set_temporary_futures tf2 (red s)) s.
Proof. done. Qed.

Lemma arrival_value_frame (mem mem' : Memory) (a : Arrival (DomainPoint := DomainPoint)) :
  is_Some (mem !! arr_ptr a) →
  (∀ ptr, is_Some (mem !! ptr) → mem' !! ptr = mem !! ptr) →
  arrival_value mem' a = arrival_value mem a.
Proof. intros Hptr Hkeep. unfold arrival_value. by rewrite Hkeep. Qed.

(** Results for points that have none yet are all buffered. *)
Lemma handle_futures_buffer must_epoch op : ∀ arrivals (mem : Memory) (s : t DomainPoint),
  reduction_op (red s) = Some op →
  MultiTask.deterministic_redop (multi s) = true →
  in_point_order (temporary_futures (red s)) →
  NoDup (arr_point <$> arrivals) →
  Forall (λ a, arr_point a ∉ (temporary_futures (red s)).*1) arrivals →
  Forall (λ a, is_Some (mem !! arr_ptr a)) arrivals →
  allocated mem (temporary_futures (red s)) →
  ∃ mem' tf',
    handle_futures must_epoch arrivals mem s
      = Ok (mem', set_red (set_temporary_futures tf' (red s)) s)
    ∧ in_point_order tf'
    ∧ buffered mem' tf' ≡ₚ ((λ a, (arr_point a, arrival_value mem a)) <$> arrivals)
                            ++ buffered mem (temporary_futures (red s))
    ∧ (∀ ptr, is_Some (mem !! ptr) → mem' !! ptr = mem !! ptr)
    ∧ allocated mem' tf'.
Proof.
  induction arrivals as [|a arrivals IH];
    intros mem s Hop Hdet Hsorted Hnodup Hnew Hptrs Halloc.
  { exists mem, (temporary_futures (red s)). cbn.
    split; [by destruct s as [? ? ? []]|]. done. }
  rewrite fmap_cons in Hnodup. apply NoDup_cons in Hnodup as [Hfirst Hnodup].
  apply Forall_cons in Hnew as [Hnew_a Hnew]. apply Forall_cons in Hptrs as [Hptr Hptrs].
  destruct (handle_future_buffers must_epoch a mem s op Hop Hdet Hsorted Hnew_a Hptr Halloc)
    as (mem1 & tf1 & Hstep & Hsorted1 & Hperm1 & Hkeep1 & Halloc1).
  cbn [IndexTask.handle_futures]. rewrite Hstep. cbn [mbind result_bind].
  set (s1 := set_red (set_temporary_futures tf1 (red s)) s).
  assert (tf1.*1 ≡ₚ arr_point a :: (temporary_futures (red s)).*1) as Hkeys.
  { rewrite <-!buffered_keys with (mem := mem1), Hperm1, fmap_cons.
    cbn [fst]. by rewrite !buffered_keys. }
  destruct (IH mem1 s1) as (mem2 & tf2 & Hrest & Hsorted2 & Hperm2 & Hkeep2 & Halloc2);
    try done.
  - apply Forall_forall. intros a' Hin. cbn. rewrite Hkeys, not_elem_of_cons. split.
    + intros Heq. apply Hfirst. rewrite <-Heq. by apply list_elem_of_fmap_2.
    + rewrite Forall_forall in Hnew. by apply Hnew.
  - eapply Forall_impl; [exact Hptrs|]. intros a' Hsome. cbn in *. by rewrite Hkeep1.
  - exists mem2, tf2. rewrite Hrest. unfold s1. rewrite set_temporary_futures_twice.
    split; [done|]. split; [done|]. split; [|split; [|done]].
    + rewrite Hperm2. cbn [temporary_futures red s1 set_red set_temporary_futures].
      rewrite Hperm1, fmap_cons.
      assert (((λ a0, (arr_point a0, arrival_value mem1 a0)) <$> arrivals)
              = ((λ a0, (arr_point a0, arrival_value mem a0)) <$> arrivals)) as ->.
      { apply Forall_fmap_ext_1. eapply Forall_impl; [exact Hptrs|].
        intros a' Hsome. cbn. by rewrite (arrival_value_frame mem mem1). }
      by rewrite <-Permutation_middle.
    + intros ptr Hsome. rewrite Hkeep2; [by apply Hkeep1|]. by rewrite Hkeep1.
Qed.

(** The loop of [trigger_task_complete] folds the buffered bytes in the
    order of the map, and writes no memory. *)
Lemma fold_temporary_futures_spec op : ∀ tf (mem : Memory) (r : ReductionFields DomainPoint) st,
  reduction_op r = Some op →
  is_foldable op = true →
  reduction_state r = Some st →
  fold_temporary_futures tf mem r
  = Ok (mem,
        mkReductionFields (reduction_op r) (serdez_redop_fns r)
          (Some (foldl (fold_value op (serdez_redop_fns r) (reduction_state_size r) true)
                   st (snd <$> buffered mem tf)))
          (reduction_state_size r) (temporary_futures r) (reduction_future r)
          (future_map r)).
Proof.
  induction tf as [|[p [ptr size]] tf IH]; intros mem r st Hop Hfold Hst.
  { cbn. rewrite <-Hst. by destruct r. }
  cbn [IndexTask.fold_temporary_futures]. unfold IndexTask.fold_reduction_future.
  rewrite Hop, Hst, Hfold.
  rewrite bool_decide_eq_true_2, !debug_assert_true by done.
  cbn [mbind result_bind mret result_ret].
  erewrite IH; [|done|done|reflexivity]. cbn. unfold fold_value.
  by destruct (serdez_redop_fns r).
Qed.

(** A foldable operator initialises a freshly activated launch. *)
Lemma initialize_task_foldable uid recycled redop_id op serdez deterministic :
  is_foldable op = true →
  initialize_task DEBUG_LEGION redop_id op serdez deterministic
    (activate_index_task (DomainPoint := DomainPoint) uid recycled)
  = Ok (mk uid
          (MultiTask.mk (TaskOp.activate_task (MultiTask.base recycled)) NO_SPACE NO_SPACE
             false redop_id deterministic false false)
          (mkProgress (Fraction.make 0 1) 0 0 0 0)
          (mkReductionFields (Some op) serdez (Some (initial_state op serdez))
             (sizeof_rhs op) [] None [])).
Proof.
  intros Hfold. unfold initialize_task, initialize_reduction_state. cbn.
  rewrite Hfold. cbn. rewrite ?debug_assert_true. cbn.
  rewrite ?bool_decide_eq_true_2 by done. rewrite ?debug_assert_true. done.
Qed.

(** The result of a deterministic reduction: the fold, from the initial
    value, of the results in the order of their points. *)
Lemma deterministic_result must_epoch uid recycled redop_id op serdez arrivals
    (mem : Memory) :
  redop_id ≠ 0 →
  is_foldable op = true →
  NoDup (arr_point <$> arrivals) →
  Forall (λ a, is_Some (mem !! arr_ptr a)) arrivals →
  ∃ s0 mem1 s1 mem2 s2 sorted,
    initialize_task DEBUG_LEGION redop_id op serdez true
      (activate_index_task (DomainPoint := DomainPoint) uid recycled) = Ok s0
    ∧ handle_futures must_epoch arrivals mem s0 = Ok (mem1, s1)
    ∧ trigger_task_complete true mem1 s1 = Ok (mem2, s2)
    ∧ sorted ≡ₚ (λ a, (arr_point a, arrival_value mem a)) <$> arrivals
    ∧ in_point_order sorted
    ∧ reduction_future (red s2)
      = Some (foldl (fold_value op serdez (sizeof_rhs op) true) (initial_state op serdez)
                (snd <$> sorted)).
Proof.
  intros Hredop Hfold Hnodup Hptrs.
  eexists. rewrite (initialize_task_foldable _ _ _ _ _ _ Hfold).
  match goal with |- context [Ok ?s = Ok _] => set (s0 := s) end.
  assert (in_point_order (temporary_futures (red s0))) as Hempty by constructor.
  assert (Forall (λ a : Arrival, arr_point a ∉ (temporary_futures (red s0)).*1) arrivals)
    as Hnew.
  { apply Forall_forall. intros a _. apply not_elem_of_nil. }
  assert (allocated mem (temporary_futures (red s0))) as Hnone by constructor.
  destruct (handle_futures_buffer must_epoch op arrivals mem s0 eq_refl eq_refl Hempty
              Hnodup Hnew Hptrs Hnone)
    as (mem1 & tf & Hrun & Hsorted & Hperm & Hkeep & Halloc).
  exists mem1, (set_red (set_temporary_futures tf (red s0)) s0).
  unfold IndexTask.trigger_task_complete.
  cbn [multi red set_red set_temporary_futures s0 MultiTask.redop
       MultiTask.deterministic_redop temporary_futures].
  rewrite (proj2 (Z.eqb_neq redop_id 0) Hredop). cbn [negb].
  erewrite fold_temporary_futures_spec; [|reflexivity|exact Hfold|reflexivity].
  cbn [mbind result_bind mret result_ret].
  eexists mem1, _, (buffered mem1 tf).
  split; [reflexivity|]. split; [exact Hrun|]. split; [reflexivity|].
  split; [|split; [by apply in_point_order_buffered|reflexivity]].
  rewrite Hperm. cbn. by rewrite (right_id_L [] (++)).
Qed.

(** X4. A launch with a deterministic reduction, initialised with a
    foldable operator, that is handed one result per point (the buffers
    allocated, the points distinct, in any order) and then completes:
    every call succeeds, and the value set on the reduction future is
    the fold, from the operator's initial value, of the results taken
    in the order of their points (of the buffer the launch owns, or of
    its copy of [result_size] bytes); it is the same for every order of
    arrival. *)
Theorem deterministic_fold_in_point_order (must_epoch : bool) (uid : Z)
    (recycled : MultiTask.t) (redop_id : Z) (op : ReductionOp)
    (serdez : option SerdezRedopFns) (arrivals : list Arrival) (mem : Memory) :
  redop_id ≠ 0 →
  is_foldable op = true →
  NoDup (arr_point <$> arrivals) →
  Forall (λ a, is_Some (mem !! arr_ptr a)) arrivals →
  ∃ s0 mem1 s1 mem2 s2 sorted,
    initialize_task DEBUG_LEGION redop_id op serdez true
      (activate_index_task (DomainPoint := DomainPoint) uid recycled) = Ok s0
    ∧ handle_futures must_epoch arrivals mem s0 = Ok (mem1, s1)
    ∧ trigger_task_complete true mem1 s1 = Ok (mem2, s2)
    ∧ sorted ≡ₚ (λ a, (arr_point a, arrival_value mem a)) <$> arrivals
    ∧ in_point_order sorted
    ∧ reduction_future (red s2)
      = Some (foldl (fold_value op serdez (sizeof_rhs op) true) (initial_state op serdez)
                (snd <$> sorted))
    ∧ ∀ arrivals',
        arrivals' ≡ₚ arrivals →
        ∃ mem1' s1' mem2' s2',
          handle_futures must_epoch arrivals' mem s0 = Ok (mem1', s1')
          ∧ trigger_task_complete true mem1' s1' = Ok (mem2', s2')
          ∧ reduction_future (red s2') = reduction_future (red s2).
Proof.
  intros Hredop Hfold Hnodup Hptrs.
  destruct (deterministic_result must_epoch uid recycled redop_id op serdez arrivals mem)
    as (s0 & mem1 & s1 & mem2 & s2 & sorted & Hinit & Hrun & Hdone & Hperm & Hsorted & Hres);
    try done.
  exists s0, mem1, s1, mem2, s2, sorted. repeat (split; [done|]).
  intros arrivals' Hperm'.
  destruct (deterministic_result must_epoch uid recycled redop_id op serdez arrivals' mem)
    as (s0' & mem1' & s1' & mem2' & s2' & sorted' & Hinit' & Hrun' & Hdone' & Hperm2
        & Hsorted' & Hres'); try done.
  { by rewrite Hperm'. }
  { by rewrite Hperm'. }
  assert (s0' = s0) as -> by congruence.
  exists mem1', s1', mem2', s2'. repeat (split; [done|]).
  rewrite Hres, Hres'. do 3 f_equal.
  destruct point_order as (Hirr & Htrans & Htotal).
  apply (sorted_unique point_lt Hirr Htrans); [done..|].
  by rewrite Hperm2, Hperm, Hperm'.
Qed.

(** *** The buffers *)

Lemma deactivate_multi_lookup (tf : list (DomainPoint * (N * Z))) : ∀ (mem : Memory) ptr,
  foldl (λ m entry, free m (entry.2).1) mem tf !! ptr
  = if bool_decide (ptr ∈ buffer_addresses tf) then None else mem !! ptr.
Proof.
  unfold buffer_addresses.
  induction tf as [|[p [q size]] tf IH]; intros mem ptr; cbn [foldl fmap list_fmap].
  { by rewrite bool_decide_eq_false_2 by apply not_elem_of_nil. }
  rewrite IH. cbn [fst snd]. unfold free, Memory.
  destruct (decide (ptr = q)) as [->|Hne].
  - rewrite lookup_delete_eq, (bool_decide_eq_true_2 (q ∈ q :: _)) by (by left).
    by case_bool_decide.
  - rewrite lookup_delete_ne by done.
    apply (f_equal (λ b : bool, if b then None else mem !! ptr)).
    apply bool_decide_ext. rewrite elem_of_cons. naive_solver.
Qed.

(** Where a buffered result is kept: in the buffer handed over, or in a
    copy at an address that was free. *)
Lemma handle_future_keeps must_epoch (a : Arrival) (mem : Memory) (s : t DomainPoint) op :
  reduction_op (red s) = Some op →
  MultiTask.deterministic_redop (multi s) = true →
  in_point_order (temporary_futures (red s)) →
  arr_point a ∉ (temporary_futures (red s)).*1 →
  ∃ mem' tf' kept,
    handle_future must_epoch (arr_point a) (arr_ptr a) (arr_size a) (arr_owner a) mem s
      = Ok (mem', set_red (set_temporary_futures tf' (red s)) s)
    ∧ in_point_order tf'
    ∧ tf' ≡ₚ (arr_point a, (kept, arr_size a)) :: temporary_futures (red s)
    ∧ (if arr_owner a then kept = arr_ptr a ∧ mem' = mem
       else mem !! kept = None ∧ is_Some (mem' !! kept)
            ∧ ∀ ptr, ptr ≠ kept → mem' !! ptr = mem !! ptr).
Proof.
  destruct point_order as (Hirr & Htrans & Htotal).
  intros Hop Hdet Hsorted Hnew.
  unfold IndexTask.handle_future. rewrite Hop, Hdet.
  rewrite bool_decide_eq_true_2 by done.
  assert (map_absent point_lt (arr_point a) (temporary_futures (red s)) = true) as Habsent.
  { by apply map_absent_spec. }
  destruct (arr_owner a).
  - rewrite Habsent, debug_assert_true. cbn [mbind result_bind mret result_ret].
    destruct (map_assign_fresh point_lt Htrans Htotal (temporary_futures (red s))
                (arr_point a) (arr_ptr a, arr_size a) Hsorted Hnew) as [Hsorted' Hperm].
    eexists mem, _, (arr_ptr a). split; [reflexivity|]. by repeat split.
  - unfold malloc, memcpy, Memory in *. cbn [fst snd].
    rewrite Habsent, debug_assert_true. cbn [mbind result_bind mret result_ret].
    set (copy := fresh (dom mem)).
    assert (mem !! copy = None) as Hfresh.
    { apply not_elem_of_dom, is_fresh. }
    destruct (map_assign_fresh point_lt Htrans Htotal (temporary_futures (red s))
                (arr_point a) (copy, arr_size a) Hsorted Hnew) as [Hsorted' Hperm].
    eexists _, _, copy. split; [reflexivity|]. split; [done|]. split; [done|].
    split; [done|]. split.
    + by rewrite lookup_insert_eq.
    + intros ptr Hne. by rewrite !lookup_insert_ne.
Qed.

Lemma owned_addresses_cons (a : Arrival (DomainPoint := DomainPoint)) arrivals :
  owned_addresses (a :: arrivals)
  = (if arr_owner a then [arr_ptr a] else []) ++ owned_addresses arrivals.
Proof.
  unfold owned_addresses. rewrite filter_cons.
  destruct (arr_owner a); by case_decide.
Qed.

(** All the buffers the launch holds after the arrivals: those it held,
    those handed over, and its copies, at addresses that were free. *)
Lemma handle_futures_keep must_epoch op : ∀ arrivals (mem : Memory) (s : t DomainPoint),
  reduction_op (red s) = Some op →
  MultiTask.deterministic_redop (multi s) = true →
  in_point_order (temporary_futures (red s)) →
  NoDup (arr_point <$> arrivals) →
  Forall (λ a, arr_point a ∉ (temporary_futures (red s)).*1) arrivals →
  ∃ mem' tf',
    handle_futures must_epoch arrivals mem s
      = Ok (mem', set_red (set_temporary_futures tf' (red s)) s)
    ∧ (∀ ptr, is_Some (mem !! ptr) → mem' !! ptr = mem !! ptr)
    ∧ (∀ ptr, ptr ∈ buffer_addresses tf'
              ↔ ptr ∈ buffer_addresses (temporary_futures (red s))
                ∨ ptr ∈ owned_addresses arrivals
                ∨ (mem !! ptr = None ∧ is_Some (mem' !! ptr))).
Proof.
  induction arrivals as [|a arrivals IH]; intros mem s Hop Hdet Hsorted Hnodup Hnew.
  { exists mem, (temporary_futures (red s)). cbn.
    split; [by destruct s as [? ? ? []]|]. split; [done|].
    intros ptr. split; [by left|].
    intros [?|[?%elem_of_nil|[Hnone Hsome]]]; [done..|].
    rewrite Hnone in Hsome. by destruct Hsome. }
  rewrite fmap_cons in Hnodup. apply NoDup_cons in Hnodup as [Hfirst Hnodup].
  apply Forall_cons in Hnew as [Hnew_a Hnew].
  destruct (handle_future_keeps must_epoch a mem s op Hop Hdet Hsorted Hnew_a)
    as (mem1 & tf1 & kept & Hstep & Hsorted1 & Hperm1 & Hkept).
  cbn [IndexTask.handle_futures]. rewrite Hstep. cbn [mbind result_bind].
  set (s1 := set_red (set_temporary_futures tf1 (red s)) s).
  destruct (IH mem1 s1) as (mem2 & tf2 & Hrest & Hkeep2 & Haddr2); try done.
  { apply Forall_forall. intros a' Hin. cbn. rewrite Hperm1, fmap_cons, not_elem_of_cons.
    split.
    - intros Heq. apply Hfirst. cbn in Heq. rewrite <-Heq. by apply list_elem_of_fmap_2.
    - rewrite Forall_forall in Hnew. by apply Hnew. }
  exists mem2, tf2. rewrite Hrest. unfold s1. rewrite set_temporary_futures_twice.
  split; [done|].
  assert (∀ ptr, ptr ∈ buffer_addresses tf1
                 ↔ ptr = kept ∨ ptr ∈ buffer_addresses (temporary_futures (red s)))
    as Haddr1.
  { intros ptr. unfold buffer_addresses. rewrite Hperm1, fmap_cons, elem_of_cons. done. }
  cbn [temporary_futures red s1 set_red set_temporary_futures] in Haddr2.
  rewrite owned_addresses_cons. destruct (arr_owner a).
  - destruct Hkept as [-> ->]. split; [done|]. intros ptr.
    rewrite Haddr2, Haddr1, elem_of_app, list_elem_of_singleton. tauto.
  - destruct Hkept as (Hfree & Hsome & Hother). cbn [app]. split.
    + intros ptr Hptr. assert (ptr ≠ kept) as Hne.
      { intros ->. rewrite Hfree in Hptr. by destruct Hptr. }
      rewrite Hkeep2 by (by rewrite Hother). by apply Hother.
    + intros ptr. rewrite Haddr2, Haddr1. destruct (decide (ptr = kept)) as [->|Hne].
      * split; [intros _|by intros _; left; left].
        right. right. split; [done|]. by rewrite Hkeep2.
      * rewrite (Hother ptr Hne). tauto.
Qed.

(** X6. A launch with a deterministic reduction (initialised with a
    foldable operator, [operator<] a strict total order of the points)
    that is handed one result per point (the points distinct), completes
    and is deactivated has freed exactly the buffers it was given
    ownership of: its own copies of the other results are freed too (no
    address that was free before is left allocated), and every buffer
    whose owner is the caller is left as it was. *)
Theorem deterministic_buffers_are_freed (must_epoch : bool) (uid : Z)
    (recycled : MultiTask.t) (redop_id : Z) (op : ReductionOp)
    (serdez : option SerdezRedopFns) (arrivals : list Arrival) (mem : Memory) :
  redop_id ≠ 0 →
  is_foldable op = true →
  NoDup (arr_point <$> arrivals) →
  ∃ s0 mem1 s1 s2,
    initialize_task DEBUG_LEGION redop_id op serdez true
      (activate_index_task (DomainPoint := DomainPoint) uid recycled) = Ok s0
    ∧ handle_futures must_epoch arrivals mem s0 = Ok (mem1, s1)
    ∧ trigger_task_complete true mem1 s1 = Ok (mem1, s2)
    ∧ temporary_futures (deactivate_multi mem1 (red s2)).2 = []
    ∧ ∀ ptr, (deactivate_multi mem1 (red s2)).1 !! ptr
             = if bool_decide (ptr ∈ owned_addresses arrivals) then None else mem !! ptr.
Proof.
  intros Hredop Hfold Hnodup.
  eexists. rewrite (initialize_task_foldable _ _ _ _ _ _ Hfold).
  match goal with |- context [Ok ?s = Ok _] => set (s0 := s) end.
  assert (in_point_order (temporary_futures (red s0))) as Hempty by constructor.
  assert (Forall (λ a : Arrival, arr_point a ∉ (temporary_futures (red s0)).*1) arrivals)
    as Hnew.
  { apply Forall_forall. intros a _. apply not_elem_of_nil. }
  destruct (handle_futures_keep must_epoch op arrivals mem s0 eq_refl eq_refl Hempty
              Hnodup Hnew) as (mem1 & tf & Hrun & Hkeep & Haddr).
  exists mem1, (set_red (set_temporary_futures tf (red s0)) s0).
  unfold IndexTask.trigger_task_complete.
  cbn [multi red set_red set_temporary_futures s0 MultiTask.redop
       MultiTask.deterministic_redop temporary_futures].
  rewrite (proj2 (Z.eqb_neq redop_id 0) Hredop). cbn [negb].
  erewrite fold_temporary_futures_spec; [|reflexivity|exact Hfold|reflexivity].
  cbn [mbind result_bind mret result_ret].
  eexists. split; [reflexivity|]. split; [exact Hrun|]. split; [reflexivity|].
  split; [reflexivity|]. intros ptr.
  cbn [deactivate_multi fst red set_red temporary_futures].
  rewrite deactivate_multi_lookup. specialize (Haddr ptr). cbn in Haddr.
  do 2 case_bool_decide; try done.
  - destruct Haddr as [[?%elem_of_nil|[?|[-> _]]] _]; done.
  - destruct Haddr as [_ Hin]. destruct H. apply Hin. by right; left.
  - destruct (mem !! ptr) eqn:Hold.
    { rewrite <-Hold. apply Hkeep. by rewrite Hold. }
    destruct (mem1 !! ptr) eqn:Hnow; [|done].
    destruct H. apply Haddr. right. right. split; [done|]. by eexists.
Qed.
End deterministic.

Lemma Z_ltb_strict_total_order : strict_total_order Z.ltb.
Proof.
  split; [|split].
  - intros x. apply Z.ltb_irrefl.
  - intros x y z ?%Z.ltb_lt ?%Z.ltb_lt. apply Z.ltb_lt. lia.
  - intros x y ?%Z.ltb_ge ?%Z.ltb_ge. lia.
Qed.

Lemma deterministic_buffers_are_freed_witness :
  ∃ s0 mem1 s1 s2,
    initialize_task true 1 append_op None true
      (activate_index_task (DomainPoint := Z) 7 MultiTask.blank) = Ok s0
    ∧ handle_futures Z.ltb true false example_arrivals example_memory s0 = Ok (mem1, s1)
    ∧ trigger_task_complete true true mem1 s1 = Ok (mem1, s2)
    ∧ temporary_futures (deactivate_multi mem1 (red s2)).2 = []
    ∧ ∀ ptr, (deactivate_multi mem1 (red s2)).1 !! ptr
             = if bool_decide (ptr ∈ owned_addresses example_arrivals) then None
               else example_memory !! ptr.
Proof.
  apply (deterministic_buffers_are_freed Z.ltb true Z_ltb_strict_total_order false 7
           MultiTask.blank 1 append_op None example_arrivals example_memory).
  - discriminate.
  - reflexivity.
  - vm_compute. repeat constructor; set_solver.
Defined.

Section eager.
Context {DomainPoint : Type}.
Variable point_lt : DomainPoint → DomainPoint → bool.
Variable DEBUG_LEGION : bool.

Notation handle_futures := (handle_futures point_lt DEBUG_LEGION).
Notation trigger_task_complete :=
  (trigger_task_complete (DomainPoint := DomainPoint) DEBUG_LEGION).

Lemma free_owned_cons (a : Arrival (DomainPoint := DomainPoint)) arrivals (mem : Memory) :
  free_owned (a :: arrivals) mem
  = free_owned arrivals (if arr_owner a then free mem (arr_ptr a) else mem).
Proof. done. Qed.

Lemma free_owned_lookup (arrivals : list (Arrival (DomainPoint := DomainPoint))) :
  ∀ (mem : Memory) ptr,
    ptr ∉ arr_ptr <$> arrivals → free_owned arrivals mem !! ptr = mem !! ptr.
Proof.
  induction arrivals as [|a arrivals IH]; intros mem ptr Hnot; [done|].
  rewrite fmap_cons in Hnot. apply not_elem_of_cons in Hnot as [Hne Hnot].
  rewrite free_owned_cons, IH by done. destruct (arr_owner a); [|done].
  unfold free, Memory. by rewrite lookup_delete_ne.
Qed.

(** Without the deterministic flag every result is folded when it
    arrives. *)
Lemma handle_futures_folds must_epoch op :
  ∀ arrivals (mem : Memory) (s : t DomainPoint) st,
    reduction_op (red s) = Some op →
    is_foldable op = true →
    reduction_state (red s) = Some st →
    MultiTask.deterministic_redop (multi s) = false →
    NoDup (arr_ptr <$> arrivals) →
    handle_futures must_epoch arrivals mem s
    = Ok (free_owned arrivals mem,
          set_red
            (mkReductionFields (reduction_op (red s)) (serdez_redop_fns (red s))
               (Some (foldl (fold_value op (serdez_redop_fns (red s))
                               (reduction_state_size (red s)) false)
                        st ((λ a, default [] (mem !! arr_ptr a)) <$> arrivals)))
               (reduction_state_size (red s)) (temporary_futures (red s))
               (reduction_future (red s)) (future_map (red s))) s).
Proof.
  induction arrivals as [|a arrivals IH]; intros mem s st Hop Hfold Hst Hdet Hnodup.
  { cbn. rewrite <-Hst. by destruct s as [? ? ? []]. }
  rewrite fmap_cons in Hnodup. apply NoDup_cons in Hnodup as [Hfirst Hnodup].
  cbn [IndexTask.handle_futures]. unfold IndexTask.handle_future at 1.
  rewrite Hop, Hdet. rewrite bool_decide_eq_true_2 by done.
  unfold IndexTask.fold_reduction_future. rewrite Hop, Hst, Hfold.
  rewrite bool_decide_eq_true_2, !debug_assert_true by done.
  cbn [mbind result_bind mret result_ret].
  erewrite IH; [|reflexivity|exact Hfold|reflexivity|exact Hdet|exact Hnodup].
  rewrite free_owned_cons.
  assert (((λ a0 : Arrival,
              default [] ((if arr_owner a then free mem (arr_ptr a) else mem) !! arr_ptr a0))
             <$> arrivals)
          = ((λ a0 : Arrival, default [] (mem !! arr_ptr a0)) <$> arrivals)) as Hsame.
  { apply Forall_fmap_ext_1, Forall_forall. intros a' Hin.
    destruct (arr_owner a); [|done]. unfold free, Memory.
    rewrite lookup_delete_ne; [done|]. intros Heq. apply Hfirst.
    rewrite Heq. by apply list_elem_of_fmap_2. }
  destruct s as [uid m pr [rop fns rst rsize tf rfut fmap0]].
  cbn in Hop, Hst. subst rop rst.
  cbn [fmap list_fmap foldl red set_red reduction_op serdez_redop_fns
       reduction_state_size temporary_futures reduction_future future_map
       unique_id multi progress].
  rewrite Hsame. unfold fold_value at 3. by destruct fns.
Qed.

(** X5. A launch with a reduction that is not deterministic folds every
    result into the reduction buffer when it arrives: after the
    arrivals (in distinct buffers) the buffer holds the fold, from the
    operator's initial value, of the results in the order of their
    arrival, the buffers the launch was given ownership of are freed,
    every other buffer is untouched, and completion sets that value on
    the reduction future. *)
Theorem eager_fold_in_arrival_order (must_epoch : bool) (uid : Z)
    (recycled : MultiTask.t) (redop_id : Z) (op : ReductionOp)
    (serdez : option SerdezRedopFns) (arrivals : list Arrival) (mem : Memory) :
  redop_id ≠ 0 →
  is_foldable op = true →
  NoDup (arr_ptr <$> arrivals) →
  ∃ s0 s1 s2,
    initialize_task DEBUG_LEGION redop_id op serdez false
      (activate_index_task (DomainPoint := DomainPoint) uid recycled) = Ok s0
    ∧ handle_futures must_epoch arrivals mem s0 = Ok (free_owned arrivals mem, s1)
    ∧ trigger_task_complete true (free_owned arrivals mem) s1
      = Ok (free_owned arrivals mem, s2)
    ∧ reduction_future (red s2)
      = Some (foldl (fold_value op serdez (sizeof_rhs op) false) (initial_state op serdez)
                ((λ a, default [] (mem !! arr_ptr a)) <$> arrivals))
    ∧ (∀ a, a ∈ arrivals → arr_owner a = true →
            free_owned arrivals mem !! arr_ptr a = None)
    ∧ (∀ ptr, ptr ∉ arr_ptr <$> filter (λ a, arr_owner a = true) arrivals →
              free_owned arrivals mem !! ptr = mem !! ptr).
Proof.
  intros Hredop Hfold Hnodup.
  eexists. rewrite (initialize_task_foldable _ _ _ _ _ _ _ Hfold).
  match goal with |- context [Ok ?s = Ok _] => set (s0 := s) end.
  rewrite (handle_futures_folds must_epoch op arrivals mem s0 (initial_state op serdez)
             eq_refl Hfold eq_refl eq_refl Hnodup).
  eexists _, _. split; [reflexivity|]. split; [reflexivity|].
  unfold IndexTask.trigger_task_complete.
  cbn [multi red set_red s0 MultiTask.redop MultiTask.deterministic_redop].
  rewrite (proj2 (Z.eqb_neq redop_id 0) Hredop). cbn [negb mbind result_bind mret result_ret].
  split; [reflexivity|]. split; [reflexivity|]. clear s0. split.
  - revert mem Hnodup. induction arrivals as [|a0 arrivals IH]; intros mem Hnodup a Hin Hown.
    { by apply elem_of_nil in Hin. }
    rewrite fmap_cons in Hnodup. apply NoDup_cons in Hnodup as [Hfirst Hnodup].
    rewrite free_owned_cons.
    apply elem_of_cons in Hin as [->|Hin]; [|by apply IH].
    rewrite Hown, free_owned_lookup by done. unfold free, Memory. apply lookup_delete_eq.
  - revert mem. clear Hnodup. induction arrivals as [|a0 arrivals IH]; intros mem ptr Hnot.
    { done. }
    rewrite free_owned_cons.
    rewrite filter_cons in Hnot. destruct (decide (arr_owner a0 = true)) as [Hown|Hown].
    + rewrite fmap_cons in Hnot. apply not_elem_of_cons in Hnot as [Hne Hnot].
      rewrite IH, Hown by done. unfold free, Memory. by rewrite lookup_delete_ne.
    + rewrite IH by done. by destruct (arr_owner a0).
Qed.
End eager.

Lemma eager_fold_in_arrival_order_witness :
  ∃ s0 s1 s2,
    initialize_task true 1 append_op None false
      (activate_index_task (DomainPoint := Z) 7 MultiTask.blank) = Ok s0
    ∧ handle_futures Z.ltb true false example_arrivals example_memory s0
      = Ok (free_owned example_arrivals example_memory, s1)
    ∧ trigger_task_complete true true (free_owned example_arrivals example_memory) s1
      = Ok (free_owned example_arrivals example_memory, s2)
    ∧ reduction_future (red s2)
      = Some (foldl (fold_value append_op None (sizeof_rhs append_op) false)
                (initial_state append_op None)
                ((λ a, default [] (example_memory !! arr_ptr a)) <$> example_arrivals))
    ∧ (∀ a, a ∈ example_arrivals → arr_owner a = true →
            free_owned example_arrivals example_memory !! arr_ptr a = None)
    ∧ (∀ ptr, ptr ∉ arr_ptr <$> filter (λ a, arr_owner a = true) example_arrivals →
              free_owned example_arrivals example_memory !! ptr = example_memory !! ptr).
Proof.
  apply (eager_fold_in_arrival_order Z.ltb true false 7 MultiTask.blank 1 append_op None
           example_arrivals example_memory).
  - discriminate.
  - reflexivity.
  - vm_compute. repeat constructor; set_solver.
Defined.


Lemma deterministic_fold_in_point_order_witness :
  ∃ s0 mem1 s1 mem2 s2 sorted,
    initialize_task true 1 append_op None true
      (activate_index_task (DomainPoint := Z) 7 MultiTask.blank) = Ok s0
    ∧ handle_futures Z.ltb true false example_arrivals example_memory s0 = Ok (mem1, s1)
    ∧ trigger_task_complete true true mem1 s1 = Ok (mem2, s2)
    ∧ sorted ≡ₚ (λ a, (arr_point a, arrival_value example_memory a)) <$> example_arrivals
    ∧ in_point_order Z.ltb sorted
    ∧ reduction_future (red s2)
      = Some (foldl (fold_value append_op None (sizeof_rhs append_op) true)
                (initial_state append_op None) (snd <$> sorted))
    ∧ ∀ arrivals',
        arrivals' ≡ₚ example_arrivals →
        ∃ mem1' s1' mem2' s2',
          handle_futures Z.ltb true false arrivals' example_memory s0 = Ok (mem1', s1')
          ∧ trigger_task_complete true true mem1' s1' = Ok (mem2', s2')
          ∧ reduction_future (red s2') = reduction_future (red s2).
Proof.
  apply (deterministic_fold_in_point_order Z.ltb true Z_ltb_strict_total_order false 7
           MultiTask.blank 1 append_op None example_arrivals example_memory).
  - discriminate.
  - reflexivity.
  - vm_compute. repeat constructor; set_solver.
  - repeat constructor; vm_compute; eauto.
Defined.

End ReductionFacts.
Module SliceReportFacts.
Import SliceTask SliceReports.

Section counters.
Context {DomainPoint : Type}.
Variable DEBUG_LEGION : bool.

Notation record_child_complete := (record_child_complete (DomainPoint := DomainPoint)).
Notation record_children_complete := (record_children_complete (DomainPoint := DomainPoint)).
Notation record_child_committed := (record_child_committed (DomainPoint := DomainPoint)).
Notation record_children_committed :=
  (record_children_committed (DomainPoint := DomainPoint)).

Lemma wrap_u32_small z : 0 ≤ z < 2 ^ 32 → wrap_u32 z = z.
Proof. intros ?. unfold wrap_u32. rewrite Z.mod_small; lia. Qed.

Lemma record_child_complete_step (s : t DomainPoint) c :
  num_uncomplete_points s = c → 0 < c < 2 ^ 32 →
  MultiTask.children_complete_invoked (multi s) = false →
  record_child_complete DEBUG_LEGION s
  = Ok (set_multi (if c - 1 =? 0
                   then MultiTask.set_children_complete_invoked true (multi s)
                   else multi s)
          (set_num_uncomplete_points (c - 1) s), c - 1 =? 0).
Proof.
  intros Hcount Hfit Hfresh. unfold SliceReports.record_child_complete.
  rewrite Hcount, Hfresh, (proj2 (Z.ltb_lt 0 c)), debug_assert_true by lia.
  cbn [mbind result_bind mret result_ret negb].
  rewrite wrap_u32_small, andb_true_r by lia. done.
Qed.

Lemma record_child_committed_step (s : t DomainPoint) c :
  num_uncommitted_points s = c → 0 < c < 2 ^ 32 →
  MultiTask.children_commit_invoked (multi s) = false →
  record_child_committed DEBUG_LEGION s
  = Ok (set_multi (if c - 1 =? 0
                   then MultiTask.set_children_commit_invoked true (multi s)
                   else multi s)
          (set_num_uncommitted_points (c - 1) s), c - 1 =? 0).
Proof.
  intros Hcount Hfit Hfresh. unfold SliceReports.record_child_committed.
  rewrite Hcount, Hfresh, (proj2 (Z.ltb_lt 0 c)), debug_assert_true by lia.
  cbn [mbind result_bind mret result_ret negb].
  rewrite wrap_u32_small, andb_true_r by lia. done.
Qed.

Lemma record_children_complete_S n (s : t DomainPoint) :
  record_children_complete DEBUG_LEGION (S n) s
  = ('(s', needs_trigger) ← record_child_complete DEBUG_LEGION s;
     '(s'', rest) ← record_children_complete DEBUG_LEGION n s';
     mret (s'', needs_trigger :: rest)).
Proof. done. Qed.

Lemma record_children_committed_S n (s : t DomainPoint) :
  record_children_committed DEBUG_LEGION (S n) s
  = ('(s', needs_trigger) ← record_child_committed DEBUG_LEGION s;
     '(s'', rest) ← record_children_committed DEBUG_LEGION n s';
     mret (s'', needs_trigger :: rest)).
Proof. done. Qed.

Lemma record_children_complete_count : ∀ n (s : t DomainPoint),
  num_uncomplete_points s = Z.of_nat (S n) →
  Z.of_nat (S n) < 2 ^ 32 →
  MultiTask.children_complete_invoked (multi s) = false →
  ∃ s',
    record_children_complete DEBUG_LEGION (S n) s = Ok (s', replicate n false ++ [true])
    ∧ num_uncomplete_points s' = 0
    ∧ MultiTask.children_complete_invoked (multi s') = true.
Proof.
  induction n as [|n IH]; intros s Hcount Hfit Hfresh;
    rewrite record_children_complete_S;
    rewrite (record_child_complete_step s _ Hcount) by (done || lia);
    cbn [mbind result_bind mret result_ret].
  - change (Z.of_nat 1 - 1 =? 0) with true. cbn. eexists. split; [reflexivity|]. done.
  - rewrite (proj2 (Z.eqb_neq _ 0)) by lia.
    match goal with
    | |- context [SliceReports.record_children_complete _ _ ?s1] =>
        destruct (IH s1) as (s' & Hrun & Hzero & Hdone); [cbn; lia|lia|done|]
    end.
    rewrite Hrun. cbn. eexists. split; [reflexivity|]. done.
Qed.

Lemma record_children_committed_count : ∀ n (s : t DomainPoint),
  num_uncommitted_points s = Z.of_nat (S n) →
  Z.of_nat (S n) < 2 ^ 32 →
  MultiTask.children_commit_invoked (multi s) = false →
  ∃ s',
    record_children_committed DEBUG_LEGION (S n) s = Ok (s', replicate n false ++ [true])
    ∧ num_uncommitted_points s' = 0
    ∧ MultiTask.children_commit_invoked (multi s') = true.
Proof.
  induction n as [|n IH]; intros s Hcount Hfit Hfresh;
    rewrite record_children_committed_S;
    rewrite (record_child_committed_step s _ Hcount) by (done || lia);
    cbn [mbind result_bind mret result_ret].
  - change (Z.of_nat 1 - 1 =? 0) with true. cbn. eexists. split; [reflexivity|]. done.
  - rewrite (proj2 (Z.eqb_neq _ 0)) by lia.
    match goal with
    | |- context [SliceReports.record_children_committed _ _ ?s1] =>
        destruct (IH s1) as (s' & Hrun & Hzero & Hdone); [cbn; lia|lia|done|]
    end.
    rewrite Hrun. cbn. eexists. split; [reflexivity|]. done.
Qed.

(** X7. A slice whose [n] points (at least one, fewer than [2 ^ 32])
    all report complete answers the first [n - 1] calls of
    [record_child_complete] with no trigger and the last one with the
    trigger of [trigger_children_complete], once; the same holds of
    [record_child_committed] and [trigger_children_committed]. A further
    report fails the assertion of the debug build; in a release build it
    triggers nothing. *)
Theorem last_child_triggers_once (n : nat) (s : t DomainPoint) :
  num_uncomplete_points s = Z.of_nat (S n) →
  num_uncommitted_points s = Z.of_nat (S n) →
  Z.of_nat (S n) < 2 ^ 32 →
  MultiTask.children_complete_invoked (multi s) = false →
  MultiTask.children_commit_invoked (multi s) = false →
  (∃ s',
     record_children_complete DEBUG_LEGION (S n) s = Ok (s', replicate n false ++ [true])
     ∧ num_uncomplete_points s' = 0
     ∧ record_child_complete true s' = AssertFailed
     ∧ snd <$> record_child_complete false s' = Ok false)
  ∧ (∃ s',
       record_children_committed DEBUG_LEGION (S n) s
         = Ok (s', replicate n false ++ [true])
       ∧ num_uncommitted_points s' = 0
       ∧ record_child_committed true s' = AssertFailed
       ∧ snd <$> record_child_committed false s' = Ok false).
Proof.
  intros Hcomplete Hcommit Hfit Hfresh1 Hfresh2. split.
  - destruct (record_children_complete_count n s Hcomplete Hfit Hfresh1)
      as (s' & Hrun & Hzero & Hdone).
    exists s'. split; [done|]. split; [done|].
    unfold SliceReports.record_child_complete. rewrite Hzero, Hdone. done.
  - destruct (record_children_committed_count n s Hcommit Hfit Hfresh2)
      as (s' & Hrun & Hzero & Hdone).
    exists s'. split; [done|]. split; [done|].
    unfold SliceReports.record_child_committed. rewrite Hzero, Hdone. done.
Qed.
End counters.

Section mapped.
Context {DomainPoint : Type}.
Variable DEBUG_LEGION : bool.
Variable check : t DomainPoint → result unit.
Hypothesis check_passes : DEBUG_LEGION = true → ∀ s, check s = Ok ().

Notation slice := (t DomainPoint).
Notation children_mapped := (children_mapped DEBUG_LEGION check).
Notation child_mapped := (child_mapped DEBUG_LEGION check).

Local Open Scope Qc_scope.

Lemma make_zero_one : Fraction.make 0 1 = 0.
Proof. by apply Qc_is_canon. Qed.

Lemma make_one_pos d : (0 < d)%Z → 0 < Fraction.make 1 d.
Proof.
  intros Hd. unfold Fraction.make. rewrite Z2Qc_inj_1.
  unfold Qcdiv. rewrite Qcmult_1_l. apply Qcinv_pos.
  rewrite <-Z2Qc_inj_0. by apply (proj1 (Z2Qc_inj_lt 0 d)).
Qed.

Lemma leaf_fraction_cons (s : slice) slices :
  Launch.leaf_fraction (s :: slices)
  = Fraction.make 1 (denominator s) + Launch.leaf_fraction slices.
Proof. done. Qed.

Lemma reported_fraction_cons (s : slice) slices :
  reported_fraction (s :: slices)
  = (if reported s then Fraction.make 1 (denominator s) else 0) + reported_fraction slices.
Proof. unfold reported_fraction. cbn [foldr]. rewrite make_zero_one. done. Qed.

Lemma reported_fraction_nil : reported_fraction (@nil slice) = 0.
Proof. apply make_zero_one. Qed.

Lemma leaf_fraction_nil : Launch.leaf_fraction (@nil slice) = 0.
Proof. apply make_zero_one. Qed.

(** The slices that reported account for no more than the launch, and
    for all of it only if all of them reported. *)
Lemma reported_fraction_le (slices : list slice) :
  Forall (λ s, (0 < denominator s)%Z) slices →
  reported_fraction slices ≤ Launch.leaf_fraction slices
  ∧ (reported_fraction slices = Launch.leaf_fraction slices
     → Forall (λ s, reported s = true) slices).
Proof.
  induction 1 as [|s slices Hs Hall [IHle IHeq]].
  { rewrite reported_fraction_nil, leaf_fraction_nil. split; [apply Qcle_refl|constructor]. }
  rewrite reported_fraction_cons, leaf_fraction_cons.
  pose proof (make_one_pos _ Hs) as Hpos.
  destruct (reported s) eqn:Hrep.
  - split; [by apply Qcplus_le_mono_l|].
    intros Heq. constructor; [done|]. apply IHeq.
    apply (f_equal (λ x, x - Fraction.make 1 (denominator s))) in Heq.
    ring_simplify in Heq. exact Heq.
  - rewrite Qcplus_0_l. split.
    + eapply Qcle_trans; [exact IHle|].
      rewrite <-(Qcplus_0_l (Launch.leaf_fraction slices)) at 1.
      apply Qcplus_le_mono_r. by apply Qclt_le_weak.
    + intros Heq. exfalso. eapply (Qclt_not_le _ _ Hpos).
      apply (Qcplus_le_mono_r _ _ (Launch.leaf_fraction slices)).
      rewrite Qcplus_0_l, <-Heq. exact IHle.
Qed.

Lemma reported_fraction_all (slices : list slice) :
  Forall (λ s, reported s = true) slices →
  reported_fraction slices = Launch.leaf_fraction slices.
Proof.
  induction 1 as [|s slices Hs Hall IH].
  { by rewrite reported_fraction_nil, leaf_fraction_nil. }
  by rewrite reported_fraction_cons, leaf_fraction_cons, Hs, IH.
Qed.

Lemma is_whole_reported (slices : list slice) :
  Forall (λ s, (0 < denominator s)%Z) slices →
  Launch.leaf_fraction slices = 1 →
  Fraction.is_whole (reported_fraction slices)
  = bool_decide (Forall (λ s, reported s = true) slices).
Proof.
  intros Hpos Hone. unfold Fraction.is_whole. apply bool_decide_ext.
  rewrite <-Hone. split.
  - by apply reported_fraction_le.
  - apply reported_fraction_all.
Qed.

(** What replacing a slice by one with the same points and denominator
    changes in the sums. *)
Lemma leaf_fraction_insert (slices : list slice) : ∀ i s s',
  slices !! i = Some s → denominator s' = denominator s →
  Launch.leaf_fraction (<[i:=s']> slices) = Launch.leaf_fraction slices.
Proof.
  induction slices as [|s0 slices IH]; intros [|i] s s' Hi Hden; try done; cbn in Hi.
  - injection Hi as ->. cbn [insert list_insert]. by rewrite !leaf_fraction_cons, Hden.
  - cbn [insert list_insert]. rewrite !leaf_fraction_cons. by erewrite IH.
Qed.

Lemma reported_fraction_insert (slices : list slice) : ∀ i s s',
  slices !! i = Some s → denominator s' = denominator s →
  reported_fraction (<[i:=s']> slices)
  = reported_fraction slices
    - (if reported s then Fraction.make 1 (denominator s) else 0)
    + (if reported s' then Fraction.make 1 (denominator s) else 0).
Proof.
  induction slices as [|s0 slices IH]; intros [|i] s s' Hi Hden; try done; cbn in Hi.
  - injection Hi as ->. cbn [insert list_insert].
    rewrite !reported_fraction_cons, Hden. unfold Fraction.t. ring.
  - cbn [insert list_insert]. rewrite !reported_fraction_cons.
    erewrite IH by done. unfold Fraction.t. ring.
Qed.

Local Close Scope Qc_scope.

Lemma all_points_insert (slices : list slice) : ∀ i s s',
  slices !! i = Some s → points s' = points s →
  all_points (<[i:=s']> slices) = all_points slices.
Proof.
  unfold all_points.
  induction slices as [|s0 slices IH]; intros [|i] s s' Hi Hpoints; try done; cbn in Hi.
  - injection Hi as ->. cbn [insert list_insert foldr]. by rewrite Hpoints.
  - cbn [insert list_insert foldr]. by erewrite IH.
Qed.

Lemma reported_points_insert (slices : list slice) : ∀ i s s',
  slices !! i = Some s → points s' = points s →
  reported_points (<[i:=s']> slices)
  = reported_points slices
    - (if reported s then Z.of_nat (length (points s)) else 0)
    + (if reported s' then Z.of_nat (length (points s)) else 0).
Proof.
  unfold reported_points.
  induction slices as [|s0 slices IH]; intros [|i] s s' Hi Hpoints; try done; cbn in Hi.
  - injection Hi as ->. cbn [insert list_insert foldr]. rewrite Hpoints. lia.
  - cbn [insert list_insert foldr]. erewrite IH by done. lia.
Qed.

Lemma reported_points_bounds (slices : list slice) :
  0 ≤ reported_points slices ≤ all_points slices.
Proof.
  unfold reported_points, all_points.
  induction slices as [|s slices IH]; cbn [foldr]; [lia|].
  destruct (reported s); lia.
Qed.

Lemma reported_points_all (slices : list slice) :
  Forall (λ s, reported s = true) slices → reported_points slices = all_points slices.
Proof.
  unfold reported_points, all_points.
  induction 1 as [|s slices Hs Hall IH]; cbn [foldr]; [done|]. rewrite Hs. lia.
Qed.

Lemma not_all_reported (slices : list slice) i s :
  slices !! i = Some s → reported s = false →
  bool_decide (Forall (λ s, reported s = true) slices) = false.
Proof.
  intros Hi Hs. apply bool_decide_eq_false_2. intros Hall.
  rewrite Forall_lookup in Hall. specialize (Hall _ _ Hi). cbn in Hall. congruence.
Qed.

Lemma points_le_all_points (slices : list slice) : ∀ i s,
  slices !! i = Some s → Z.of_nat (length (points s)) ≤ all_points slices.
Proof.
  unfold all_points.
  induction slices as [|s0 slices IH]; intros [|i] s Hi; try done; cbn in Hi; cbn [foldr].
  - injection Hi as ->.
    assert (0 ≤ foldr (λ s total, Z.of_nat (length (points s)) + total) 0 slices); [|lia].
    clear. induction slices; cbn [foldr]; lia.
  - specialize (IH _ _ Hi). lia.
Qed.

(** One more point maps: the invariant is kept. *)
Lemma child_mapped_invariant i remaining sys :
  accounts_for sys (i :: remaining) →
  ∃ sys', child_mapped i sys = Ok sys' ∧ accounts_for sys' remaining.
Proof.
  destruct sys as [slices index calls].
  intros (Hstatic & Hleaf & Hall & [Hbound Hcount] & Hprog & Hcalls).
  cbn [sys_slices sys_index sys_calls] in *.
  apply Forall_cons in Hbound as [Hi Hbound].
  apply lookup_lt_is_Some_2 in Hi as [s Hi].
  pose proof (Hcount _ _ Hi) as Hnum. cbn [count_occ] in Hnum.
  destruct (Nat.eq_dec i i) as [_|]; [|done].
  pose proof (proj1 (Forall_lookup _ _) Hstatic _ _ Hi) as (Hden & Hpts & Hle).
  pose proof (points_le_all_points _ _ _ Hi) as Hsmall.
  pose proof (reported_points_bounds slices) as Hrp.
  assert (reported s = false) as Hs by (unfold reported; lia).
  set (s' := set_num_unmapped_points (num_unmapped_points s - 1) s).
  assert (record_child_mapped DEBUG_LEGION s
          = Ok (s', num_unmapped_points s - 1 =? 0)) as Hrecord.
  { unfold record_child_mapped.
    rewrite (proj2 (Z.ltb_lt 0 (num_unmapped_points s))), debug_assert_true by lia.
    cbn [mbind result_bind mret result_ret].
    by rewrite wrap_u32_small by lia. }
  assert (Forall (λ s, 0 < denominator s ∧ (0 < length (points s))%nat
                       ∧ num_unmapped_points s ≤ Z.of_nat (length (points s)))
            (<[i:=s']> slices)) as Hstatic'.
  { apply Forall_insert; [done|]. cbn. lia. }
  assert (each_point_once (<[i:=s']> slices) remaining) as Hcount'.
  { split; [by rewrite length_insert|].
    intros j sj Hj. destruct (decide (j = i)) as [->|Hne].
    - rewrite list_lookup_insert_eq in Hj by (by eapply lookup_lt_Some).
      injection Hj as <-. cbn. lia.
    - rewrite list_lookup_insert_ne in Hj by done.
      rewrite (Hcount _ _ Hj). cbn [count_occ].
      by destruct (Nat.eq_dec i j) as [->|]. }
  assert (calls = []) as ->.
  { by rewrite Hcalls, (not_all_reported _ _ _ Hi Hs). }
  unfold child_mapped. cbn [sys_slices sys_index sys_calls].
  rewrite Hi, Hrecord. cbn [mbind result_bind].
  destruct (num_unmapped_points s - 1 =? 0) eqn:Hlast.
  - assert (reported s' = true) as Hs' by (unfold reported; cbn; lia).
    unfold trigger_slice_mapped.
    assert ((if DEBUG_LEGION then check s' else Ok ()) = Ok ()) as ->.
    { destruct DEBUG_LEGION; [by apply check_passes|done]. }
    cbn [mbind result_bind mret result_ret].
    eexists. split; [reflexivity|].
    pose proof (reported_fraction_insert slices i s s' Hi eq_refl) as Hfraction.
    pose proof (reported_points_insert slices i s s' Hi eq_refl) as Hpoints.
    rewrite Hs, Hs' in Hfraction, Hpoints.
    pose proof (reported_points_bounds (<[i:=s']> slices)) as Hrp'.
    rewrite (all_points_insert slices i s s' Hi eq_refl) in Hrp'.
    assert (points_size s' = Z.of_nat (length (points s))) as Hsize.
    { unfold points_size. cbn. by rewrite wrap_u32_small by lia. }
    assert (Fraction.add (reported_fraction slices) (Fraction.make 1 (denominator s'))
            = reported_fraction (<[i:=s']> slices)) as Hadd.
    { rewrite Hfraction. unfold Fraction.add, Fraction.t. cbn. ring. }
    assert (wrap_u32 (reported_points slices + points_size s')
            = reported_points (<[i:=s']> slices)) as Hwrap.
    { rewrite Hsize, wrap_u32_small by lia. lia. }
    unfold IndexTask.return_slice_mapped. rewrite Hprog.
    cbn [IndexTask.slice_fraction IndexTask.total_points IndexTask.mapped_points
         IndexTask.complete_points IndexTask.committed_points].
    rewrite Hadd, Hwrap.
    assert ((0 =? reported_points (<[i:=s']> slices)) = false) as -> by lia.
    rewrite !andb_false_r. cbn [andb].
    unfold accounts_for. cbn [sys_slices sys_index sys_calls IndexTask.progress
      IndexTask.set_multi IndexTask.set_progress].
    split_and!; [done| | |done|done|].
    + by rewrite (leaf_fraction_insert slices i s s' Hi eq_refl).
    + by rewrite (all_points_insert slices i s s' Hi eq_refl).
    + cbn [app]. rewrite app_nil_r.
      rewrite is_whole_reported; [done| |].
      * eapply Forall_impl; [exact Hstatic'|]. by intros ? (? & _).
      * by rewrite (leaf_fraction_insert slices i s s' Hi eq_refl).
  - assert (reported s' = false) as Hs' by (unfold reported; cbn; lia).
    cbn [mret result_ret].
    eexists. split; [reflexivity|].
    pose proof (reported_fraction_insert slices i s s' Hi eq_refl) as Hfraction.
    pose proof (reported_points_insert slices i s s' Hi eq_refl) as Hpoints.
    rewrite Hs, Hs' in Hfraction, Hpoints.
    unfold accounts_for. cbn [sys_slices sys_index sys_calls].
    split_and!; [done| | |done| |].
    + by rewrite (leaf_fraction_insert slices i s s' Hi eq_refl).
    + by rewrite (all_points_insert slices i s s' Hi eq_refl).
    + rewrite Hprog. f_equal; [|lia..].
      rewrite Hfraction.
      generalize (reported_fraction slices). unfold Fraction.t. intros f. ring.
    + erewrite (not_all_reported (<[i:=s']> slices) i s'); [done| |done].
      apply list_lookup_insert_eq. by eapply lookup_lt_Some.
Qed.

(** All the points of [pre] map: the invariant is kept. *)
Lemma children_mapped_invariant pre : ∀ post sys,
  accounts_for sys (pre ++ post) →
  ∃ sys', children_mapped pre sys = Ok sys' ∧ accounts_for sys' post.
Proof.
  induction pre as [|i pre IH]; intros post sys Hinv; [by eexists|].
  destruct (child_mapped_invariant _ _ _ Hinv) as (sys1 & Hstep & Hinv1).
  destruct (IH _ _ Hinv1) as (sys' & Hrun & Hinv').
  exists sys'. split; [|done]. cbn [children_mapped]. by rewrite Hstep.
Qed.

Lemma child_mapped_all_points i sys sys' :
  child_mapped i sys = Ok sys' →
  all_points (sys_slices sys') = all_points (sys_slices sys)
  ∧ length (sys_slices sys') = length (sys_slices sys).
Proof.
  unfold child_mapped, SliceReports.child_mapped.
  destruct (sys_slices sys !! i) as [s|] eqn:Hi; [|by intros [= <-]].
  unfold record_child_mapped. destruct (debug_assert _ _); [|done..].
  cbn [mbind result_bind mret result_ret].
  match goal with
  | |- context [<[i:=?s1]> _] =>
      pose proof (all_points_insert (sys_slices sys) i s s1 Hi eq_refl) as Hall;
      pose proof (length_insert (sys_slices sys) i s1) as Hlen
  end.
  destruct (_ =? 0).
  - unfold trigger_slice_mapped. destruct (if DEBUG_LEGION then _ else _); [|done..].
    cbn [mbind result_bind mret result_ret]. destruct (IndexTask.return_slice_mapped _ _ _).
    by intros [= <-].
  - by intros [= <-].
Qed.

Lemma children_mapped_all_points events : ∀ sys sys',
  children_mapped events sys = Ok sys' →
  all_points (sys_slices sys') = all_points (sys_slices sys)
  ∧ length (sys_slices sys') = length (sys_slices sys).
Proof.
  induction events as [|i events IH]; intros sys sys'; cbn [SliceReports.children_mapped].
  { by intros [= <-]. }
  destruct (child_mapped i sys) as [sys1| |] eqn:Hstep; [|done..].
  cbn [mbind result_bind]. intros Hrun.
  destruct (child_mapped_all_points _ _ _ Hstep) as [<- <-]. by apply IH.
Qed.

(** A launch whose slices have enumerated their points, before any of
    them has mapped and before a slice has reported to the index
    launch. *)
Lemma enumerated_accounts_for (slices : list slice) events
    (index : IndexTask.t DomainPoint) :
  IndexTask.progress index = IndexTask.mkProgress (Fraction.make 0 1) 0 0 0 0 →
  enumerated slices → each_point_once slices events →
  accounts_for (mkSystem slices index []) events.
Proof.
  intros Hprogress (Hstatic & Hleaf & Hall) Hevents.
  assert (Forall (λ s : slice, reported s = false) slices) as Hnone.
  { eapply Forall_impl; [exact Hstatic|]. intros s (_ & ? & ?). unfold reported. lia. }
  assert (reported_fraction slices = Fraction.make 0 1 ∧ reported_points slices = 0)
    as [Hfraction Hpoints].
  { clear -Hnone. unfold reported_points.
    induction Hnone as [|s slices Hs _ [IHf IHp]]; [done|].
    rewrite reported_fraction_cons. cbn [foldr]. rewrite Hs, IHf, IHp.
    split; [|done]. rewrite make_zero_one. unfold Fraction.t. ring. }
  unfold accounts_for. cbn [sys_slices sys_index sys_calls].
  split_and!; [|done|done|done| |].
  - eapply Forall_impl; [exact Hstatic|]. intros s (? & ? & ?). split_and!; [done..|lia].
  - by rewrite Hprogress, Hfraction, Hpoints.
  - destruct slices as [|s slices].
    + rewrite leaf_fraction_nil in Hleaf. done.
    + apply Forall_cons in Hnone as [Hs _].
      by rewrite (not_all_reported (s :: slices) 0 s).
Qed.

(** X8. The slices of a launch, each with a positive denominator and at
    least one point, whose fractions add up to one, have enumerated their
    points (fewer than [2 ^ 32] in all; in a debug build the region
    requirements of the points pass [check_point_requirements]), and
    every point reports once that it has mapped, in any order. Then no
    report fails; the index launch calls [complete_mapping] once, with
    the report of the last point, and no call is made while a point has
    yet to report; at the end the index launch has counted every point
    of every slice. *)
Theorem launch_maps_with_last_point (slices : list slice) (events : list nat)
    (uid : Z) (recycled : MultiTask.t) :
  let launch := mkSystem slices (IndexTask.activate_index_task uid recycled) [] in
  enumerated slices →
  each_point_once slices events →
  (∃ sys,
     children_mapped events launch = Ok sys
     ∧ sys_calls sys = [IndexTask.CompleteMapping]
     ∧ Forall (λ s, num_unmapped_points s = 0) (sys_slices sys)
     ∧ IndexTask.total_points (IndexTask.progress (sys_index sys)) = all_points slices
     ∧ IndexTask.mapped_points (IndexTask.progress (sys_index sys)) = all_points slices)
  ∧ ∀ pre post, events = pre ++ post → post ≠ [] →
      sys_calls <$> children_mapped pre launch = Ok [].
Proof.
  intros launch Henum Hevents.
  pose proof (enumerated_accounts_for _ _ (IndexTask.activate_index_task uid recycled)
                eq_refl Henum Hevents) as Hinv.
  fold launch in Hinv. split.
  - rewrite <-(app_nil_r events) in Hinv.
    destruct (children_mapped_invariant _ _ _ Hinv)
      as (sys & Hrun & _ & _ & _ & [_ Hcount] & Hprog & Hcalls).
    destruct (children_mapped_all_points _ _ _ Hrun) as [Hsame _].
    assert (Forall (λ s, num_unmapped_points s = 0) (sys_slices sys)) as Hzero.
    { apply Forall_lookup. intros i s Hi. by rewrite (Hcount _ _ Hi). }
    assert (Forall (λ s, reported s = true) (sys_slices sys)) as Hall.
    { eapply Forall_impl; [exact Hzero|]. intros s Hs. unfold reported. by rewrite Hs. }
    exists sys. split_and!; [done| |done| |].
    + by rewrite Hcalls, bool_decide_eq_true_2.
    + by rewrite Hprog, reported_points_all.
    + by rewrite Hprog, reported_points_all.
  - intros pre [|i post] -> Hpost; [done|].
    destruct (children_mapped_invariant _ _ _ Hinv)
      as (sys & Hrun & _ & _ & _ & [Hbound Hcount] & _ & Hcalls).
    rewrite Hrun. cbn. f_equal.
    apply Forall_cons in Hbound as [Hi _].
    apply lookup_lt_is_Some_2 in Hi as [s Hi].
    rewrite Hcalls, (not_all_reported _ i s); [done..|].
    specialize (Hcount _ _ Hi). cbn [count_occ] in Hcount.
    destruct (Nat.eq_dec i i); [|done]. unfold reported. lia.
Qed.
End mapped.

Lemma last_child_triggers_once_witness :
  (∃ s',
     record_children_complete true 2 example_slice_task = Ok (s', [false; true])
     ∧ num_uncomplete_points s' = 0
     ∧ record_child_complete true s' = AssertFailed
     ∧ snd <$> record_child_complete false s' = Ok false)
  ∧ (∃ s',
       record_children_committed true 2 example_slice_task = Ok (s', [false; true])
       ∧ num_uncommitted_points s' = 0
       ∧ record_child_committed true s' = AssertFailed
       ∧ snd <$> record_child_committed false s' = Ok false).
Proof.
  apply (last_child_triggers_once true 1 example_slice_task); reflexivity.
Defined.

Lemma launch_maps_with_last_point_witness :
  enumerated example_slices
  ∧ each_point_once example_slices example_events
  ∧ (∃ sys,
       children_mapped true (λ _, Ok ()) example_events
         (mkSystem example_slices (IndexTask.activate_index_task 1 MultiTask.blank) [])
       = Ok sys
       ∧ sys_calls sys = [IndexTask.CompleteMapping]
       ∧ IndexTask.total_points (IndexTask.progress (sys_index sys)) = 2)
  ∧ sys_calls <$> children_mapped true (λ _, Ok ()) [1%nat]
      (mkSystem example_slices (IndexTask.activate_index_task 1 MultiTask.blank) [])
    = Ok [].
Proof.
  assert (enumerated example_slices) as Henum.
  { split_and!; [repeat constructor; cbn; lia| |reflexivity].
    apply Qc_is_canon. reflexivity. }
  assert (each_point_once example_slices example_events) as Hevents.
  { split; [repeat constructor; cbn; lia|].
    intros [|[|i]] s; cbn; intros [= <-]; reflexivity. }
  destruct (launch_maps_with_last_point true (λ _, Ok ()) (λ _ _, eq_refl)
              example_slices example_events 1 MultiTask.blank Henum Hevents)
    as [(sys & Hrun & Hcalls & _ & Htotal & _) Hearly].
  split_and!; [done|done| |].
  - exists sys. split_and!; [done|done|]. rewrite Htotal. reflexivity.
  - by apply (Hearly [1%nat] [0%nat]).
Defined.

End SliceReportFacts.
(** ** The ledger on its way to another tracker *)

Module LedgerTransferFacts.
Import ResourceTracker.

Lemma returned_created_disjoint (l target : t) :
  created_disjoint l target → created_disjoint (returned l) target.
Proof.
  unfold created_disjoint, returned. cbn. intros (Hr & Hf & Hrest).
  split_and!; [| |apply Hrest..].
  - pose proof (dom_filter_subseteq (λ it : LogicalRegion * bool, it.2 = false)
                  (created_regions l)). set_solver.
  - pose proof (dom_filter_subseteq (λ it : FieldSpace * FieldID * bool, it.2 = false)
                  (created_fields l)). set_solver.
Qed.

(** X9. In a release build [return_privilege_state] into a slice never
    fails, whatever the two ledgers hold. A created region that both
    hold takes the local flag of the ledger that is returned
    ([created_regions[k] = v]), a created field that both hold keeps the
    flag the slice had ([created_fields.insert]); every other entry of
    either ledger is kept, and the created and deleted sets become the
    unions. *)
Theorem release_merge_keeps_one_flag (src target : t) :
  ∃ target',
    return_privilege_state (SliceTask_ops false) src target = Ok target'
    ∧ (∀ r, created_regions target' !! r
            = match created_regions src !! r with
              | Some flag => Some flag
              | None => created_regions target !! r
              end)
    ∧ (∀ f, created_fields target' !! f
            = match created_fields target !! f with
              | Some flag => Some flag
              | None => created_fields src !! f
              end)
    ∧ created_field_spaces target' = created_field_spaces src ∪ created_field_spaces target
    ∧ created_index_spaces target' = created_index_spaces src ∪ created_index_spaces target
    ∧ created_index_partitions target'
      = created_index_partitions src ∪ created_index_partitions target
    ∧ deleted_regions target' = deleted_regions src ∪ deleted_regions target
    ∧ deleted_fields target' = deleted_fields src ∪ deleted_fields target
    ∧ deleted_field_spaces target' = deleted_field_spaces src ∪ deleted_field_spaces target
    ∧ deleted_index_spaces target' = deleted_index_spaces src ∪ deleted_index_spaces target
    ∧ deleted_index_partitions target'
      = deleted_index_partitions src ∪ deleted_index_partitions target.
Proof.
  exists (merge src target).
  split; [apply ResourceTrackerFacts.return_privilege_state_merge; by left|].
  unfold merge. cbn. split_and!; try done.
  - intros r. rewrite lookup_union. by destruct (created_regions src !! r), (_ !! r).
  - intros f. rewrite lookup_union. by destruct (created_fields target !! f), (_ !! f).
Qed.

(** X10. What [unpack_privilege_state] reads of a stream that starts
    with what [pack_privilege_state] wrote of a ledger is that ledger,
    and the rest of the stream is left for the reader of what follows.
    Into a slice that holds none of the created keys (or in a release
    build) the unpacking succeeds and leaves the union: of the whole
    ledger when it was not packed as returning, and of the ledger
    without the created regions and fields that are local when it
    was. *)
Theorem packed_ledger_arrives (dbg : bool) (l target : t) (rest : list Token) :
  dbg = false ∨ created_disjoint l target →
  unpack_privilege_state (SliceTask_ops dbg) (pack_privilege_state false l ++ rest) target
  = Some (Ok (merge l target), rest)
  ∧ unpack_privilege_state (SliceTask_ops dbg) (pack_privilege_state true l ++ rest) target
    = Some (Ok (merge (returned l) target), rest).
Proof.
  intros Hd. rewrite !ResourceTrackerFacts.unpack_pack_privilege_state. split.
  - by rewrite ResourceTrackerFacts.return_privilege_state_merge.
  - rewrite ResourceTrackerFacts.return_privilege_state_merge; [done|].
    destruct Hd as [?|Hd]; [by left|right]. by apply returned_created_disjoint.
Qed.

Lemma packed_ledger_arrives_witness :
  unpack_privilege_state (SliceTask_ops true)
    (pack_privilege_state false point_a ++ [TBool true]) point_b
  = Some (Ok (merge point_a point_b), [TBool true])
  ∧ unpack_privilege_state (SliceTask_ops true)
      (pack_privilege_state true point_a ++ [TBool true]) point_b
    = Some (Ok (merge (returned point_a) point_b), [TBool true]).
Proof.
  apply (packed_ledger_arrives true point_a point_b [TBool true]).
  right. unfold created_disjoint, point_a, point_b. cbn.
  rewrite !dom_empty_L, !dom_singleton_L. split_and!; set_solver.
Defined.

End LedgerTransferFacts.
(** ** Where a slice is sent *)

Module SliceDistributionFacts.
Import SliceTask SliceDistribution.

Section distribution.
Context {DomainPoint : Type}.
Variable find_address_space : TaskOp.Processor → Z.

Notation slice := (t DomainPoint).
Notation point_space p := (find_address_space (point_target p)).

Lemma check_target_spaces_spec target_space (rest : list (PointTask.t DomainPoint)) :
  (Forall (λ p, point_space p = target_space) rest
   ∧ check_target_spaces find_address_space target_space rest = Ok ())
  ∨ (¬ Forall (λ p, point_space p = target_space) rest
     ∧ check_target_spaces find_address_space target_space rest
       = Fatal ERROR_INVALID_MAPPER_OUTPUT).
Proof.
  induction rest as [|p rest IH]; cbn [check_target_spaces]; [by left|].
  destruct (target_space =? point_space p) eqn:Hp; cbn [negb].
  - apply Z.eqb_eq in Hp. destruct IH as [[Hall ->]|[Hnot ->]].
    + left. split; [|done]. by constructor.
    + right. split; [|done]. by intros [_ ?]%Forall_cons.
  - apply Z.eqb_neq in Hp. right. split; [|done]. by intros [? _]%Forall_cons.
Qed.

Lemma one_address_space_cons (s : slice) first rest :
  points s = first :: rest →
  one_address_space find_address_space s
  ↔ Forall (λ p, point_space p = point_space first) rest.
Proof.
  intros Hpoints. unfold one_address_space. rewrite Hpoints, Forall_forall. split.
  - intros Hone p Hp. apply Hone; [by right|by left].
  - intros Hall p q. rewrite !elem_of_cons.
    intros [->|Hp] [->|Hq]; try done.
    + symmetry. by apply Hall.
    + by apply Hall.
    + by rewrite (Hall _ Hp), (Hall _ Hq).
Qed.

(** X11. A slice that has points takes, when it is distributed, the
    target processor of its first point, and is sent away exactly if
    that processor exists and is not the current one. A release build
    does so whatever the other points were mapped to; a debug build does
    so if the points are mapped to processors of one address space, and
    ends in the fatal error [ERROR_INVALID_MAPPER_OUTPUT] if they are
    not. *)
Theorem scattered_points_are_refused (s : slice) first rest :
  points s = first :: rest →
  let target := point_target first in
  let current := TaskOp.current_proc (MultiTask.base (multi s)) in
  let stays := negb (TaskOp.proc_exists target && negb (target =? current)) in
  distribute_task false find_address_space s = Ok (set_target_proc target s, stays)
  ∧ (one_address_space find_address_space s →
     distribute_task true find_address_space s = Ok (set_target_proc target s, stays))
  ∧ (¬ one_address_space find_address_space s →
     distribute_task true find_address_space s = Fatal ERROR_INVALID_MAPPER_OUTPUT).
Proof.
  intros Hpoints target current stays.
  rewrite (one_address_space_cons s first rest Hpoints).
  unfold distribute_task, update_target_processor, check_target_processors.
  rewrite Hpoints. cbn [mbind result_bind mret result_ret debug_assert negb].
  rewrite bool_decide_eq_false_2 by done. cbn [negb mbind result_bind].
  assert (∀ s' : slice,
            s' = set_target_proc target s →
            (if TaskOp.proc_exists (TaskOp.target_proc (MultiTask.base (multi s')))
                && negb (TaskOp.target_proc (MultiTask.base (multi s'))
                         =? TaskOp.current_proc (MultiTask.base (multi s')))
             then Ok (s', false) else Ok (s', true))
            = Ok (set_target_proc target s, stays)) as Hsend.
  { intros s' ->. unfold stays, current. cbn.
    by destruct (TaskOp.proc_exists target && _). }
  split; [by apply Hsend|].
  destruct rest as [|second rest].
  { split; [intros _; by apply Hsend|]. intros Hnot. destruct Hnot. constructor. }
  destruct (check_target_spaces_spec (point_space first) (second :: rest))
    as [[Hall ->]|[Hnot ->]]; cbn [mbind result_bind].
  - split; [intros _; by apply Hsend|done].
  - split; [done|by intros _].
Qed.

(** A slice that has no point keeps its target processor. *)
Lemma distribute_task_no_points dbg (s : slice) :
  points s = [] →
  fst <$> distribute_task dbg find_address_space s = Ok s.
Proof.
  intros Hpoints. unfold distribute_task, update_target_processor. rewrite Hpoints.
  cbn. by destruct (_ && _).
Qed.
End distribution.

Lemma scattered_points_are_refused_witness :
  distribute_task false ten_per_space scattered_slice
  = Ok (set_target_proc 3 scattered_slice, false)
  ∧ distribute_task true one_space scattered_slice
    = Ok (set_target_proc 3 scattered_slice, false)
  ∧ distribute_task true ten_per_space scattered_slice
    = Fatal ERROR_INVALID_MAPPER_OUTPUT.
Proof.
  pose proof (scattered_points_are_refused ten_per_space scattered_slice
                (point_for 3 0) [point_for 12 1] eq_refl) as (Hrelease & _ & Hdebug).
  pose proof (scattered_points_are_refused one_space scattered_slice
                (point_for 3 0) [point_for 12 1] eq_refl) as (_ & Hone & _).
  split_and!.
  - exact Hrelease.
  - apply Hone. by intros p q _ _.
  - apply Hdebug. intros Hone'.
    specialize (Hone' (point_for 3 0) (point_for 12 1)).
    cbn in Hone'. discriminate Hone'; [by left|right; by left].
Defined.

End SliceDistributionFacts.

(** ** The atomic locks of a task *)

Module AtomicLockFacts.
Import AtomicLocks.

Lemma update_atomic_locks_lookup lock exclusive locks :
  update_atomic_locks lock exclusive locks !! lock
  = Some (match locks !! lock with
          | Some held => held || exclusive
          | None => exclusive
          end).
Proof.
  unfold update_atomic_locks. destruct (locks !! lock) as [held|] eqn:Hheld.
  - destruct held, exclusive; cbn; by rewrite ?lookup_insert_eq, ?Hheld.
  - by rewrite lookup_insert_eq.
Qed.

Lemma update_atomic_locks_other lock exclusive locks other :
  other ≠ lock → update_atomic_locks lock exclusive locks !! other = locks !! other.
Proof.
  intros Hne. unfold update_atomic_locks.
  destruct (locks !! lock) as [held|]; [destruct (negb held && exclusive)|];
    by rewrite ?lookup_insert_ne.
Qed.

Lemma update_all_lookup requests : ∀ locks lock,
  update_all requests locks !! lock
  = match locks !! lock with
    | Some held => Some (held || asked_exclusive lock requests)
    | None => if bool_decide (lock ∈ requests.*1)
              then Some (asked_exclusive lock requests) else None
    end.
Proof.
  unfold update_all.
  induction requests as [|[l e] requests IH]; intros locks lock;
    cbn [foldl fmap list_fmap asked_exclusive existsb fst snd].
  { destruct (locks !! lock) as [held|]; [by rewrite orb_false_r|].
    by rewrite bool_decide_eq_false_2 by apply not_elem_of_nil. }
  rewrite IH. fold (asked_exclusive lock requests).
  destruct (decide (lock = l)) as [->|Hne].
  - rewrite update_atomic_locks_lookup, bool_decide_eq_true_2 by done. cbn [andb].
    rewrite (bool_decide_eq_true_2 (l ∈ l :: requests.*1)) by (by left).
    destruct (locks !! l) as [held|]; by rewrite ?orb_assoc.
  - rewrite update_atomic_locks_other by done.
    rewrite (bool_decide_eq_false_2 (l = lock)) by done. cbn [andb orb].
    destruct (locks !! lock); [done|].
    apply (f_equal (λ b : bool, if b then _ else _)).
    apply bool_decide_ext. rewrite elem_of_cons. naive_solver.
Qed.

Lemma asked_exclusive_perm lock requests requests' :
  requests ≡ₚ requests' → asked_exclusive lock requests = asked_exclusive lock requests'.
Proof.
  intros Hperm. unfold asked_exclusive.
  apply eq_true_iff_eq. rewrite !existsb_exists.
  split; intros (request & Hin & Hask); exists request; (split; [|done]);
    (eapply Permutation_in; [|exact Hin]); [done|by symmetry].
Qed.

(** X12. After any number of calls of [update_atomic_locks] a lock is
    recorded if it was before or a call named it, and it is recorded as
    exclusive exactly if it was before or one of the calls that named it
    asked for it exclusively: a later request that is not exclusive never
    weakens it. The locks recorded do not depend on the order of the
    calls. *)
Theorem exclusive_lock_is_kept (requests : list (Reservation * bool))
    (locks : gmap Reservation bool) :
  (∀ lock,
     update_all requests locks !! lock
     = match locks !! lock with
       | Some held => Some (held || asked_exclusive lock requests)
       | None => if bool_decide (lock ∈ requests.*1)
                 then Some (asked_exclusive lock requests) else None
       end)
  ∧ (∀ requests', requests' ≡ₚ requests →
       update_all requests' locks = update_all requests locks).
Proof.
  split; [apply update_all_lookup|].
  intros requests' Hperm. apply map_eq. intros lock.
  rewrite !update_all_lookup, (asked_exclusive_perm lock _ _ Hperm).
  destruct (locks !! lock); [done|].
  apply (f_equal (λ b : bool, if b then _ else _)).
  apply bool_decide_ext. by rewrite Hperm.
Qed.

End AtomicLockFacts.
(** ** What every build checks of a slicing *)

Module SlicingResultFacts.
Import Launch.

Section checks.
Context {DomainPoint : Type}.
Variable DEBUG_LEGION : bool.
Variable runtime : Runtime DomainPoint.
Variable is_recording : bool.
Variable recycled_multi : MultiTask.t.

Notation Sliceable := (Sliceable (DomainPoint := DomainPoint)).
Notation clone_as_slice_task := (clone_as_slice_task DEBUG_LEGION recycled_multi).
Notation slice_index_space dbg := (slice_index_space dbg runtime is_recording recycled_multi).
Notation complete_slice := (MultiTask.complete_slice runtime).

Notation acceptable := (MultiTask.acceptable runtime is_recording).

Lemma check_slice_acceptable internal slice total slice' total' :
  MultiTask.check_slice DEBUG_LEGION runtime is_recording internal slice total
    = Ok (slice', total') →
  acceptable internal slice.
Proof.
  unfold MultiTask.check_slice, MultiTask.acceptable.
  destruct (TaskOp.proc_exists (ts_proc slice)); cbn [negb]; [|done].
  destruct (is_type_tag (ts_domain_is (complete_slice slice)) =? is_type_tag internal)
    eqn:Htag; cbn [negb]; [|done].
  apply Z.eqb_eq in Htag.
  assert (ts_proc (complete_slice slice) = ts_proc slice) as ->.
  { unfold MultiTask.complete_slice. by destruct (_ && _). }
  destruct is_recording; cbn [andb]; [|done].
  destruct (is_local runtime (ts_proc slice)); cbn [negb]; done.
Qed.

Lemma slice_loop_acceptable (this : Sliceable) m internal num_slices :
  ∀ todo total done slices total',
    MultiTask.slice_loop DEBUG_LEGION runtime is_recording (clone_as_slice_task this)
      m internal num_slices todo total = Ok (done, slices, total') →
    Forall (acceptable internal) todo.
Proof.
  induction todo as [|slice todo IH]; intros total done slices total' Hloop.
  { constructor. }
  cbn [MultiTask.slice_loop] in Hloop.
  apply result_bind_ok in Hloop as ([slice' total1] & Hcheck & Hloop).
  apply result_bind_ok in Hloop as (new_slice & _ & Hloop).
  apply result_bind_ok in Hloop as ([[done' slices'] total2] & Hrest & _).
  constructor; [by eapply check_slice_acceptable|by eapply IH].
Qed.

(** X13. In every build [slice_index_space] goes on to trigger the
    slices only if the mapper returned at least one slice and every
    slice names a processor that exists (a local one while a trace is
    recorded) and an index space of the type of the space that is
    sliced. It then has created one slice task for each slice of the
    output and has marked the task as sliced and as not stealable;
    slicing the task once more fails the assertion of a debug build. *)
Theorem sliced_once_into_acceptable_slices (this this' : Sliceable)
    (output : SliceTaskOutput DomainPoint) (slices : list (SliceTask.t DomainPoint)) :
  slice_index_space DEBUG_LEGION this output = Ok (this', slices) →
  out_slices output ≠ []
  ∧ Forall (acceptable (MultiTask.internal_space (multi_of this))) (out_slices output)
  ∧ length slices = length (out_slices output)
  ∧ MultiTask.is_sliced (multi_of this') = true
  ∧ TaskOp.stealable (MultiTask.base (multi_of this')) = false
  ∧ ∀ output', slice_index_space true this' output' = AssertFailed.
Proof.
  intros Hslice.
  destruct (DecompositionFacts.slice_index_space_children _ _ _ _ _ _ _ _ Hslice)
    as [Hsome Hchildren].
  apply Forall2_length in Hchildren.
  unfold Launch.slice_index_space, MultiTask.slice_index_space in Hslice.
  apply result_bind_ok in Hslice as ([m sl] & Hs & [= <- <-]).
  apply result_bind_ok in Hs as ([] & _ & Hs).
  case_bool_decide as Hempty; [done|].
  apply result_bind_ok in Hs as ([[done sls] total] & Hloop & Hs).
  destruct (_ && _); [done|].
  apply result_bind_ok in Hs as ([] & _ & [= <- <-]).
  apply slice_loop_acceptable in Hloop.
  assert (multi_of (with_multi
                      (MultiTask.set_base
                         (TaskOp.set_stealable false (MultiTask.base (multi_of this)))
                         (MultiTask.set_sliced true (multi_of this))) this)
          = MultiTask.set_base
              (TaskOp.set_stealable false (MultiTask.base (multi_of this)))
              (MultiTask.set_sliced true (multi_of this))) as Hmulti.
  { by destruct this. }
  split_and!; [done|done|done|by rewrite Hmulti|by rewrite Hmulti|].
  intros output'. unfold Launch.slice_index_space, MultiTask.slice_index_space.
  by rewrite Hmulti.
Qed.
End checks.

Lemma sliced_once_into_acceptable_slices_witness :
  ∃ this' slices,
    slice_index_space false example_forest false MultiTask.blank
      (OfIndex example_index) exact_output = Ok (this', slices)
    ∧ length slices = length (out_slices exact_output)
    ∧ ∀ output', slice_index_space true example_forest false MultiTask.blank
                   this' output' = AssertFailed.
Proof.
  destruct (slice_index_space false example_forest false MultiTask.blank
              (OfIndex example_index) exact_output) as [[this' slices]| |] eqn:Hslice;
    [|vm_compute in Hslice; discriminate Hslice..].
  exists this', slices.
  destruct (sliced_once_into_acceptable_slices false example_forest false
              MultiTask.blank (OfIndex example_index) this' exact_output slices Hslice)
    as (_ & _ & Hlength & _ & _ & Hagain).
  done.
Defined.

End SlicingResultFacts.
(** ** The completion of a slice *)

Module SliceCompletionFacts.
Import SliceTask SliceReports SliceCompletion.

Section completion.
Context {DomainPoint : Type}.
Variable DEBUG_LEGION : bool.

Notation slice := (t DomainPoint).
Notation step := (step (DomainPoint := DomainPoint) DEBUG_LEGION).
Notation run := (run (DomainPoint := DomainPoint) DEBUG_LEGION).
Notation report s index :=
  (IndexTask.return_slice_complete DEBUG_LEGION (points_size s) index).
Notation children events := (count_occ Event_eq_dec events ChildComplete).
Notation own events := (count_occ Event_eq_dec events OwnComplete).

Lemma awaiting_is_completing (s : slice) : awaiting_completion s → completing 0 false s.
Proof.
  intros (Hpoints & Hfit & Hcount & Hinvoked & H1 & H2 & H3 & H4).
  assert (0 < length (points s))%nat as Hn by (destruct (points s); [done|cbn; lia]).
  unfold completing. rewrite bool_decide_eq_false_2 by lia.
  split_and!; try done; lia.
Qed.

(** A point completes. *)
Lemma step_child_complete (s : slice) index reported told :
  completing reported told s → (reported < length (points s))%nat →
  ∃ s',
    completing (S reported) told s' ∧ points s' = points s
    ∧ step ChildComplete s index
      = if bool_decide (S reported = length (points s)) && told
        then '(index', calls) ← report s index; mret (s', index', calls)
        else Ok (s', index, []).
Proof.
  intros (Hn & Hle & Hfit & Hcount & Hinvoked & Hown & Hcommit & Hchildren & Hchildren')
    Hlt.
  rewrite bool_decide_eq_false_2 in Hinvoked, Hchildren by lia.
  unfold SliceCompletion.step, record_child_complete.
  rewrite (proj2 (Z.ltb_lt 0 (num_uncomplete_points s))), debug_assert_true by lia.
  cbn [mbind result_bind mret result_ret].
  rewrite SliceReportFacts.wrap_u32_small, Hinvoked, andb_true_r by lia.
  destruct (num_uncomplete_points s - 1 =? 0) eqn:Hlast.
  - apply Z.eqb_eq in Hlast.
    rewrite (bool_decide_eq_true_2 (S reported = _)) by lia. cbn [andb].
    unfold TaskOp.trigger_children_complete.
    cbn [set_multi multi MultiTask.base MultiTask.set_children_complete_invoked
         set_num_uncomplete_points].
    rewrite Hchildren, Hchildren'. cbn [negb orb]. rewrite !debug_assert_true.
    cbn [mbind result_bind mret result_ret TaskOp.set_children_complete
         TaskOp.complete_received].
    rewrite Hown.
    assert (∀ s' : slice,
              points s' = points s →
              num_uncomplete_points s' = 0 →
              MultiTask.children_complete_invoked (multi s') = true →
              TaskOp.complete_received (MultiTask.base (multi s')) = told →
              TaskOp.commit_received (MultiTask.base (multi s')) = false →
              TaskOp.children_complete (MultiTask.base (multi s')) = true →
              TaskOp.children_commit (MultiTask.base (multi s')) = false →
              completing (S reported) told s') as Hnext.
    { intros s' Hp ? ? ? ? ? ?. unfold completing. rewrite Hp.
      rewrite bool_decide_eq_true_2 by lia. split_and!; try done; lia. }
    eexists. split_and!; [| |destruct told; reflexivity].
    + apply Hnext; cbn; done.
    + done.
  - apply Z.eqb_neq in Hlast.
    rewrite (bool_decide_eq_false_2 (S reported = _)) by lia. cbn [andb].
    eexists. split_and!; [| |reflexivity]; [|done].
    unfold completing. cbn. rewrite bool_decide_eq_false_2 by lia.
    split_and!; try done; lia.
Qed.

(** The slice is told of its own completion. *)
Lemma step_own_complete (s : slice) index reported :
  completing reported false s →
  ∃ s',
    completing reported true s' ∧ points s' = points s
    ∧ step OwnComplete s index
      = if bool_decide (reported = length (points s))
        then '(index', calls) ← report s index; mret (s', index', calls)
        else Ok (s', index, []).
Proof.
  intros (Hn & Hle & Hfit & Hcount & Hinvoked & Hown & Hcommit & Hchildren & Hchildren').
  unfold SliceCompletion.step, TaskOp.trigger_complete.
  rewrite Hown, Hcommit. cbn [negb]. rewrite !debug_assert_true.
  cbn [mbind result_bind mret result_ret TaskOp.set_complete_received
       TaskOp.children_complete].
  rewrite Hchildren.
  eexists. split_and!; [| |destruct (bool_decide _); reflexivity]; [|done].
  unfold completing. cbn. split_and!; done.
Qed.

Lemma events_left (events : list Event) :
  events ≠ [] → (0 < children events + own events)%nat.
Proof. destruct events as [|[] events]; [done|cbn; lia..]. Qed.

Lemma run_reports_at_the_end index : ∀ events reported told (s : slice) calls,
  completing reported told s →
  children events = (length (points s) - reported)%nat →
  own events = (if told then 0 else 1)%nat →
  events ≠ [] →
  seen_by_index (run events s index calls)
  = ('(index', c) ← report s index; mret (index', calls ++ c))
  ∧ ∀ pre post, events = pre ++ post → post ≠ [] →
      seen_by_index (run pre s index calls) = Ok (index, calls).
Proof.
  induction events as [|e events IH]; intros reported told s calls Hinv Hchildren Hown Hsome;
    [done|].
  pose proof Hinv as (_ & Hle & _).
  assert (∃ s' reported' told',
            completing reported' told' s' ∧ points s' = points s
            ∧ children events = (length (points s) - reported')%nat
            ∧ own events = (if told' then 0 else 1)%nat
            ∧ step e s index
              = if bool_decide (reported' = length (points s)) && told'
                then '(index', c) ← report s index; mret (s', index', c)
                else Ok (s', index, []))
    as (s' & reported' & told' & Hinv' & Hpoints & Hchildren' & Hown' & Hstep).
  { destruct e; cbn [count_occ] in Hchildren, Hown.
    - destruct (Event_eq_dec ChildComplete ChildComplete); [|done].
      destruct (Event_eq_dec ChildComplete OwnComplete); [done|].
      destruct (step_child_complete s index reported told Hinv) as (s' & ? & ? & ?);
        [lia|].
      exists s', (S reported), told. split_and!; [done|done|lia|done|done].
    - destruct (Event_eq_dec OwnComplete OwnComplete); [|done].
      destruct (Event_eq_dec OwnComplete ChildComplete); [done|].
      destruct told; [done|].
      destruct (step_own_complete s index reported Hinv) as (s' & ? & ? & Hstep).
      exists s', reported, true. split_and!; [done|done|done|lia|].
      by rewrite andb_true_r. }
  assert (points_size s' = points_size s) as Hsize.
  { unfold points_size. by rewrite Hpoints. }
  destruct events as [|e' events].
  - cbn [count_occ] in Hchildren', Hown'. destruct told'; [|done].
    pose proof Hinv' as (_ & Hle' & _). rewrite Hpoints in Hle'.
    rewrite bool_decide_eq_true_2 in Hstep by lia. cbn [andb] in Hstep.
    split.
    + cbn [SliceCompletion.run]. rewrite Hstep.
      destruct (report s index) as [[index' c]| |]; reflexivity.
    + intros [|e1 pre] post Hsplit Hpost; [reflexivity|].
      injection Hsplit as _ Hsplit. by destruct pre, post.
  - assert (bool_decide (reported' = length (points s)) && told' = false) as Hquiet.
    { pose proof (events_left (e' :: events) ltac:(done)) as Hleft.
      rewrite Hchildren', Hown' in Hleft.
      destruct told'; [|by rewrite andb_false_r].
      rewrite bool_decide_eq_false_2; [done|lia]. }
    rewrite Hquiet in Hstep.
    rewrite <-Hpoints in Hchildren'.
    destruct (IH reported' told' s' (calls ++ []) Hinv' Hchildren' Hown' ltac:(done))
      as [Hend Hprefix].
    rewrite app_nil_r, Hsize in Hend. rewrite app_nil_r in Hprefix.
    split.
    + cbn [SliceCompletion.run]. rewrite Hstep. cbn [mbind result_bind].
      rewrite app_nil_r. exact Hend.
    + intros [|e1 pre] post Hsplit Hpost; [reflexivity|].
      injection Hsplit as <- Hsplit.
      cbn [SliceCompletion.run]. rewrite Hstep. cbn [mbind result_bind].
      rewrite app_nil_r. by eapply Hprefix.
Qed.

Lemma count_occ_replicate (e e' : Event) n :
  count_occ Event_eq_dec (replicate n e) e' = if decide (e = e') then n else 0%nat.
Proof.
  induction n as [|n IH]; cbn [replicate count_occ]; [by destruct (decide _)|].
  rewrite IH. destruct (Event_eq_dec e e'), (decide (e = e')); done.
Qed.

(** X14. The points of a slice (at least one, fewer than [2 ^ 32])
    complete, each one once, and the slice is told once of its own
    completion, in any order. Then the slice
    reports to its index launch exactly once, with the last of these
    events: what the index launch becomes and the calls it makes are
    those of [return_slice_complete] for the number of points of the
    slice, and before the last event the index launch has been told
    nothing. *)
Theorem slice_reports_complete_once (s : slice) (index : IndexTask.t DomainPoint)
    (events : list Event) :
  awaiting_completion s →
  completes_once s events →
  seen_by_index (run events s index []) = report s index
  ∧ ∀ pre post, events = pre ++ post → post ≠ [] →
      seen_by_index (run pre s index []) = Ok (index, []).
Proof.
  intros Hawaiting Honce. unfold completes_once in Honce.
  pose proof (awaiting_is_completing s Hawaiting) as Hinv.
  assert (children events = (length (points s) - 0)%nat ∧ own events = 1%nat)
    as [Hchildren Hown].
  { rewrite !(proj1 (Permutation_count_occ Event_eq_dec _ _) Honce).
    cbn [count_occ].
    destruct (Event_eq_dec OwnComplete ChildComplete); [done|].
    destruct (Event_eq_dec OwnComplete OwnComplete); [|done].
    rewrite !count_occ_replicate.
    destruct (decide (ChildComplete = ChildComplete)); [|done].
    destruct (decide (ChildComplete = OwnComplete)); [done|]. lia. }
  assert (events ≠ []) as Hsome.
  { intros ->. by apply Permutation_nil_cons in Honce. }
  destruct (run_reports_at_the_end index events 0 false s [] Hinv Hchildren Hown Hsome)
    as [Hend Hprefix].
  split; [|exact Hprefix].
  rewrite Hend. destruct (report s index) as [[index' c]| |]; reflexivity.
Qed.
End completion.

Lemma slice_reports_complete_once_witness :
  let index := IndexTask.activate_index_task (DomainPoint := Z) 1 MultiTask.blank in
  seen_by_index
    (run false [ChildComplete; OwnComplete; ChildComplete] example_slice_task index [])
  = IndexTask.return_slice_complete false 2 index
  ∧ seen_by_index (run false [ChildComplete; OwnComplete] example_slice_task index [])
    = Ok (index, []).
Proof.
  intros index.
  assert (awaiting_completion example_slice_task) as Hawaiting.
  { unfold awaiting_completion. cbn. split_and!; done. }
  assert (completes_once example_slice_task [ChildComplete; OwnComplete; ChildComplete])
    as Honce.
  { unfold completes_once. cbn. apply perm_swap. }
  destruct (slice_reports_complete_once false example_slice_task index
              [ChildComplete; OwnComplete; ChildComplete] Hawaiting Honce)
    as [Hend Hprefix].
  split; [exact Hend|].
  by apply (Hprefix [ChildComplete; OwnComplete] [ChildComplete]).
Defined.

End SliceCompletionFacts.
(** ** From the slicing of a launch to the mapping of its points *)

Module LaunchMappingFacts.
Import Launch LaunchMapping SliceReports.

Section pipeline.
Context {DomainPoint : Type}.
Variable DEBUG_LEGION : bool.
Variable runtime : Runtime DomainPoint.
Variable is_recording : bool.
Variable recycled_multi : MultiTask.t.
Variable recycled_task : TaskOp.t.
Variable check : SliceTask.t DomainPoint → result unit.
Hypothesis check_passes : DEBUG_LEGION = true → ∀ s, check s = Ok ().

Notation MapperScript := (MapperScript (DomainPoint := DomainPoint)).
Notation slice := (SliceTask.t DomainPoint).
Notation decompose := (decompose DEBUG_LEGION runtime is_recording recycled_multi).
Notation positive_denominators :=
  (positive_denominators DEBUG_LEGION runtime is_recording recycled_multi).
Notation map_and_launch_all := (map_and_launch_all DEBUG_LEGION runtime recycled_task).
Notation launched_from := (launched_from runtime).
Notation children_mapped := (children_mapped DEBUG_LEGION check).

Lemma trigger_slices_positive this num_slices Dk :
  0 < Dk →
  ∀ outs slices leaves,
    Forall (λ o, positive_denominators o.2) outs →
    Forall2 (child_of runtime this num_slices) (fst <$> outs) slices →
    Forall (λ s, SliceTask.denominator s = Dk) slices →
    forallb (λ '(slice, sub), if ts_recurse slice then fits sub Dk else true) outs = true →
    trigger_slices decompose outs slices = Ok leaves →
    Forall (λ s, 0 < SliceTask.denominator s) leaves.
Proof.
  intros HDk. induction outs as [|[slice sub] outs IH];
    intros slices leaves Hsubs Hchildren Hden Hfits Hrun.
  { destruct slices; injection Hrun as <-; constructor. }
  rewrite fmap_cons in Hchildren.
  apply Forall2_cons_inv_l in Hchildren as (s & slices' & Hchild & Hchildren & ->).
  apply Forall_cons in Hden as [Hs Hden]. apply Forall_cons in Hsubs as [Hsub Hsubs].
  cbn [forallb] in Hfits. apply andb_true_iff in Hfits as [Hfit Hfits].
  cbn [trigger_slices] in Hrun.
  apply result_bind_ok in Hrun as (r & Hr & Hrun).
  apply result_bind_ok in Hrun as (rs & Hrs & [= <-]).
  apply Forall_app. split; [|by eapply IH].
  destruct Hchild as (_ & Hsliced & _). unfold MultiTask.is_sliced in Hr.
  rewrite Hsliced in Hr. cbn [fst] in Hr.
  destruct (ts_recurse slice); cbn [negb] in Hr.
  - apply (Hsub (OfSlice s) r Hr); cbn [denominator_of snd]; rewrite Hs; [done|exact Hfit].
  - injection Hr as <-. constructor; [lia|constructor].
Qed.

Lemma decompose_positive (script : MapperScript) : positive_denominators script.
Proof.
  induction script as [outs verify IH] using DecompositionFacts.MapperScript_induction.
  intros this leaves Hrun HD Hfits. cbn [Launch.decompose] in Hrun.
  apply result_bind_ok in Hrun as ([this' slices] & Hslice & Hrun).
  cbn [fits] in Hfits. apply andb_true_iff in Hfits as [Hfit%Z.ltb_lt Hfits].
  pose proof (DecompositionFacts.slice_index_space_children _ _ _ _ _ _ _ _ Hslice)
    as [Hne Hchildren].
  pose proof (DecompositionFacts.children_denominator _ _ _ _ _ _ _ _ Hslice HD)
    as [_ Hden]; cbn [out_slices] in *; rewrite ?length_fmap in *; [done|].
  assert (0 < Z.of_nat (length outs)) as Hk.
  { destruct outs; [done|cbn; lia]. }
  eapply (trigger_slices_positive this _ (denominator_of this * Z.of_nat (length outs)));
    [nia|exact IH|exact Hchildren|exact Hden|exact Hfits|exact Hrun].
Qed.

Lemma map_and_launch_launched (leaf s : slice) launched :
  SliceTask.points leaf = [] →
  SliceTask.map_and_launch DEBUG_LEGION runtime recycled_task leaf = Ok (s, launched) →
  launched_from leaf s.
Proof.
  intros Hnone. unfold SliceTask.map_and_launch.
  rewrite bool_decide_eq_true_2 by done.
  intros (s1 & Henum & ([] & _ & [= <- <-])%result_bind_ok)%result_bind_ok.
  pose proof (DecompositionFacts.enumerate_points_index_points _ _ _ _ _ Henum) as Hpoints.
  unfold SliceTask.enumerate_points in Henum.
  apply result_bind_ok in Henum as ([] & _ & (pts & Hpts & [= <-])%result_bind_ok).
  done.
Qed.

Lemma map_and_launch_all_launched : ∀ leaves slices,
  Forall (λ s : slice, SliceTask.points s = []) leaves →
  map_and_launch_all leaves = Ok slices →
  Forall2 launched_from leaves slices.
Proof.
  induction leaves as [|leaf leaves IH]; intros slices Hnone Hrun; cbn in Hrun.
  { injection Hrun as <-. constructor. }
  apply Forall_cons in Hnone as [Hleaf Hnone].
  apply result_bind_ok in Hrun as ([s launched] & Hs & Hrun).
  apply result_bind_ok in Hrun as (rest & Hrest & [= <-]).
  constructor; [by eapply map_and_launch_launched|by apply IH].
Qed.

Lemma launched_fraction (leaves slices : list slice) :
  Forall2 launched_from leaves slices →
  leaf_fraction slices = leaf_fraction leaves
  ∧ all_points slices = Z.of_nat (length (concat (leaf_points runtime <$> leaves))).
Proof.
  unfold all_points.
  induction 1 as [|leaf s leaves slices (Hden & Hpoints & _) _ [IHf IHp]]; [done|].
  split.
  - unfold leaf_fraction in *. cbn [foldr]. by rewrite Hden, IHf.
  - cbn [foldr fmap list_fmap concat]. rewrite IHp, length_app, <-Hpoints, length_fmap.
    lia.
Qed.

Lemma launched_enumerated (leaves slices : list slice) :
  Forall2 launched_from leaves slices →
  Forall (λ s, 0 < SliceTask.denominator s) leaves →
  Forall (λ leaf, leaf_points runtime leaf ≠ []) leaves →
  leaf_fraction leaves = 1%Qc →
  Z.of_nat (length (concat (leaf_points runtime <$> leaves))) < 2 ^ 32 →
  enumerated slices.
Proof.
  intros Hlaunched Hpositive Hsome Hwhole Hfit.
  destruct (launched_fraction _ _ Hlaunched) as [Hfraction Hall].
  unfold enumerated. rewrite Hfraction, Hall. split_and!; [|done|done].
  apply Forall_lookup. intros i s Hs.
  pose proof (SliceReportFacts.points_le_all_points _ _ _ Hs) as Hle.
  destruct (Forall2_lookup_r _ _ _ _ _ Hlaunched Hs) as (leaf & Hleaf & Hden & Hpoints & Hn).
  rewrite Forall_lookup in Hpositive, Hsome.
  specialize (Hpositive _ _ Hleaf). specialize (Hsome _ _ Hleaf). cbn in Hpositive, Hsome.
  split_and!.
  - lia.
  - rewrite <-Hpoints in Hsome. destruct (SliceTask.points s); [done|cbn; lia].
  - rewrite Hn. apply SliceReportFacts.wrap_u32_small. lia.
Qed.

(** X15. An index launch is sliced, however deep, into slices that stay
    on its node: no denominator leaves the range of [long long], the
    slices of every slicing hold the points of the sliced space, each
    one once, no terminal slice is empty and the launch has fewer than
    [2 ^ 32] points; in a debug build the region requirements of the
    points pass [check_point_requirements]. Once the terminal slices
    have enumerated their points and every point has reported that it
    mapped, in any order, the index launch has called [complete_mapping]
    exactly once, with the report of the last point, and the number of
    points it has counted is the volume of its launch domain. *)
Theorem launch_maps_when_its_domain_has (script : MapperScript)
    (index : IndexTask.t DomainPoint) (leaves slices : list slice) (events : list nat) :
  let domain :=
    find_launch_space_domain runtime (MultiTask.internal_space (IndexTask.multi index)) in
  unreported index →
  fits script 1 = true →
  partitions runtime script (MultiTask.internal_space (IndexTask.multi index)) →
  get_volume domain < 2 ^ 32 →
  decompose script (OfIndex index) = Ok leaves →
  Forall (λ leaf, leaf_points runtime leaf ≠ []) leaves →
  map_and_launch_all leaves = Ok slices →
  each_point_once slices events →
  (∃ sys,
     children_mapped events (mkSystem slices index []) = Ok sys
     ∧ sys_calls sys = [IndexTask.CompleteMapping]
     ∧ IndexTask.total_points (IndexTask.progress (sys_index sys)) = get_volume domain
     ∧ IndexTask.mapped_points (IndexTask.progress (sys_index sys)) = get_volume domain)
  ∧ ∀ pre post, events = pre ++ post → post ≠ [] →
      sys_calls <$> children_mapped pre (mkSystem slices index []) = Ok [].
Proof.
  intros domain Hunreported Hfits Hparts Hvolume Hrun Hsome Hlaunch Hevents.
  pose proof (DecompositionFacts.decompose_sums_to_whole _ _ _ _ script (OfIndex index)
                leaves Hrun ltac:(done) Hfits) as Hwhole.
  cbn [denominator_of] in Hwhole. rewrite DecompositionFacts.fraction_one in Hwhole.
  pose proof (decompose_positive script (OfIndex index) leaves Hrun ltac:(done) Hfits)
    as Hpositive.
  destruct (DecompositionFacts.decompose_covers _ _ _ _ script (OfIndex index) leaves
              Hrun Hparts) as [Hnone Hcover].
  cbn [multi_of] in Hcover. fold domain in Hcover.
  pose proof (map_and_launch_all_launched _ _ Hnone Hlaunch) as Hlaunched.
  assert (Z.of_nat (length (concat (leaf_points runtime <$> leaves))) = get_volume domain)
    as Hlength.
  { unfold get_volume. by rewrite Hcover. }
  assert (enumerated slices) as Henum.
  { eapply launched_enumerated; [done..|]. by rewrite Hlength. }
  assert (all_points slices = get_volume domain) as Hall.
  { by rewrite (proj2 (launched_fraction _ _ Hlaunched)). }
  pose proof (SliceReportFacts.enumerated_accounts_for _ _ index Hunreported Henum Hevents)
    as Hinv.
  split.
  - rewrite <-(app_nil_r events) in Hinv.
    destruct (SliceReportFacts.children_mapped_invariant _ _ check_passes _ _ _ Hinv)
      as (sys & Hrun' & _ & _ & _ & [_ Hcount] & Hprog & Hcalls).
    destruct (SliceReportFacts.children_mapped_all_points _ _ _ _ _ Hrun') as [Hsame _].
    assert (Forall (λ s, reported s = true) (sys_slices sys)) as Hreported.
    { apply Forall_lookup. intros i s Hi. unfold reported.
      by rewrite (Hcount _ _ Hi). }
    cbn [sys_slices] in Hsame.
    exists sys. split_and!; [done| | |].
    + by rewrite Hcalls, bool_decide_eq_true_2.
    + by rewrite Hprog, SliceReportFacts.reported_points_all, Hsame.
    + by rewrite Hprog, SliceReportFacts.reported_points_all, Hsame.
  - intros pre [|i post] -> Hpost; [done|].
    destruct (SliceReportFacts.children_mapped_invariant _ _ check_passes _ _ _ Hinv)
      as (sys & Hrun' & _ & _ & _ & [Hbound Hcount] & _ & Hcalls).
    rewrite Hrun'. cbn. f_equal.
    apply Forall_cons in Hbound as [Hi _].
    apply lookup_lt_is_Some_2 in Hi as [s Hi].
    rewrite Hcalls, (SliceReportFacts.not_all_reported _ i s); [done..|].
    specialize (Hcount _ _ Hi). cbn [count_occ] in Hcount.
    destruct (Nat.eq_dec i i); [|done]. unfold reported. lia.
Qed.
End pipeline.

Lemma launch_maps_when_its_domain_has_witness :
  decompose true example_forest false MultiTask.blank example_script (OfIndex example_index)
  = Ok [example_leaf 2; example_leaf 3]
  ∧ map_and_launch_all true example_forest TaskOp.blank [example_leaf 2; example_leaf 3]
    = Ok example_slices
  ∧ (∃ sys,
       children_mapped true (λ _, Ok ()) example_events
         (mkSystem example_slices example_index []) = Ok sys
       ∧ sys_calls sys = [IndexTask.CompleteMapping]
       ∧ IndexTask.total_points (IndexTask.progress (sys_index sys)) = 2)
  ∧ sys_calls <$> children_mapped true (λ _, Ok ()) [1%nat]
      (mkSystem example_slices example_index []) = Ok [].
Proof.
  assert (decompose true example_forest false MultiTask.blank example_script
            (OfIndex example_index) = Ok [example_leaf 2; example_leaf 3]) as Hrun
    by reflexivity.
  assert (map_and_launch_all true example_forest TaskOp.blank
            [example_leaf 2; example_leaf 3] = Ok example_slices) as Hlaunch
    by reflexivity.
  assert (partitions example_forest example_script
            (MultiTask.internal_space (IndexTask.multi example_index))) as Hparts.
  { cbn. repeat split; done. }
  assert (each_point_once example_slices example_events) as Hevents.
  { split; [repeat constructor; cbn; lia|].
    intros [|[|i]] s; cbn; intros [= <-]; reflexivity. }
  destruct (launch_maps_when_its_domain_has true example_forest false MultiTask.blank
              TaskOp.blank (λ _, Ok ()) (λ _ _, eq_refl) example_script example_index
              [example_leaf 2; example_leaf 3] example_slices example_events)
    as [(sys & Hmapped & Hcalls & Htotal & _) Hearly];
    [reflexivity|reflexivity|exact Hparts|reflexivity|exact Hrun| |exact Hlaunch
    |exact Hevents|].
  { repeat constructor; done. }
  split_and!; [done|done| |].
  - exists sys. split_and!; [done|done|]. rewrite Htotal. reflexivity.
  - by apply (Hearly [1%nat] [0%nat]).
Defined.

End LaunchMappingFacts.
(** ** The commit of a slice *)

Module SliceCommitFacts.
Import SliceTask SliceReports SliceCommit.

Section commit.
Context {DomainPoint : Type}.
Variable DEBUG_LEGION : bool.

Notation slice := (t DomainPoint).
Notation step := (step (DomainPoint := DomainPoint) DEBUG_LEGION).
Notation run := (run (DomainPoint := DomainPoint) DEBUG_LEGION).
Notation seen_by_index := (SliceCompletion.seen_by_index (DomainPoint := DomainPoint)).
Notation report s index :=
  (IndexTask.return_slice_commit DEBUG_LEGION (points_size s) index).
Notation children events := (count_occ Event_eq_dec events ChildCommitted).
Notation own events := (count_occ Event_eq_dec events OwnCommit).

Lemma awaiting_is_committing (s : slice) : awaiting_commit s → committing 0 false s.
Proof.
  intros (Hpoints & Hfit & Hcount & Hinvoked & H1 & H2 & H3 & H4).
  assert (0 < length (points s))%nat as Hn by (destruct (points s); [done|cbn; lia]).
  unfold committing. rewrite bool_decide_eq_false_2 by lia.
  split_and!; try done; lia.
Qed.

(** A point commits. *)
Lemma step_child_committed (s : slice) index reported told :
  committing reported told s → (reported < length (points s))%nat →
  ∃ s',
    committing (S reported) told s' ∧ points s' = points s
    ∧ step ChildCommitted s index
      = if bool_decide (S reported = length (points s)) && told
        then '(index', calls) ← report s index; mret (s', index', calls)
        else Ok (s', index, []).
Proof.
  intros (Hn & Hle & Hfit & Hcount & Hinvoked & Hcomplete & Hchildren & Hown & Hchildren')
    Hlt.
  rewrite bool_decide_eq_false_2 in Hinvoked, Hchildren' by lia.
  unfold SliceCommit.step, record_child_committed.
  rewrite (proj2 (Z.ltb_lt 0 (num_uncommitted_points s))), debug_assert_true by lia.
  cbn [mbind result_bind mret result_ret].
  rewrite SliceReportFacts.wrap_u32_small, Hinvoked, andb_true_r by lia.
  destruct (num_uncommitted_points s - 1 =? 0) eqn:Hlast.
  - apply Z.eqb_eq in Hlast.
    rewrite (bool_decide_eq_true_2 (S reported = _)) by lia. cbn [andb].
    unfold TaskOp.trigger_children_committed.
    cbn [set_multi multi MultiTask.base MultiTask.set_children_commit_invoked
         set_num_uncommitted_points].
    rewrite Hchildren, Hchildren'. cbn [negb orb]. rewrite !debug_assert_true.
    cbn [mbind result_bind mret result_ret TaskOp.set_children_commit
         TaskOp.commit_received].
    rewrite Hown.
    assert (∀ s' : slice,
              points s' = points s →
              num_uncommitted_points s' = 0 →
              MultiTask.children_commit_invoked (multi s') = true →
              TaskOp.complete_received (MultiTask.base (multi s')) = true →
              TaskOp.children_complete (MultiTask.base (multi s')) = true →
              TaskOp.commit_received (MultiTask.base (multi s')) = told →
              TaskOp.children_commit (MultiTask.base (multi s')) = true →
              committing (S reported) told s') as Hnext.
    { intros s' Hp ? ? ? ? ? ?. unfold committing. rewrite Hp.
      rewrite bool_decide_eq_true_2 by lia. split_and!; try done; lia. }
    eexists. split_and!; [| |destruct told; reflexivity].
    + apply Hnext; cbn; done.
    + done.
  - apply Z.eqb_neq in Hlast.
    rewrite (bool_decide_eq_false_2 (S reported = _)) by lia. cbn [andb].
    eexists. split_and!; [| |reflexivity]; [|done].
    unfold committing. cbn. rewrite bool_decide_eq_false_2 by lia.
    split_and!; try done; lia.
Qed.

(** The slice is told of its own commit. *)
Lemma step_own_commit (s : slice) index reported :
  committing reported false s →
  ∃ s',
    committing reported true s' ∧ points s' = points s
    ∧ step OwnCommit s index
      = if bool_decide (reported = length (points s))
        then '(index', calls) ← report s index; mret (s', index', calls)
        else Ok (s', index, []).
Proof.
  intros (Hn & Hle & Hfit & Hcount & Hinvoked & Hcomplete & Hchildren & Hown & Hchildren').
  unfold SliceCommit.step, TaskOp.trigger_commit.
  rewrite Hown, Hcomplete. cbn [negb]. rewrite !debug_assert_true.
  cbn [mbind result_bind mret result_ret TaskOp.set_commit_received
       TaskOp.children_commit].
  rewrite Hchildren'.
  eexists. split_and!; [| |destruct (bool_decide _); reflexivity]; [|done].
  unfold committing. cbn. split_and!; done.
Qed.

Lemma commit_events_left (events : list Event) :
  events ≠ [] → (0 < children events + own events)%nat.
Proof. destruct events as [|[] events]; [done|cbn; lia..]. Qed.

Lemma run_reports_commit_at_the_end index : ∀ events reported told (s : slice) calls,
  committing reported told s →
  children events = (length (points s) - reported)%nat →
  own events = (if told then 0 else 1)%nat →
  events ≠ [] →
  seen_by_index (run events s index calls)
  = ('(index', c) ← report s index; mret (index', calls ++ c))
  ∧ ∀ pre post, events = pre ++ post → post ≠ [] →
      seen_by_index (run pre s index calls) = Ok (index, calls).
Proof.
  induction events as [|e events IH]; intros reported told s calls Hinv Hchildren Hown Hsome;
    [done|].
  pose proof Hinv as (_ & Hle & _).
  assert (∃ s' reported' told',
            committing reported' told' s' ∧ points s' = points s
            ∧ children events = (length (points s) - reported')%nat
            ∧ own events = (if told' then 0 else 1)%nat
            ∧ step e s index
              = if bool_decide (reported' = length (points s)) && told'
                then '(index', c) ← report s index; mret (s', index', c)
                else Ok (s', index, []))
    as (s' & reported' & told' & Hinv' & Hpoints & Hchildren' & Hown' & Hstep).
  { destruct e; cbn [count_occ] in Hchildren, Hown.
    - destruct (Event_eq_dec ChildCommitted ChildCommitted); [|done].
      destruct (Event_eq_dec ChildCommitted OwnCommit); [done|].
      destruct (step_child_committed s index reported told Hinv) as (s' & ? & ? & ?);
        [lia|].
      exists s', (S reported), told. split_and!; [done|done|lia|done|done].
    - destruct (Event_eq_dec OwnCommit OwnCommit); [|done].
      destruct (Event_eq_dec OwnCommit ChildCommitted); [done|].
      destruct told; [done|].
      destruct (step_own_commit s index reported Hinv) as (s' & ? & ? & Hstep).
      exists s', reported, true. split_and!; [done|done|done|lia|].
      by rewrite andb_true_r. }
  assert (points_size s' = points_size s) as Hsize.
  { unfold points_size. by rewrite Hpoints. }
  destruct events as [|e' events].
  - cbn [count_occ] in Hchildren', Hown'. destruct told'; [|done].
    pose proof Hinv' as (_ & Hle' & _). rewrite Hpoints in Hle'.
    rewrite bool_decide_eq_true_2 in Hstep by lia. cbn [andb] in Hstep.
    split.
    + cbn [SliceCommit.run]. rewrite Hstep.
      destruct (report s index) as [[index' c]| |]; reflexivity.
    + intros [|e1 pre] post Hsplit Hpost; [reflexivity|].
      injection Hsplit as _ Hsplit. by destruct pre, post.
  - assert (bool_decide (reported' = length (points s)) && told' = false) as Hquiet.
    { pose proof (commit_events_left (e' :: events) ltac:(done)) as Hleft.
      rewrite Hchildren', Hown' in Hleft.
      destruct told'; [|by rewrite andb_false_r].
      rewrite bool_decide_eq_false_2; [done|lia]. }
    rewrite Hquiet in Hstep.
    rewrite <-Hpoints in Hchildren'.
    destruct (IH reported' told' s' (calls ++ []) Hinv' Hchildren' Hown' ltac:(done))
      as [Hend Hprefix].
    rewrite app_nil_r, Hsize in Hend. rewrite app_nil_r in Hprefix.
    split.
    + cbn [SliceCommit.run]. rewrite Hstep. cbn [mbind result_bind].
      rewrite app_nil_r. exact Hend.
    + intros [|e1 pre] post Hsplit Hpost; [reflexivity|].
      injection Hsplit as <- Hsplit.
      cbn [SliceCommit.run]. rewrite Hstep. cbn [mbind result_bind].
      rewrite app_nil_r. by eapply Hprefix.
Qed.

Lemma count_occ_replicate_commit (e e' : Event) n :
  count_occ Event_eq_dec (replicate n e) e' = if decide (e = e') then n else 0%nat.
Proof.
  induction n as [|n IH]; cbn [replicate count_occ]; [by destruct (decide _)|].
  rewrite IH. destruct (Event_eq_dec e e'), (decide (e = e')); done.
Qed.

(** X16. A slice (with at least one point, fewer than [2 ^ 32]) has
    completed. Its points commit, each one once, and
    the slice is told once of its own commit, in any order. Then no
    assertion fails in the slice, and the slice reports to its index
    launch exactly once, with the last of these events: what the index
    launch becomes and the calls it makes are those of
    [return_slice_commit] for the number of points of the slice, and
    before the last event the index launch has been told nothing. A
    slice that is told of its own commit before it was told of its own
    completion fails the assertion of a debug build. *)
Theorem slice_reports_commit_once (s : slice) (index : IndexTask.t DomainPoint)
    (events : list Event) :
  awaiting_commit s →
  commits_once s events →
  seen_by_index (run events s index []) = report s index
  ∧ (∀ pre post, events = pre ++ post → post ≠ [] →
       seen_by_index (run pre s index []) = Ok (index, []))
  ∧ ∀ early : slice,
      TaskOp.complete_received (MultiTask.base (multi early)) = false →
      SliceCommit.step true OwnCommit early index = AssertFailed.
Proof.
  intros Hawaiting Honce. unfold commits_once in Honce.
  pose proof (awaiting_is_committing s Hawaiting) as Hinv.
  assert (children events = (length (points s) - 0)%nat ∧ own events = 1%nat)
    as [Hchildren Hown].
  { rewrite !(proj1 (Permutation_count_occ Event_eq_dec _ _) Honce).
    cbn [count_occ].
    destruct (Event_eq_dec OwnCommit ChildCommitted); [done|].
    destruct (Event_eq_dec OwnCommit OwnCommit); [|done].
    rewrite !count_occ_replicate_commit.
    destruct (decide (ChildCommitted = ChildCommitted)); [|done].
    destruct (decide (ChildCommitted = OwnCommit)); [done|]. lia. }
  assert (events ≠ []) as Hsome.
  { intros ->. by apply Permutation_nil_cons in Honce. }
  destruct (run_reports_commit_at_the_end index events 0 false s [] Hinv Hchildren Hown
              Hsome) as [Hend Hprefix].
  split_and!; [|exact Hprefix|].
  - rewrite Hend. destruct (report s index) as [[index' c]| |]; reflexivity.
  - intros early Hearly. unfold SliceCommit.step, TaskOp.trigger_commit.
    by rewrite Hearly.
Qed.
End commit.

Lemma slice_reports_commit_once_witness :
  let index := IndexTask.activate_index_task (DomainPoint := Z) 1 MultiTask.blank in
  SliceCompletion.seen_by_index
    (run false [ChildCommitted; OwnCommit; ChildCommitted] completed_slice_task index [])
  = IndexTask.return_slice_commit false 2 index
  ∧ SliceCompletion.seen_by_index
      (run false [ChildCommitted; OwnCommit] completed_slice_task index [])
    = Ok (index, []).
Proof.
  intros index.
  assert (awaiting_commit completed_slice_task) as Hawaiting.
  { unfold awaiting_commit. cbn. split_and!; done. }
  assert (commits_once completed_slice_task [ChildCommitted; OwnCommit; ChildCommitted])
    as Honce.
  { unfold commits_once. cbn. apply perm_swap. }
  destruct (slice_reports_commit_once false completed_slice_task index
              [ChildCommitted; OwnCommit; ChildCommitted] Hawaiting Honce)
    as (Hend & Hprefix & _).
  split; [exact Hend|].
  by apply (Hprefix [ChildCommitted; OwnCommit] [ChildCommitted]).
Defined.

End SliceCommitFacts.

(** ** The partition check of a slicing, build by build *)

Module PartitionCheckFacts.
Import Launch.

Section builds.
Context {DomainPoint : Type}.
Variable runtime : Runtime DomainPoint.
Variable is_recording : bool.
Variable recycled_multi : MultiTask.t.

Notation Sliceable := (Sliceable (DomainPoint := DomainPoint)).
Notation MapperScript := (MapperScript (DomainPoint := DomainPoint)).
Notation slice_index_space dbg := (slice_index_space dbg runtime is_recording recycled_multi).
Notation decompose dbg := (decompose dbg runtime is_recording recycled_multi).
Notation complete_slice := (MultiTask.complete_slice runtime).
Notation slices_volume := (MultiTask.slices_volume runtime).
Notation acceptable := (MultiTask.acceptable runtime is_recording).

(** A release build looks at the processor and the type of a slice
    only. *)
Lemma check_slice_release internal slice total :
  acceptable internal slice →
  MultiTask.check_slice false runtime is_recording internal slice total
  = Ok (complete_slice slice, total).
Proof.
  intros (Hproc & Htag & Hlocal). unfold MultiTask.check_slice.
  rewrite Hproc, Htag, Z.eqb_refl. cbn [negb].
  assert (ts_proc (complete_slice slice) = ts_proc slice) as ->.
  { unfold MultiTask.complete_slice. by destruct (_ && _). }
  destruct is_recording; cbn [andb]; [|done].
  by rewrite Hlocal.
Qed.

Lemma slice_loop_release (this : Sliceable) m internal num_slices : ∀ todo total,
  Forall (acceptable internal) todo →
  ∃ slices,
    MultiTask.slice_loop false runtime is_recording (clone_as_slice_task false recycled_multi this)
      m internal num_slices todo total = Ok (complete_slice <$> todo, slices, total)
    ∧ length slices = length todo.
Proof.
  induction todo as [|slice todo IH]; intros total Hall.
  { by exists []. }
  apply Forall_cons in Hall as [Hslice Hall].
  cbn [MultiTask.slice_loop]. rewrite (check_slice_release _ _ _ Hslice).
  cbn [mbind result_bind].
  destruct (SlicingFacts.clone_as_slice_task_ok recycled_multi false this m
              (ts_domain_is (complete_slice slice)) (ts_proc (complete_slice slice))
              (ts_recurse (complete_slice slice)) (ts_stealable (complete_slice slice))
              num_slices) as (new_slice & ->).
  { unfold MultiTask.complete_slice. destruct (_ && _); apply Hslice. }
  destruct (IH total Hall) as (slices & -> & Hlength).
  cbn [mbind result_bind mret result_ret].
  exists (new_slice :: slices). split; [done|]. cbn. by rewrite Hlength.
Qed.

(** C8 (amended). In a debug build, when the volumes of the slices the
    mapper returns (which add up to less than [2 ^ 64]) do not add up
    to the volume of the domain that is sliced, or one of the slices is
    empty, [slice_index_space] of a task that is not yet sliced ends in
    a fatal error and returns no slice, so that no slice is triggered:
    the error is the invalid mapper output error, unless the task is
    being recorded in a trace and an error for a remotely mapped slice
    is found first. A release build makes neither check: it accepts
    every output that is not empty, whose slices name a processor that
    exists (a local one while a trace is recorded) and an index space of
    the type of the sliced space, and that passes [validate_slicing]
    when the mapper asks for it, whatever the volumes are. *)
Theorem violated_partition_stops_debug_build (this : Sliceable)
    (output : SliceTaskOutput DomainPoint) :
  MultiTask.sliced (multi_of this) = false →
  slices_volume (out_slices output) < 2 ^ 64 →
  MultiTask.partition_violated runtime (multi_of this) output →
  (∃ code,
     slice_index_space true this output = Fatal code
     ∧ (is_recording = false → code = ERROR_INVALID_MAPPER_OUTPUT)
     ∧ ∀ outs : list (TaskSlice DomainPoint * MapperScript),
         outs.*1 = out_slices output →
         decompose true (Script outs (out_verify_correctness output)) this = Fatal code)
  ∧ (out_slices output ≠ [] →
     Forall (acceptable (MultiTask.internal_space (multi_of this))) (out_slices output) →
     (out_verify_correctness output = true →
      validate_slicing runtime (MultiTask.internal_space (multi_of this))
        (ts_domain_is <$> (complete_slice <$> out_slices output)) = Ok ()) →
     ∃ this' slices,
       slice_index_space false this output = Ok (this', slices)
       ∧ length slices = length (out_slices output)).
Proof.
  intros Hsliced Hfit Hviolated. split.
  - assert (∃ code,
              slice_index_space true this output = Fatal code
              ∧ (is_recording = false → code = ERROR_INVALID_MAPPER_OUTPUT))
      as (code & Hfatal & Hcode).
    { unfold Launch.slice_index_space, MultiTask.slice_index_space.
      rewrite Hsliced. cbn [negb debug_assert andb mbind result_bind].
      case_bool_decide as Hempty; [by eexists|].
      cbn [MultiTask.internal_space MultiTask.set_base MultiTask.set_sliced].
      match goal with
      | |- context [MultiTask.slice_loop ?d ?r ?rec ?c ?m ?i ?n ?todo ?tot] =>
          pose proof (SlicingFacts.slice_loop_debug runtime is_recording recycled_multi
                        this m i n todo 0 ltac:(done) ltac:(lia)) as Hloop;
          destruct (MultiTask.slice_loop d r rec c m i n todo tot)
            as [[[done slices] total]| |code]
      end; cbn [mbind result_bind]; [|done|by eexists].
      destruct Hloop as [Hall ->]. rewrite Z.add_0_l. cbn [andb].
      destruct (slices_volume (out_slices output) =? _) eqn:Hvol; cbn [negb];
        [|by eexists].
      apply Z.eqb_eq in Hvol.
      destruct Hviolated as [Hne|(slice & Hin & Hzero)]; [done|].
      by destruct (Hall slice Hin). }
    exists code. split; [done|]. split; [done|].
    intros outs Houts. cbn [Launch.decompose]. rewrite Houts.
    destruct output as [todo verify]. cbn [out_slices out_verify_correctness].
    by rewrite Hfatal.
  - intros Hsome Hall Hvalid.
    unfold Launch.slice_index_space, MultiTask.slice_index_space.
    cbn [debug_assert mbind result_bind andb].
    rewrite bool_decide_eq_false_2 by done.
    cbn [MultiTask.internal_space MultiTask.set_base MultiTask.set_sliced].
    match goal with
    | |- context [MultiTask.slice_loop ?d ?r ?rec ?c ?m ?i ?n ?todo ?tot] =>
        destruct (slice_loop_release this m i n todo tot Hall) as (slices & -> & Hlength)
    end.
    cbn [mbind result_bind].
    destruct (out_verify_correctness output).
    + rewrite Hvalid by done. cbn. eauto.
    + cbn. eauto.
Qed.
End builds.

Lemma violated_partition_stops_debug_build_witness :
  (∃ code,
     slice_index_space true example_forest false MultiTask.blank (OfIndex example_index)
       short_output = Fatal code
     ∧ code = ERROR_INVALID_MAPPER_OUTPUT)
  ∧ ∃ this' slices,
      slice_index_space false example_forest false MultiTask.blank (OfIndex example_index)
        short_output = Ok (this', slices)
      ∧ length slices = 1%nat.
Proof.
  destruct (violated_partition_stops_debug_build example_forest false MultiTask.blank
              (OfIndex example_index) short_output) as [Hdebug Hrelease].
  - reflexivity.
  - vm_compute. reflexivity.
  - left. vm_compute. discriminate.
  - split.
    + destruct Hdebug as (code & Hfatal & Hcode & _). exists code. split; [done|].
      by apply Hcode.
    + apply Hrelease.
      * discriminate.
      * repeat constructor.
      * discriminate.
Defined.

End PartitionCheckFacts.

(** ** The slices of a decomposition: their denominators and their points *)

Module DecompositionTreeFacts.
Import Launch.

Section tree.
Context {DomainPoint : Type}.
Variable DEBUG_LEGION : bool.
Variable runtime : Runtime DomainPoint.
Variable is_recording : bool.
Variable recycled_multi : MultiTask.t.
Variable recycled_task : TaskOp.t.

Notation MapperScript := (MapperScript (DomainPoint := DomainPoint)).
Notation Sliceable := (Sliceable (DomainPoint := DomainPoint)).
Notation slice_index_space :=
  (slice_index_space DEBUG_LEGION runtime is_recording recycled_multi).
Notation decompose := (decompose DEBUG_LEGION runtime is_recording recycled_multi).
Notation trigger_mapping :=
  (trigger_mapping DEBUG_LEGION runtime is_recording recycled_multi).
Notation launch_all := (launch_all DEBUG_LEGION runtime recycled_task).
Notation launch :=
  (launch DEBUG_LEGION runtime is_recording recycled_multi recycled_task).

(** What [trigger_mapping] decomposes: the launch itself, or the slice
    of denominator 1 that continues it on the node it was sent to. *)
Lemma trigger_mapping_decomposes (script : MapperScript) (index : IndexTask.t DomainPoint)
    (leaves : list (SliceTask.t DomainPoint)) :
  trigger_mapping script index = Ok leaves →
  ∃ this,
    decompose script this = Ok leaves
    ∧ denominator_of this = 1
    ∧ MultiTask.internal_space (multi_of this)
      = MultiTask.internal_space (IndexTask.multi index).
Proof.
  unfold Launch.trigger_mapping. intros Hrun.
  destruct (TaskOp.is_origin_mapped _) eqn:Horigin.
  { by exists (OfIndex index). }
  apply result_bind_ok in Hrun as ([still_local sent] & Hdist & Hrun).
  destruct still_local.
  { by exists (OfIndex index). }
  unfold IndexTask.distribute_task in Hdist. rewrite Horigin in Hdist.
  destruct (_ && _); [|by injection Hdist].
  apply result_bind_ok in Hdist as (clone & Hclone & [= <-]).
  unfold IndexTask.clone_as_slice_task, MultiTask.clone_multi_from in Hclone.
  apply result_bind_ok in Hclone as (m & (b & _ & [= <-])%result_bind_ok & [= <-]).
  by eexists (OfSlice _).
Qed.

(** C2 (amended). As long as no product leaves the range of
    [long long]: a launch or slice of denominator D (the launch counts
    as denominator 1) that is split in k slices gives each of them the
    denominator D times k; the terminal slices of its decomposition,
    however deep, have positive denominators, and the sum of
    1/denominator over them is the rational 1/D: exactly 1 below an
    index launch. *)
Theorem split_multiplies_denominator (script : MapperScript) (this : Sliceable)
    (leaves : list (SliceTask.t DomainPoint)) :
  0 < denominator_of this →
  fits script (denominator_of this) = true →
  decompose script this = Ok leaves →
  (∀ outs verify,
     script = Script outs verify →
     ∃ this' slices,
       slice_index_space this (mkSliceTaskOutput outs.*1 verify) = Ok (this', slices)
       ∧ length slices = length outs
       ∧ Forall (λ s, SliceTask.denominator s
                      = denominator_of this * Z.of_nat (length outs)) slices
       ∧ trigger_slices decompose outs slices = Ok leaves)
  ∧ Forall (λ s, 0 < SliceTask.denominator s) leaves
  ∧ leaf_fraction leaves = Fraction.make 1 (denominator_of this)
  ∧ (denominator_of this = 1 → leaf_fraction leaves = 1%Qc)
  ∧ (∀ index leaves',
       fits script 1 = true →
       trigger_mapping script index = Ok leaves' →
       leaf_fraction leaves' = 1%Qc).
Proof.
  intros HD Hfits Hrun. split_and!.
  - intros outs verify ->. cbn [Launch.decompose] in Hrun.
    apply result_bind_ok in Hrun as ([this' slices] & Hslice & Hrun).
    cbn [fits] in Hfits. apply andb_true_iff in Hfits as [Hfit%Z.ltb_lt _].
    destruct (DecompositionFacts.children_denominator _ _ _ _ _ _ _ _ Hslice HD)
      as [Hlength Hden]; cbn [out_slices] in *; rewrite ?length_fmap in *; [done|].
    by exists this', slices.
  - by eapply LaunchMappingFacts.decompose_positive.
  - by eapply DecompositionFacts.decompose_sums_to_whole.
  - intros H1. rewrite <-DecompositionFacts.fraction_one. rewrite <-H1 at 2.
    by eapply DecompositionFacts.decompose_sums_to_whole.
  - intros index leaves' Hfits' (this0 & Hrun' & H1 & _)%trigger_mapping_decomposes.
    rewrite <-DecompositionFacts.fraction_one. rewrite <-H1 at 2.
    eapply DecompositionFacts.decompose_sums_to_whole; [done|lia|by rewrite H1].
Qed.

(** C3 (amended). When at every slicing the slices the mapper returns
    hold the points of the sliced space, each one once: every terminal
    slice creates one point task for each point of its sub-domain, the
    sub-domains of the terminal slices hold the points of the launch
    domain, each one once, however deep the launch is sliced, and so do
    the point tasks that are launched: for every point of the launch
    domain there is exactly one point task. *)
Theorem one_point_task_per_point (script : MapperScript)
    (index : IndexTask.t DomainPoint) (tasks : list (PointTask.t DomainPoint)) :
  let domain :=
    domain_points
      (find_launch_space_domain runtime (MultiTask.internal_space (IndexTask.multi index))) in
  partitions runtime script (MultiTask.internal_space (IndexTask.multi index)) →
  launch script index = Ok tasks →
  ∃ leaves,
    trigger_mapping script index = Ok leaves
    ∧ launch_all leaves = Ok tasks
    ∧ PointTask.index_point <$> tasks = concat (leaf_points runtime <$> leaves)
    ∧ concat (leaf_points runtime <$> leaves) ≡ₚ domain
    ∧ PointTask.index_point <$> tasks ≡ₚ domain
    ∧ (NoDup domain →
       ∀ p, p ∈ domain →
            ∃ i, (PointTask.index_point <$> tasks) !! i = Some p
                 ∧ ∀ j, (PointTask.index_point <$> tasks) !! j = Some p → j = i).
Proof.
  intros domain Hparts Hrun. unfold Launch.launch in Hrun.
  apply result_bind_ok in Hrun as (leaves & Hmap & Hrun).
  exists leaves.
  destruct (trigger_mapping_decomposes _ _ _ Hmap) as (this & Hdec & _ & Hspace).
  destruct (DecompositionFacts.decompose_covers _ _ _ _ script this leaves Hdec)
    as [Hnone Hcover].
  { by rewrite Hspace. }
  rewrite Hspace in Hcover. fold domain in Hcover.
  pose proof (DecompositionFacts.launch_all_index_points _ _ _ _ _ Hnone Hrun) as Hpoints.
  split_and!; [done..| |].
  - by rewrite Hpoints.
  - intros Hnodup p Hp.
    assert (NoDup (PointTask.index_point <$> tasks)) as Hnodup'.
    { by rewrite Hpoints, Hcover. }
    assert (p ∈ PointTask.index_point <$> tasks) as Hin.
    { by rewrite Hpoints, Hcover. }
    apply list_elem_of_lookup in Hin as [i Hi]. exists i. split; [done|].
    intros j Hj. by eapply NoDup_lookup.
Qed.
End tree.

Lemma split_multiplies_denominator_witness :
  decompose true example_forest false MultiTask.blank example_script (OfIndex example_index)
  = Ok [example_leaf 2; example_leaf 3]
  ∧ SliceTask.denominator <$> [example_leaf 2; example_leaf 3] = [2; 2]
  ∧ leaf_fraction [example_leaf 2; example_leaf 3] = 1%Qc.
Proof.
  split; [reflexivity|]. split; [reflexivity|].
  apply (split_multiplies_denominator true example_forest false MultiTask.blank
           example_script (OfIndex example_index) [example_leaf 2; example_leaf 3]);
    reflexivity.
Defined.

Lemma one_point_task_per_point_witness :
  launch true example_forest false MultiTask.blank TaskOp.blank example_script
    example_index = Ok [example_point 0; example_point 1]
  ∧ ∀ p, p ∈ [0; 1] →
         ∃ i, [0; 1] !! i = Some p ∧ ∀ j, [0; 1] !! j = Some p → j = i.
Proof.
  split; [reflexivity|].
  destruct (one_point_task_per_point true example_forest false MultiTask.blank
              TaskOp.blank example_script example_index
              [example_point 0; example_point 1]) as (leaves & _ & _ & _ & _ & _ & Hone).
  - cbn. repeat split; done.
  - reflexivity.
  - apply Hone. cbn. repeat constructor; set_solver.
Defined.

End DecompositionTreeFacts.

(** ** A deterministic reduction, from the arrival of the results to
    the completion of the launch *)

Module DeterministicReductionFacts.
Import Reduction IndexTask.

Section deterministic.
Context {DomainPoint : Type}.
Variable point_lt : DomainPoint → DomainPoint → bool.
Variable DEBUG_LEGION : bool.
Hypothesis point_order : strict_total_order point_lt.

Notation handle_futures := (handle_futures point_lt DEBUG_LEGION).
Notation in_point_order := (in_point_order point_lt).
Notation trigger_task_complete :=
  (trigger_task_complete (DomainPoint := DomainPoint) DEBUG_LEGION).

(** The results are buffered, nothing is folded; the completion of the
    launch folds the buffers in the order of the points. *)
Lemma buffered_until_complete must_epoch uid recycled redop_id op serdez
    (arrivals : list Arrival) (mem : Memory) :
  redop_id ≠ 0 →
  is_foldable op = true →
  NoDup (arr_point <$> arrivals) →
  Forall (λ a, is_Some (mem !! arr_ptr a)) arrivals →
  ∃ s0 mem1 s1 s2,
    initialize_task DEBUG_LEGION redop_id op serdez true
      (activate_index_task (DomainPoint := DomainPoint) uid recycled) = Ok s0
    ∧ handle_futures must_epoch arrivals mem s0 = Ok (mem1, s1)
    ∧ in_point_order (temporary_futures (red s1))
    ∧ buffered mem1 (temporary_futures (red s1))
      ≡ₚ (λ a, (arr_point a, arrival_value mem a)) <$> arrivals
    ∧ (∀ ptr, ptr ∈ buffer_addresses (temporary_futures (red s1))
              ↔ ptr ∈ owned_addresses arrivals
                ∨ (mem !! ptr = None ∧ is_Some (mem1 !! ptr)))
    ∧ (∀ ptr, is_Some (mem !! ptr) → mem1 !! ptr = mem !! ptr)
    ∧ reduction_state (red s1) = Some (initial_state op serdez)
    ∧ reduction_future (red s1) = None
    ∧ trigger_task_complete true mem1 s1 = Ok (mem1, s2)
    ∧ reduction_future (red s2)
      = Some (foldl (fold_value op serdez (sizeof_rhs op) true) (initial_state op serdez)
                (snd <$> buffered mem1 (temporary_futures (red s1)))).
Proof.
  intros Hredop Hfold Hnodup Hptrs.
  eexists. rewrite (ReductionFacts.initialize_task_foldable _ _ _ _ _ _ _ Hfold).
  match goal with |- context [Ok ?s = Ok _] => set (s0 := s) end.
  assert (in_point_order (temporary_futures (red s0))) as Hempty by constructor.
  assert (Forall (λ a : Arrival, arr_point a ∉ (temporary_futures (red s0)).*1) arrivals)
    as Hnew.
  { apply Forall_forall. intros a _. apply not_elem_of_nil. }
  assert (Forall (λ entry : DomainPoint * (N * Z), is_Some (mem !! (entry.2).1))
            (temporary_futures (red s0))) as Hnone by constructor.
  destruct (ReductionFacts.handle_futures_buffer point_lt DEBUG_LEGION point_order
              must_epoch op arrivals mem s0 eq_refl eq_refl Hempty Hnodup Hnew Hptrs Hnone)
    as (mem1 & tf & Hrun & Hsorted & Hperm & Hkeep & Halloc).
  destruct (ReductionFacts.handle_futures_keep point_lt DEBUG_LEGION point_order
              must_epoch op arrivals mem s0 eq_refl eq_refl Hempty Hnodup Hnew)
    as (mem1' & tf' & Hrun' & _ & Haddr).
  rewrite Hrun in Hrun'. injection Hrun' as <- <-.
  exists mem1, (set_red (set_temporary_futures tf (red s0)) s0).
  unfold IndexTask.trigger_task_complete.
  cbn [multi red set_red set_temporary_futures s0 MultiTask.redop
       MultiTask.deterministic_redop temporary_futures reduction_state reduction_future].
  rewrite (proj2 (Z.eqb_neq redop_id 0) Hredop). cbn [negb].
  erewrite ReductionFacts.fold_temporary_futures_spec; [|reflexivity|exact Hfold|reflexivity].
  cbn [mbind result_bind mret result_ret].
  eexists. split_and!; [reflexivity|exact Hrun|done| |  |done|done|done|reflexivity|reflexivity].
  - rewrite Hperm. cbn. by rewrite (right_id_L [] (++)).
  - intros ptr. rewrite Haddr. unfold buffer_addresses. cbn.
    rewrite elem_of_nil. tauto.
Qed.

(** C7. A launch with a deterministic reduction is handed one result
    per point, in any order (the operator foldable, [operator<] a strict
    total order of the points, the buffers allocated). Every result is
    buffered under its point, in the buffer the launch was given or in a
    copy at an address that was free, and no allocated buffer is
    written; the reduction buffer keeps the operator's initial value and
    the reduction future is not set until the launch completes. The
    completion folds the buffered results into the reduction buffer in
    the order of their points, and the value it sets on the reduction
    future is the same, byte for byte, for every order of arrival. *)
Theorem deterministic_reduction_ignores_arrival_order (must_epoch : bool) (uid : Z)
    (recycled : MultiTask.t) (redop_id : Z) (op : ReductionOp)
    (serdez : option SerdezRedopFns) (arrivals : list Arrival) (mem : Memory) :
  redop_id ≠ 0 →
  is_foldable op = true →
  NoDup (arr_point <$> arrivals) →
  Forall (λ a, is_Some (mem !! arr_ptr a)) arrivals →
  ∃ s0 mem1 s1 s2,
    initialize_task DEBUG_LEGION redop_id op serdez true
      (activate_index_task (DomainPoint := DomainPoint) uid recycled) = Ok s0
    ∧ handle_futures must_epoch arrivals mem s0 = Ok (mem1, s1)
    ∧ in_point_order (temporary_futures (red s1))
    ∧ buffered mem1 (temporary_futures (red s1))
      ≡ₚ (λ a, (arr_point a, arrival_value mem a)) <$> arrivals
    ∧ (∀ ptr, ptr ∈ buffer_addresses (temporary_futures (red s1))
              ↔ ptr ∈ owned_addresses arrivals
                ∨ (mem !! ptr = None ∧ is_Some (mem1 !! ptr)))
    ∧ (∀ ptr, is_Some (mem !! ptr) → mem1 !! ptr = mem !! ptr)
    ∧ reduction_state (red s1) = Some (initial_state op serdez)
    ∧ reduction_future (red s1) = None
    ∧ trigger_task_complete true mem1 s1 = Ok (mem1, s2)
    ∧ reduction_future (red s2)
      = Some (foldl (fold_value op serdez (sizeof_rhs op) true) (initial_state op serdez)
                (snd <$> buffered mem1 (temporary_futures (red s1))))
    ∧ ∀ arrivals',
        arrivals' ≡ₚ arrivals →
        ∃ mem1' s1' s2',
          handle_futures must_epoch arrivals' mem s0 = Ok (mem1', s1')
          ∧ trigger_task_complete true mem1' s1' = Ok (mem1', s2')
          ∧ reduction_future (red s2') = reduction_future (red s2).
Proof.
  intros Hredop Hfold Hnodup Hptrs.
  destruct (buffered_until_complete must_epoch uid recycled redop_id op serdez arrivals mem)
    as (s0 & mem1 & s1 & s2 & Hinit & Hrun & Hsorted & Hperm & Haddr & Hkeep & Hstate
        & Hnot & Hdone & Hres); try done.
  exists s0, mem1, s1, s2. split_and!; try done.
  intros arrivals' Hperm'.
  destruct (buffered_until_complete must_epoch uid recycled redop_id op serdez arrivals' mem)
    as (s0' & mem1' & s1' & s2' & Hinit' & Hrun' & Hsorted' & Hperm2 & _ & _ & _
        & _ & Hdone' & Hres'); try done.
  { by rewrite Hperm'. }
  { by rewrite Hperm'. }
  assert (s0' = s0) as -> by congruence.
  exists mem1', s1', s2'. split_and!; try done.
  rewrite Hres, Hres'. do 3 f_equal.
  destruct point_order as (Hirr & Htrans & Htotal).
  apply (ReductionFacts.sorted_unique point_lt Hirr Htrans).
  - by apply ReductionFacts.in_point_order_buffered.
  - by apply ReductionFacts.in_point_order_buffered.
  - by rewrite Hperm2, Hperm, Hperm'.
Qed.
End deterministic.

Lemma deterministic_reduction_ignores_arrival_order_witness :
  ∃ s0 mem1 s1 s2,
    initialize_task true 1 append_op None true
      (activate_index_task (DomainPoint := Z) 7 MultiTask.blank) = Ok s0
    ∧ handle_futures Z.ltb true false example_arrivals example_memory s0 = Ok (mem1, s1)
    ∧ reduction_state (red s1) = Some []
    ∧ trigger_task_complete true true mem1 s1 = Ok (mem1, s2)
    ∧ ∀ arrivals',
        arrivals' ≡ₚ example_arrivals →
        ∃ mem1' s1' s2',
          handle_futures Z.ltb true false arrivals' example_memory s0 = Ok (mem1', s1')
          ∧ trigger_task_complete true true mem1' s1' = Ok (mem1', s2')
          ∧ reduction_future (red s2') = reduction_future (red s2).
Proof.
  destruct (deterministic_reduction_ignores_arrival_order Z.ltb true
              ReductionFacts.Z_ltb_strict_total_order false 7 MultiTask.blank 1 append_op
              None example_arrivals example_memory)
    as (s0 & mem1 & s1 & s2 & Hinit & Hrun & _ & _ & _ & _ & Hstate & _ & Hdone & _ & Hany).
  - discriminate.
  - reflexivity.
  - vm_compute. repeat constructor; set_solver.
  - repeat constructor; vm_compute; eauto.
  - exists s0, mem1, s1, s2. done.
Defined.

End DeterministicReductionFacts.
